(** * thanos-operator: the reconcile loops of the query tier and of the
    ingestion tier, and the hash-ring configuration they publish.

    The development embeds [internal/controller/thanosquery_controller.go]
    and [internal/controller/thanosreceive_controller.go].  The cluster the
    controllers talk to is an explicit [World]; every call on the client is
    recorded in that world, and a table of [Faults] says which calls the
    platform refuses. *)

From Stdlib Require Import ZArith String Ascii Lia List Sorting.Sorted.
From stdpp Require Import base option gmap strings list sorting.

Local Open Scope Z_scope.

(** ** Errors *)

(** An error answered by the platform's API. *)
Inductive ApiError :=
| NotFound
| Unavailable (msg : string).

(** Go error values: API errors, the sentinel of the [receive] package,
    [fmt.Errorf] with and without [%w]. *)
Inductive error :=
| Api (e : ApiError)
| ErrHashringsEmpty
| Wrapf (msg : string) (cause : error)
| Errorf (msg : string) (n : Z).

(** [errors.Is err receive.ErrHashringsEmpty]: walks the [%w] chain. *)
Fixpoint IsErrHashringsEmpty (err : error) : bool :=
  match err with
  | ErrHashringsEmpty => true
  | Wrapf _ cause => IsErrHashringsEmpty cause
  | _ => false
  end.

(** [apierrors.IsNotFound]. *)
Fixpoint IsNotFound (err : error) : bool :=
  match err with
  | Api NotFound => true
  | Wrapf _ cause => IsNotFound cause
  | _ => false
  end.

(** What a call of [Reconcile] or [syncResources] ends with: the returned
    error ([None] is [nil]), or a run-time panic. *)
Inductive Outcome :=
| Returned (err : option error)
| Panicked.

(** ** Platform types *)

Module corev1.

Record ServicePort := { PortName : string; Port : Z }.

Record Service := {
  Name : string;
  Namespace : string;
  Labels : gmap string string;
  Ports : list ServicePort;
}.

Record SecretKeySelector := { SecretName : string; Key : string }.

End corev1.

Module discoveryv1.

Definition LabelServiceName : string := "kubernetes.io/service-name".

Record EndpointConditions := {
  Ready : option bool;
  Serving : option bool;
  Terminating : option bool;
}.

Record Endpoint := {
  Addresses : list string;
  Hostname : option string;
  Conditions : EndpointConditions;
}.

Record EndpointSlice := {
  Name : string;
  Namespace : string;
  Labels : gmap string string;
  Endpoints : list Endpoint;
}.

End discoveryv1.

(** ** The packages the controllers build manifests with *)

Module manifests.

Record Options := {
  Name : string;
  Namespace : string;
  Replicas : Z;
  Labels : gmap string string;
  Image : option string;
  LogLevel : option string;
  LogFormat : option string;
}.

End manifests.

Module manifestquery.

(** [EndpointType] is a string type; its constants are label keys. *)
Definition EndpointType := string.

Record Endpoint := {
  ServiceName : string;
  Namespace : string;
  Type_ : EndpointType;
  Port : Z;
}.

Record QuerierOptions := {
  Options : manifests.Options;
  ReplicaLabels : list string;
  Timeout : string;
  LookbackDelta : string;
  MaxConcurrent : Z;
  Endpoints : list Endpoint;
}.

End manifestquery.

Module receive.

(** One endpoint of a hashring: [{address, az}]. *)
Record Endpoint := { Address : string; AZ : string }.

(** [HashringConfig]: one row of the routing table. *)
Record HashringConfig := {
  Hashring : string;
  Tenants : list string;
  TenantMatcherType : string;
  Endpoints : list Endpoint;
}.

Definition Hashrings := list HashringConfig.

#[global] Instance Endpoint_eq_dec : EqDecision Endpoint.
Proof. solve_decision. Defined.
#[global] Instance HashringConfig_eq_dec : EqDecision HashringConfig.
Proof. solve_decision. Defined.

Record HashringMeta := {
  DesiredReplicasReplicas : Z;
  OriginalName : string;
  MetaTenants : list string;
  MetaTenantMatcherType : string;
  AssociatedEndpointSlices : list discoveryv1.EndpointSlice;
  Priority : Z;
}.

Record HashringOptions := {
  Options : manifests.Options;
  DesiredReplicationFactor : Z;
  HashringSettings : gmap string HashringMeta;
}.

Record IngesterOptions := {
  IngesterMeta : manifests.Options;
  Retention : string;
  StorageSize : string;
  ObjStoreSecret : corev1.SecretKeySelector;
  ExternalLabels : gmap string string;
}.

End receive.

(** ** Platform objects *)

Record OwnerReference := {
  OwnerKind : string;
  OwnerName : string;
  Controller : bool;
}.

#[global] Instance OwnerReference_eq_dec : EqDecision OwnerReference.
Proof. solve_decision. Defined.

(** A [client.Object] as the controllers handle it.  [UID] stands for the
    fields the platform assigns, [Manifest] for the part of an object the
    controllers never look into.  [Data] is the data of a config map; the
    routing table stored there is kept decoded, its text is
    [marshalHashrings] of it. *)
Record Object := {
  Kind : string;
  Name : string;
  Namespace : string;
  Labels : gmap string string;
  OwnerReferences : list OwnerReference;
  UID : string;
  Data : gmap string receive.Hashrings;
  Manifest : string;
}.

#[global] Instance Object_eq_dec : EqDecision Object.
Proof. solve_decision. Defined.

Definition ObjectKey : Type := string * string * string.

(** Kind, namespace and name identify an object on the platform. *)
Definition keyOf (obj : Object) : ObjectKey :=
  (Kind obj, Namespace obj, Name obj).

(** [obj.SetNamespace]. *)
Definition SetNamespace (ns : string) (obj : Object) : Object :=
  {| Kind := Kind obj; Name := Name obj; Namespace := ns;
     Labels := Labels obj; OwnerReferences := OwnerReferences obj;
     UID := UID obj; Data := Data obj; Manifest := Manifest obj |}.

(** What a successful [ctrl.SetControllerReference] does to [obj]. *)
Definition withControllerReference (ownerKind ownerName : string)
    (obj : Object) : Object :=
  {| Kind := Kind obj; Name := Name obj; Namespace := Namespace obj;
     Labels := Labels obj;
     OwnerReferences :=
       OwnerReferences obj ++
       [ {| OwnerKind := ownerKind; OwnerName := ownerName;
            Controller := true |} ];
     UID := UID obj; Data := Data obj; Manifest := Manifest obj |}.

(** [metav1.HasLabel]. *)
Definition HasLabel (labels : gmap string string) (key : string) : bool :=
  bool_decide (is_Some (labels !! key)).

(** ** Subjects *)

Module v1alpha1.

Record ThanosQuerySpec := {
  QueryImage : option string;
  QueryLogLevel : option string;
  QueryLogFormat : option string;
  QueryReplicas : Z;
  QuerierReplicaLabels : list string;
  StoreLabelSelector : gmap string string;
}.

Record ThanosQuery := {
  QueryName : string;
  QueryNamespace : string;
  QueryLabels : gmap string string;
  QueryDeletionTimestamp : option Z;
  QuerySpec : ThanosQuerySpec;
}.

Record ObjectStorageConfig := { SecretName : string; Key : string }.

Record IngestorHashringSpec := {
  Name : string;
  Labels : gmap string string;
  ExternalLabels : gmap string string;
  Replicas : Z;
  Retention : option string;
  StorageSize : string;
  Tenants : list string;
  TenantMatcherType : string;
  ObjectStorageConfig_ : option ObjectStorageConfig;
}.

Record ThanosReceiveSpec := {
  Image : option string;
  LogLevel : option string;
  LogFormat : option string;
  ReplicationFactor : Z;
  DefaultObjectStorageConfig : ObjectStorageConfig;
  Hashrings : list IngestorHashringSpec;
}.

Record ThanosReceive := {
  ReceiveName : string;
  ReceiveNamespace : string;
  ReceiveLabels : gmap string string;
  DeletionTimestamp : option Z;
  Finalizers : list string;
  Spec : ThanosReceiveSpec;
}.

(** [ObjectStorageConfig.ToSecretKeySelector]. *)
Definition ToSecretKeySelector (c : ObjectStorageConfig)
    : corev1.SecretKeySelector :=
  {| corev1.SecretName := SecretName c; corev1.Key := Key c |}.

End v1alpha1.

(** ** The world a reconcile pass runs in *)

(** The calls a pass makes on the client and on the controller runtime. *)
Inductive Call :=
| GetCall (key : ObjectKey)
| ListCall (kind ns : string) (selector : gmap string string)
| SetControllerReferenceCall (obj : Object)
| CreateOrUpdateCall (obj : Object).

(** The calls the platform refuses, and with what. *)
Definition Faults := Call -> option ApiError.

Record CallRecord := { call : Call; failure : option ApiError }.

Inductive LogLine :=
| Info (msg : string)
| Error (msg : string)
| V1Info (msg : string).

Record Event := {
  EventObject : string;
  EventType : string;
  Reason : string;
  Message : string;
}.

(** The cluster ([queries], [receives], [services], [endpointSlices] and
    the [objects] the operator applies, keyed by kind, namespace and name),
    the recorder, the logger and the metrics of the ingestion tier, and the
    [calls] made so far.  A pass lists services and endpoint slices before
    it applies anything, so that what it lists is kept apart from what it
    applies.  The counters are [float64] values that only ever grow by
    whole numbers; they are integers here. *)
Record World := {
  queries : gmap (string * string) v1alpha1.ThanosQuery;
  receives : gmap (string * string) v1alpha1.ThanosReceive;
  services : list corev1.Service;
  endpointSlices : list discoveryv1.EndpointSlice;
  objects : gmap ObjectKey Object;
  events : list Event;
  logs : list LogLine;
  reconciliationsTotal : Z;
  reconciliationsFailedTotal : Z;
  clientErrorsTotal : Z;
  hashringsConfigured : gmap (string * string) Z;
  calls : list CallRecord;
}.

Definition withObjects (f : gmap ObjectKey Object -> gmap ObjectKey Object)
    (w : World) : World :=
  {| queries := queries w; receives := receives w; services := services w;
     endpointSlices := endpointSlices w; objects := f (objects w);
     events := events w; logs := logs w;
     reconciliationsTotal := reconciliationsTotal w;
     reconciliationsFailedTotal := reconciliationsFailedTotal w;
     clientErrorsTotal := clientErrorsTotal w;
     hashringsConfigured := hashringsConfigured w; calls := calls w |}.

Definition withEvents (f : list Event -> list Event) (w : World) : World :=
  {| queries := queries w; receives := receives w; services := services w;
     endpointSlices := endpointSlices w; objects := objects w;
     events := f (events w); logs := logs w;
     reconciliationsTotal := reconciliationsTotal w;
     reconciliationsFailedTotal := reconciliationsFailedTotal w;
     clientErrorsTotal := clientErrorsTotal w;
     hashringsConfigured := hashringsConfigured w; calls := calls w |}.

Definition withLogs (f : list LogLine -> list LogLine) (w : World) : World :=
  {| queries := queries w; receives := receives w; services := services w;
     endpointSlices := endpointSlices w; objects := objects w;
     events := events w; logs := f (logs w);
     reconciliationsTotal := reconciliationsTotal w;
     reconciliationsFailedTotal := reconciliationsFailedTotal w;
     clientErrorsTotal := clientErrorsTotal w;
     hashringsConfigured := hashringsConfigured w; calls := calls w |}.

Definition withReconciliationsTotal (f : Z -> Z) (w : World) : World :=
  {| queries := queries w; receives := receives w; services := services w;
     endpointSlices := endpointSlices w; objects := objects w;
     events := events w; logs := logs w;
     reconciliationsTotal := f (reconciliationsTotal w);
     reconciliationsFailedTotal := reconciliationsFailedTotal w;
     clientErrorsTotal := clientErrorsTotal w;
     hashringsConfigured := hashringsConfigured w; calls := calls w |}.

Definition withReconciliationsFailedTotal (f : Z -> Z) (w : World) : World :=
  {| queries := queries w; receives := receives w; services := services w;
     endpointSlices := endpointSlices w; objects := objects w;
     events := events w; logs := logs w;
     reconciliationsTotal := reconciliationsTotal w;
     reconciliationsFailedTotal := f (reconciliationsFailedTotal w);
     clientErrorsTotal := clientErrorsTotal w;
     hashringsConfigured := hashringsConfigured w; calls := calls w |}.

Definition withClientErrorsTotal (f : Z -> Z) (w : World) : World :=
  {| queries := queries w; receives := receives w; services := services w;
     endpointSlices := endpointSlices w; objects := objects w;
     events := events w; logs := logs w;
     reconciliationsTotal := reconciliationsTotal w;
     reconciliationsFailedTotal := reconciliationsFailedTotal w;
     clientErrorsTotal := f (clientErrorsTotal w);
     hashringsConfigured := hashringsConfigured w; calls := calls w |}.

Definition withHashringsConfigured
    (f : gmap (string * string) Z -> gmap (string * string) Z)
    (w : World) : World :=
  {| queries := queries w; receives := receives w; services := services w;
     endpointSlices := endpointSlices w; objects := objects w;
     events := events w; logs := logs w;
     reconciliationsTotal := reconciliationsTotal w;
     reconciliationsFailedTotal := reconciliationsFailedTotal w;
     clientErrorsTotal := clientErrorsTotal w;
     hashringsConfigured := f (hashringsConfigured w); calls := calls w |}.

Definition withCalls (f : list CallRecord -> list CallRecord)
    (w : World) : World :=
  {| queries := queries w; receives := receives w; services := services w;
     endpointSlices := endpointSlices w; objects := objects w;
     events := events w; logs := logs w;
     reconciliationsTotal := reconciliationsTotal w;
     reconciliationsFailedTotal := reconciliationsFailedTotal w;
     clientErrorsTotal := clientErrorsTotal w;
     hashringsConfigured := hashringsConfigured w; calls := f (calls w) |}.

Definition log (l : LogLine) : World -> World := withLogs (fun ls => ls ++ [l]).

Definition record (c : Call) (e : option ApiError) : World -> World :=
  withCalls (fun cs => cs ++ [ {| call := c; failure := e |} ]).

(** ** What the sources leave to other packages *)

(** Constants and helpers of [manifests], [manifestquery], [receive] and
    [resource] that the controllers use and whose code is elsewhere. *)
Record Imports := {
  IsNamespacedResource : Object -> bool;
  ApplyDefaults : manifests.Options -> manifests.Options;
  MergeLabels : gmap string string -> gmap string string -> gmap string string;
  RegularLabel : manifestquery.EndpointType;
  StrictLabel : manifestquery.EndpointType;
  GroupStrictLabel : manifestquery.EndpointType;
  GroupLabel : manifestquery.EndpointType;
  BuildQuerier : manifestquery.QuerierOptions -> list Object;
  HashringConfigKey : string;
  BuildIngesters : list receive.IngesterOptions -> list Object;
  ParseQuantity : string -> option string;
}.

(** ** The client *)

Section Client.

Variable F : Faults.

(** A call is answered by the fault table first, by the cluster else;
    either way it is recorded. *)
Definition answer {A : Type} (c : Call) (found : ApiError + A)
    (w : World) : World * (ApiError + A) :=
  let r := match F c with Some e => inl e | None => found end in
  (record c (match r with inl e => Some e | inr _ => None end) w, r).

Definition lookupOr {K A : Type} `{Countable K} (m : gmap K A) (k : K)
    : ApiError + A :=
  match m !! k with
  | Some a => inr a
  | None => inl NotFound
  end.

(** [r.Get] of a ThanosQuery; [req] is (namespace, name). *)
Definition GetThanosQuery (req : string * string) (w : World)
    : World * (ApiError + v1alpha1.ThanosQuery) :=
  answer (GetCall ("ThanosQuery", req.1, req.2)) (lookupOr (queries w) req) w.

(** [r.Get] of a ThanosReceive. *)
Definition GetThanosReceive (req : string * string) (w : World)
    : World * (ApiError + v1alpha1.ThanosReceive) :=
  answer (GetCall ("ThanosReceive", req.1, req.2))
         (lookupOr (receives w) req) w.

(** [r.Client.Get] of a config map. *)
Definition GetConfigMap (ns name : string) (w : World)
    : World * (ApiError + Object) :=
  answer (GetCall ("ConfigMap", ns, name))
         (lookupOr (objects w) ("ConfigMap", ns, name)) w.

(** [r.List] of services with [MatchingLabels] and [InNamespace]. *)
Definition ListServices (ns : string) (selector : gmap string string)
    (w : World) : World * (ApiError + list corev1.Service) :=
  answer (ListCall "Service" ns selector)
         (inr (filter (fun svc => corev1.Namespace svc = ns /\
                                  selector ⊆ corev1.Labels svc)
                      (services w))) w.

(** [r.Client.List] of endpoint slices. *)
Definition ListEndpointSlices (ns : string) (selector : gmap string string)
    (w : World) : World * (ApiError + list discoveryv1.EndpointSlice) :=
  answer (ListCall "EndpointSlice" ns selector)
         (inr (filter (fun eps => discoveryv1.Namespace eps = ns /\
                                  selector ⊆ discoveryv1.Labels eps)
                      (endpointSlices w))) w.

Inductive OperationResult :=
| OperationResultNone
| OperationResultCreated
| OperationResultUpdated.

(** Modelled from the spec: [manifests.MutateFuncFor], the merge function
    of the applier.  It overwrites the fields the operator owns (labels
    it manages, owner references, data, manifest) and leaves the fields
    the platform assigned. *)
Definition MutateFuncFor (existing desired : Object) : Object :=
  {| Kind := Kind existing; Name := Name existing;
     Namespace := Namespace existing;
     Labels := Labels desired ∪ Labels existing;
     OwnerReferences := OwnerReferences desired;
     UID := UID existing;
     Data := Data desired; Manifest := Manifest desired |}.

(** [ctrl.CreateOrUpdate]: create the object when the platform has none
    under its key, else merge and update when the merge changes it. *)
Definition CreateOrUpdate (obj : Object) (w : World)
    : World * (ApiError + OperationResult) :=
  match F (CreateOrUpdateCall obj) with
  | Some e => (record (CreateOrUpdateCall obj) (Some e) w, inl e)
  | None =>
      let w := record (CreateOrUpdateCall obj) None w in
      match objects w !! keyOf obj with
      | None =>
          (withObjects (insert (keyOf obj) obj) w,
           inr OperationResultCreated)
      | Some existing =>
          let merged := MutateFuncFor existing obj in
          if decide (merged = existing)
          then (w, inr OperationResultNone)
          else (withObjects (insert (keyOf obj) merged) w,
                inr OperationResultUpdated)
      end
  end.

End Client.

(** ** The apply loop of [syncResources] *)

(** [errCount] is an [int32]. *)
Definition wrap32 (z : Z) : Z := (z + 2 ^ 31) mod 2 ^ 32 - 2 ^ 31.

Section Apply.

Variable I : Imports.
Variable F : Faults.

(** The creation or update of one object: the second half of the loop
    body. *)
Definition createOrUpdateObject (obj : Object) (errCount : Z) (w : World)
    : World * Z :=
  match CreateOrUpdate F obj w with
  | (w, inl _) =>
      (log (Error "failed to create or update resource") w,
       wrap32 (errCount + 1))
  | (w, inr _) => (log (V1Info "resource configured") w, errCount)
  end.

(** One turn of [for _, obj := range objs]; [owner] is the subject, as
    (kind, name), and [ns] its namespace. *)
Definition applyObject (owner : string * string) (ns : string)
    (obj : Object) (errCount : Z) (w : World) : World * Z :=
  if IsNamespacedResource I obj then
    let obj := SetNamespace ns obj in
    match F (SetControllerReferenceCall obj) with
    | Some e =>
        (log (Error "failed to set controller owner reference to resource")
             (record (SetControllerReferenceCall obj) (Some e) w),
         wrap32 (errCount + 1))
    | None =>
        createOrUpdateObject
          (withControllerReference owner.1 owner.2 obj) errCount
          (record (SetControllerReferenceCall obj) None w)
    end
  else createOrUpdateObject obj errCount w.

Fixpoint applyObjects (owner : string * string) (ns : string)
    (objs : list Object) (errCount : Z) (w : World) : World * Z :=
  match objs with
  | [] => (w, errCount)
  | obj :: objs =>
      let (w, errCount) := applyObject owner ns obj errCount w in
      applyObjects owner ns objs errCount w
  end.

End Apply.

(** ** The query tier: [thanosquery_controller.go] *)

Module ThanosQueryReconciler.
Section Reconciler.

Variable I : Imports.
Variable F : Faults.

(** The zero value of [manifestquery.Endpoint]. *)
Definition zeroEndpoint : manifestquery.Endpoint :=
  {| manifestquery.ServiceName := ""; manifestquery.Namespace := "";
     manifestquery.Type_ := ""; manifestquery.Port := 0 |}.

(** The [if / else if] chain on the strictness labels. *)
Definition endpointTypeOf (svc : corev1.Service)
    : manifestquery.EndpointType :=
  if HasLabel (corev1.Labels svc) (StrictLabel I) then StrictLabel I
  else if HasLabel (corev1.Labels svc) (GroupStrictLabel I)
  then GroupStrictLabel I
  else if HasLabel (corev1.Labels svc) (GroupLabel I) then GroupLabel I
  else RegularLabel I.

Definition setPort (port : Z) (e : manifestquery.Endpoint)
    : manifestquery.Endpoint :=
  {| manifestquery.ServiceName := manifestquery.ServiceName e;
     manifestquery.Namespace := manifestquery.Namespace e;
     manifestquery.Type_ := manifestquery.Type_ e;
     manifestquery.Port := port |}.

(** [for _, port := range svc.Spec.Ports]: the first port named [grpc]
    is written to [endpoints[i].Port], and the loop breaks. *)
Fixpoint rangePorts (ports : list corev1.ServicePort) (i : nat)
    (endpoints : list manifestquery.Endpoint)
    : list manifestquery.Endpoint :=
  match ports with
  | [] => endpoints
  | port :: ports =>
      if String.eqb (corev1.PortName port) "grpc"
      then alter (setPort (corev1.Port port)) i endpoints
      else rangePorts ports i endpoints
  end.

(** [for i, svc := range services.Items]: the body sets the port in
    place, then assigns a fresh [Endpoint] literal to [endpoints[i]]. *)
Fixpoint rangeItems (items : list corev1.Service) (i : nat)
    (endpoints : list manifestquery.Endpoint)
    : list manifestquery.Endpoint :=
  match items with
  | [] => endpoints
  | svc :: items =>
      let etype := endpointTypeOf svc in
      let endpoints := rangePorts (corev1.Ports svc) i endpoints in
      let endpoints :=
        <[ i := {| manifestquery.ServiceName := corev1.Name svc;
                   manifestquery.Namespace := corev1.Namespace svc;
                   manifestquery.Type_ := etype;
                   manifestquery.Port := 0 |} ]> endpoints in
      rangeItems items (S i) endpoints
  end.

Definition getStoreAPIServiceEndpoints (query : v1alpha1.ThanosQuery)
    (w : World) : World * list manifestquery.Endpoint :=
  match ListServices F (v1alpha1.QueryNamespace query)
          (v1alpha1.StoreLabelSelector (v1alpha1.QuerySpec query)) w with
  | (w, inl _) => (w, [])
  | (w, inr items) =>
      if (length items =? 0)%nat then (w, [])
      else (w, rangeItems items 0 (replicate (length items) zeroEndpoint))
  end.

Definition buildQuerier (query : v1alpha1.ThanosQuery) (w : World)
    : World * list Object :=
  let spec := v1alpha1.QuerySpec query in
  let metaOpts :=
    ApplyDefaults I
      {| manifests.Name := v1alpha1.QueryName query;
         manifests.Namespace := v1alpha1.QueryNamespace query;
         manifests.Replicas := v1alpha1.QueryReplicas spec;
         manifests.Labels := v1alpha1.QueryLabels query;
         manifests.Image := v1alpha1.QueryImage spec;
         manifests.LogLevel := v1alpha1.QueryLogLevel spec;
         manifests.LogFormat := v1alpha1.QueryLogFormat spec |} in
  let (w, endpoints) := getStoreAPIServiceEndpoints query w in
  (w, BuildQuerier I
        {| manifestquery.Options := metaOpts;
           manifestquery.ReplicaLabels := v1alpha1.QuerierReplicaLabels spec;
           manifestquery.Timeout := "15m";
           manifestquery.LookbackDelta := "5m";
           manifestquery.MaxConcurrent := 20;
           manifestquery.Endpoints := endpoints |}).

Definition syncResources (query : v1alpha1.ThanosQuery) (w : World)
    : World * option error :=
  let (w, objs) := buildQuerier query w in
  let (w, errCount) :=
    applyObjects I F ("ThanosQuery", v1alpha1.QueryName query)
      (v1alpha1.QueryNamespace query) objs 0 w in
  if 0 <? errCount
  then (w, Some (Errorf "failed to create or update %d resources for the querier"
                        errCount))
  else (w, None).

(** [req] is the namespaced name of the subject: (namespace, name). *)
Definition Reconcile (req : string * string) (w : World)
    : World * Outcome :=
  match GetThanosQuery F req w with
  | (w, inl err) =>
      if IsNotFound (Api err)
      then (log (Info "thanos query resource not found. ignoring since object may be deleted") w,
            Returned None)
      else (log (Error "failed to get ThanosQuery") w,
            Returned (Some (Api err)))
  | (w, inr query) =>
      match syncResources query w with
      | (w, Some err) => (w, Returned (Some err))
      | (w, None) => (w, Returned None)
      end
  end.

End Reconciler.

(** Modelled from the spec: the endpoint arguments of
    [manifestquery.BuildQuerier], the federation topology builder.  One
    discovery argument per endpoint,
    [--endpoint[-group][-strict]=dnssrv+_grpc._tcp.<service>.<namespace>.svc.cluster.local],
    the variant chosen by the strictness class. *)
Definition endpointFlag (I : Imports) (t : manifestquery.EndpointType)
    : string :=
  if String.eqb t (StrictLabel I) then "--endpoint-strict"
  else if String.eqb t (GroupStrictLabel I) then "--endpoint-group-strict"
  else if String.eqb t (GroupLabel I) then "--endpoint-group"
  else "--endpoint".

(** Modelled from the spec: the discovery argument of one endpoint in
    [manifestquery.BuildQuerier]. *)
Definition endpointArg (I : Imports) (e : manifestquery.Endpoint) : string :=
  endpointFlag I (manifestquery.Type_ e) +:+ "=dnssrv+_grpc._tcp." +:+
  manifestquery.ServiceName e +:+ "." +:+ manifestquery.Namespace e +:+
  ".svc.cluster.local".

(** Modelled from the spec: the discovery arguments of
    [manifestquery.BuildQuerier], in the order of the endpoints. *)
Definition endpointArgs (I : Imports) (endpoints : list manifestquery.Endpoint)
    : list string :=
  map (endpointArg I) endpoints.

(** *** The watch on services *)

Section Watch.

Variable F : Faults.

(** [manifests.DefaultStoreAPILabel] and [manifests.DefaultStoreAPIValue],
    constants of a package whose code is elsewhere. *)
Variable DefaultStoreAPILabel : string.
Variable DefaultStoreAPIValue : string.

(** [r.List] of the ThanosQuery resources, with [InNamespace]. *)
Definition ListThanosQueries (ns : string) (w : World)
    : World * (ApiError + list v1alpha1.ThanosQuery) :=
  answer F (ListCall "ThanosQuery" ns ∅)
         (inr (filter (fun query => v1alpha1.QueryNamespace query = ns)
                      (map snd (map_to_list (queries w))))) w.

(** [for _, query := range queriers.Items]: a request for every query
    whose selector matches the labels of the object. *)
Fixpoint rangeQueriers (labels : gmap string string)
    (items : list v1alpha1.ThanosQuery) : list (string * string) :=
  match items with
  | [] => []
  | query :: items =>
      if bool_decide (v1alpha1.StoreLabelSelector (v1alpha1.QuerySpec query)
                        ⊆ labels)
      then (v1alpha1.QueryNamespace query, v1alpha1.QueryName query)
           :: rangeQueriers labels items
      else rangeQueriers labels items
  end.

(** The map function of [enqueueForService]: the requests, as
    (namespace, name), that an event on [obj] enqueues.  A label that is
    absent reads as the empty string. *)
Definition enqueueForService (obj : Object) (w : World)
    : World * list (string * string) :=
  if negb (String.eqb (default "" (Labels obj !! DefaultStoreAPILabel))
                      DefaultStoreAPIValue)
  then (w, [])
  else
    match ListThanosQueries (Namespace obj) w with
    | (w, inl _) => (w, [])
    | (w, inr items) => (w, rangeQueriers (Labels obj) items)
    end.

End Watch.

End ThanosQueryReconciler.

(** ** The hash-ring synthesizer of package [receive] *)

Module synth.

Definition string_le (a b : string) : Prop := String.leb a b = true.

#[global] Instance string_le_dec : RelDecision string_le.
Proof. intros a b. unfold string_le. apply _. Defined.

Definition hashring_le (a b : receive.HashringConfig) : Prop :=
  string_le (receive.Hashring a) (receive.Hashring b).

#[global] Instance hashring_le_dec : RelDecision hashring_le.
Proof. intros a b. unfold hashring_le. apply _. Defined.

(** Modelled from the spec: [receive.IngesterNameFromParent], the derived
    name [<subject-name>-<shard-name>]. *)
Definition IngesterNameFromParent (parent name : string) : string :=
  parent +:+ "-" +:+ name.

(** Modelled from the spec: [receive.EmptyHashringConfig], the text of an
    empty routing table. *)
Definition EmptyHashringConfig : string := "[]".

(** Modelled from the spec: the filter on endpoint-slice addresses of
    [receive.BuildHashrings].  An address is kept when it is flagged
    ready and flagged serving and not flagged terminating. *)
Definition isReady (ep : discoveryv1.Endpoint) : bool :=
  let c := discoveryv1.Conditions ep in
  bool_decide (discoveryv1.Ready c = Some true) &&
  bool_decide (discoveryv1.Serving c = Some true) &&
  negb (bool_decide (discoveryv1.Terminating c = Some true)).

(** Modelled from the spec: the fully qualified address
    [<hostname>.<identity>.<namespace>.svc.cluster.local:19291] of
    [receive.BuildHashrings]. *)
Definition qualifiedAddress (identity ns hostname : string) : string :=
  hostname +:+ "." +:+ identity +:+ "." +:+ ns +:+
  ".svc.cluster.local:19291".

(** Modelled from the spec: the ready addresses of one endpoint of
    [receive.BuildHashrings]; an endpoint without a hostname has no such
    address. *)
Definition endpointAddresses (identity ns : string)
    (ep : discoveryv1.Endpoint) : list string :=
  if isReady ep then
    match discoveryv1.Hostname ep with
    | Some hostname => [qualifiedAddress identity ns hostname]
    | None => []
    end
  else [].

(** Modelled from the spec: the ready addresses of a shard in
    [receive.BuildHashrings], over all its endpoint slices. *)
Definition readyAddresses (identity ns : string)
    (slices : list discoveryv1.EndpointSlice) : list string :=
  flat_map (fun eps =>
              flat_map (endpointAddresses identity ns)
                       (discoveryv1.Endpoints eps))
           slices.

(** Modelled from the spec: the entry of one shard in
    [receive.BuildHashrings].  Ready addresses give a fresh entry with
    the sorted address list; a shard with none keeps the entry it has in
    the existing table, if any. *)
Definition hashringEntry (ns : string) (previous : receive.Hashrings)
    (identity : string) (meta : receive.HashringMeta)
    : option receive.HashringConfig :=
  match merge_sort string_le
          (readyAddresses identity ns
             (receive.AssociatedEndpointSlices meta)) with
  | [] =>
      List.find (fun e => String.eqb (receive.Hashring e)
                                     (receive.OriginalName meta))
                previous
  | addresses =>
      Some {| receive.Hashring := receive.OriginalName meta;
              receive.Tenants := receive.MetaTenants meta;
              receive.TenantMatcherType := receive.MetaTenantMatcherType meta;
              receive.Endpoints :=
                map (fun a => {| receive.Address := a; receive.AZ := "" |})
                    addresses |}
  end.

(** Modelled from the spec: the routing table of
    [receive.BuildHashrings], the entries of all shards sorted by shard
    name. *)
Definition hashringTable (ns : string) (previous : receive.Hashrings)
    (settings : gmap string receive.HashringMeta) : receive.Hashrings :=
  merge_sort hashring_le
    (omap (fun km => hashringEntry ns previous km.1 km.2)
          (map_to_list settings)).

(** Modelled from the spec: the config map of [receive.BuildHashrings],
    named after the subject, with the routing table under [key]. *)
Definition configMap (opts : manifests.Options) (key : string)
    (table : receive.Hashrings) : Object :=
  {| Kind := "ConfigMap"; Name := manifests.Name opts;
     Namespace := manifests.Namespace opts;
     Labels := manifests.Labels opts; OwnerReferences := [];
     UID := ""; Data := {[ key := table ]}; Manifest := "" |}.

(** Modelled from the spec: [receive.BuildHashrings], the hash-ring
    synthesizer.  It answers the config map named after the subject that
    holds the routing table; with an empty shard list the table is empty
    and the [ErrHashringsEmpty] sentinel comes with it. *)
Definition BuildHashrings (key : string) (preExistingState : Object)
    (opts : receive.HashringOptions) : option Object * option error :=
  if decide (receive.HashringSettings opts = ∅)
  then (Some (configMap (receive.Options opts) key []),
        Some ErrHashringsEmpty)
  else
    let previous := default [] (Data preExistingState !! key) in
    (Some (configMap (receive.Options opts) key
             (hashringTable (manifests.Namespace (receive.Options opts))
                previous (receive.HashringSettings opts))),
     None).

(** *** The text of the routing table *)

Definition newline : string := String (ascii_of_nat 10) EmptyString.
Definition quote : string := String (ascii_of_nat 34) EmptyString.

Definition quoted (s : string) : string := quote +:+ s +:+ quote.

Fixpoint indent (depth : nat) : string :=
  match depth with
  | O => ""
  | S depth => "    " +:+ indent depth
  end.

Fixpoint lines (sep : string) (items : list string) : string :=
  match items with
  | [] => ""
  | [item] => item
  | item :: items => item +:+ sep +:+ lines sep items
  end.

Definition block (open close : string) (depth : nat)
    (items : list string) : string :=
  match items with
  | [] => open +:+ close
  | _ =>
      open +:+ newline +:+
      lines ("," +:+ newline)
            (map (fun item => indent (S depth) +:+ item) items) +:+
      newline +:+ indent depth +:+ close
  end.

Definition field (name value : string) : string :=
  quoted name +:+ ": " +:+ value.

Definition marshalEndpoint (depth : nat) (e : receive.Endpoint) : string :=
  block "{" "}" depth
    [ field "address" (quoted (receive.Address e));
      field "az" (quoted (receive.AZ e)) ].

Definition marshalHashring (depth : nat) (h : receive.HashringConfig)
    : string :=
  block "{" "}" depth
    [ field "hashring" (quoted (receive.Hashring h));
      field "tenants"
        (block "[" "]" (S depth) (map quoted (receive.Tenants h)));
      field "tenant_matcher_type" (quoted (receive.TenantMatcherType h));
      field "endpoints"
        (block "[" "]" (S depth)
           (map (marshalEndpoint (S (S depth))) (receive.Endpoints h))) ].

(** Modelled from the spec: the serialization of the routing table by
    [receive.BuildHashrings], a JSON sequence of
    [{hashring, tenants, tenant_matcher_type, endpoints: [{address, az}]}]
    indented by four spaces; names and addresses are printed as they
    are, without escapes. *)
Definition marshalHashrings (table : receive.Hashrings) : string :=
  block "[" "]" 0 (map (marshalHashring 1) table).

End synth.

(** ** The ingestion tier: [thanosreceive_controller.go] *)

Module ThanosReceiveReconciler.
Section Reconciler.

Variable I : Imports.
Variable F : Faults.

Definition receiveFinalizer : string :=
  "monitoring.thanos.io/receive-finalizer".

(** The options of one hashring: the body of the loop of
    [buildHashrings].  [None] is a panic: [*hashring.Retention] on a nil
    pointer, or [resource.MustParse] on a size that does not parse. *)
Definition ingesterOptions (receiver : v1alpha1.ThanosReceive)
    (hashring : v1alpha1.IngestorHashringSpec)
    : option receive.IngesterOptions :=
  let spec := v1alpha1.Spec receiver in
  let baseLabels := v1alpha1.ReceiveLabels receiver in
  let baseSecret :=
    v1alpha1.ToSecretKeySelector (v1alpha1.DefaultObjectStorageConfig spec) in
  let objStoreSecret :=
    match v1alpha1.ObjectStorageConfig_ hashring with
    | Some c => v1alpha1.ToSecretKeySelector c
    | None => baseSecret
    end in
  let metaOpts :=
    ApplyDefaults I
      {| manifests.Name :=
           synth.IngesterNameFromParent (v1alpha1.ReceiveName receiver)
             (v1alpha1.Name hashring);
         manifests.Namespace := v1alpha1.ReceiveNamespace receiver;
         manifests.Replicas := v1alpha1.Replicas hashring;
         manifests.Labels :=
           MergeLabels I baseLabels (v1alpha1.Labels hashring);
         manifests.Image := v1alpha1.Image spec;
         manifests.LogLevel := v1alpha1.LogLevel spec;
         manifests.LogFormat := v1alpha1.LogFormat spec |} in
  retention ← v1alpha1.Retention hashring;
  storageSize ← ParseQuantity I (v1alpha1.StorageSize hashring);
  Some {| receive.IngesterMeta := metaOpts;
          receive.Retention := retention;
          receive.StorageSize := storageSize;
          receive.ObjStoreSecret := objStoreSecret;
          receive.ExternalLabels := v1alpha1.ExternalLabels hashring |}.

(** [buildHashrings]: the ingesters of all hashrings. *)
Definition buildHashrings (receiver : v1alpha1.ThanosReceive)
    : option (list Object) :=
  opts ← mapM (ingesterOptions receiver)
            (v1alpha1.Hashrings (v1alpha1.Spec receiver));
  Some (BuildIngesters I opts).

(** [for i, hashring := range receiver.Spec.Ingester.Hashrings] of
    [buildHashringConfig]: lists the endpoint slices of each hashring and
    fills [opts.HashringSettings]; the first listing that fails ends
    it. *)
Fixpoint rangeHashrings (receiver : v1alpha1.ThanosReceive)
    (totalHashrings : Z) (i : Z)
    (hashrings : list v1alpha1.IngestorHashringSpec)
    (settings : gmap string receive.HashringMeta) (w : World)
    : World * (error + gmap string receive.HashringMeta) :=
  match hashrings with
  | [] => (w, inr settings)
  | hashring :: hashrings =>
      let labelValue :=
        synth.IngesterNameFromParent (v1alpha1.ReceiveName receiver)
          (v1alpha1.Name hashring) in
      match ListEndpointSlices F (v1alpha1.ReceiveNamespace receiver)
              {[ discoveryv1.LabelServiceName := labelValue ]} w with
      | (w, inl err) =>
          (w, inl (Wrapf "failed to list endpoint slices for resource %s"
                         (Api err)))
      | (w, inr eps) =>
          rangeHashrings receiver totalHashrings (i + 1) hashrings
            (<[ labelValue :=
                  {| receive.DesiredReplicasReplicas :=
                       v1alpha1.Replicas hashring;
                     receive.OriginalName := v1alpha1.Name hashring;
                     receive.MetaTenants := v1alpha1.Tenants hashring;
                     receive.MetaTenantMatcherType :=
                       v1alpha1.TenantMatcherType hashring;
                     receive.AssociatedEndpointSlices := eps;
                     receive.Priority := totalHashrings - i |} ]> settings)
            w
      end
  end.

(** The zero [corev1.ConfigMap] the existing one is read into. *)
Definition zeroConfigMap : Object :=
  {| Kind := "ConfigMap"; Name := ""; Namespace := ""; Labels := ∅;
     OwnerReferences := []; UID := ""; Data := ∅; Manifest := "" |}.

(** [opts] of [buildHashringConfig], its [HashringSettings] filled. *)
Definition hashringOptions (receiver : v1alpha1.ThanosReceive)
    (settings : gmap string receive.HashringMeta)
    : receive.HashringOptions :=
  {| receive.Options :=
       {| manifests.Name := v1alpha1.ReceiveName receiver;
          manifests.Namespace := v1alpha1.ReceiveNamespace receiver;
          manifests.Replicas := 0;
          manifests.Labels := v1alpha1.ReceiveLabels receiver;
          manifests.Image := None; manifests.LogLevel := None;
          manifests.LogFormat := None |};
     receive.DesiredReplicationFactor :=
       v1alpha1.ReplicationFactor (v1alpha1.Spec receiver);
     receive.HashringSettings := settings |}.

(** [buildHashringConfig] from the declaration of [opts] on; [cm] is the
    existing config map, the zero one when the platform has none. *)
Definition buildHashringConfigFrom (receiver : v1alpha1.ThanosReceive)
    (cm : Object) (w : World) : World * (option Object * option error) :=
  let hashrings := v1alpha1.Hashrings (v1alpha1.Spec receiver) in
  let totalHashrings := Z.of_nat (length hashrings) in
  match rangeHashrings receiver totalHashrings 0 hashrings ∅ w with
  | (w, inl err) => (w, (None, Some err))
  | (w, inr settings) =>
      (withHashringsConfigured
         (insert (v1alpha1.ReceiveName receiver,
                  v1alpha1.ReceiveNamespace receiver) totalHashrings) w,
       synth.BuildHashrings (HashringConfigKey I) cm
         (hashringOptions receiver settings))
  end.

Definition buildHashringConfig (receiver : v1alpha1.ThanosReceive)
    (w : World) : World * (option Object * option error) :=
  match GetConfigMap F (v1alpha1.ReceiveNamespace receiver)
          (v1alpha1.ReceiveName receiver) w with
  | (w, inl err) =>
      if negb (IsNotFound (Api err))
      then (w, (None,
                Some (Wrapf "failed to get config map for resource %s"
                            (Api err))))
      else buildHashringConfigFrom receiver zeroConfigMap w
  | (w, inr cm) => buildHashringConfigFrom receiver cm w
  end.

(** The loop over [objs] and what follows it in [syncResources]. *)
Definition applyAll (receiver : v1alpha1.ThanosReceive)
    (objs : list Object) (w : World) : World * Outcome :=
  let (w, errCount) :=
    applyObjects I F ("ThanosReceive", v1alpha1.ReceiveName receiver)
      (v1alpha1.ReceiveNamespace receiver) objs 0 w in
  if 0 <? errCount
  then (withClientErrorsTotal (Z.add errCount) w,
        Returned (Some (Errorf "failed to create or update %d resources for the hashrings"
                               errCount)))
  else (w, Returned None).

(** [syncResources]; appending a nil [hashringConf] to [objs] makes the
    loop panic on it. *)
Definition syncResources (receiver : v1alpha1.ThanosReceive) (w : World)
    : World * Outcome :=
  match buildHashrings receiver with
  | None => (w, Panicked)
  | Some objs =>
      match buildHashringConfig receiver w with
      | (w, (hashringConf, Some err)) =>
          if negb (IsErrHashringsEmpty err)
          then (w, Returned
                     (Some (Wrapf "failed to build hashring configuration"
                                  err)))
          else match hashringConf with
               | Some cm => applyAll receiver (objs ++ [cm]) w
               | None => (w, Panicked)
               end
      | (w, (Some cm, None)) => applyAll receiver (objs ++ [cm]) w
      | (w, (None, None)) => (w, Panicked)
      end
  end.

Definition handleDeletionTimestamp (receiveHashring : v1alpha1.ThanosReceive)
    (w : World) : World * Outcome :=
  if bool_decide (receiveFinalizer ∈ v1alpha1.Finalizers receiveHashring)
  then
    (withEvents
       (fun es => es ++
          [ {| EventObject := v1alpha1.ReceiveName receiveHashring;
               EventType := "Warning"; Reason := "Deleting";
               Message :=
                 "Custom Resource " +:+
                 v1alpha1.ReceiveName receiveHashring +:+
                 " is being deleted from the namespace " +:+
                 v1alpha1.ReceiveNamespace receiveHashring |} ])
       (log (Info "performing Finalizer Operations for ThanosReceiveHashring before delete CR")
            w),
     Returned None)
  else (w, Returned None).

(** [GetDeletionTimestamp().IsZero()]: a nil pointer or the zero time. *)
Definition IsZero (t : option Z) : bool :=
  match t with
  | None => true
  | Some t => t =? 0
  end.

(** [req] is the namespaced name of the subject: (namespace, name). *)
Definition Reconcile (req : string * string) (w : World)
    : World * Outcome :=
  let w := withReconciliationsTotal (Z.add 1) w in
  match GetThanosReceive F req w with
  | (w, inl err) =>
      let w := withClientErrorsTotal (Z.add 1) w in
      if IsNotFound (Api err)
      then (log (Info "thanos receive resource not found. ignoring since object may be deleted") w,
            Returned None)
      else (withReconciliationsFailedTotal (Z.add 1)
              (log (Error "failed to get ThanosReceive") w),
            Returned (Some (Api err)))
  | (w, inr receiver) =>
      if negb (IsZero (v1alpha1.DeletionTimestamp receiver))
      then handleDeletionTimestamp receiver w
      else
        match syncResources receiver w with
        | (w, Returned (Some err)) =>
            (withReconciliationsFailedTotal (Z.add 1) w,
             Returned (Some err))
        | (w, out) => (w, out)
        end
  end.

End Reconciler.

(** *** The watch on endpoint slices *)

Section Watch.

Variable F : Faults.

(** [c.Get] of a service. *)
Definition GetService (ns name : string) (w : World)
    : World * (ApiError + Object) :=
  answer F (GetCall ("Service", ns, name))
         (lookupOr (objects w) ("Service", ns, name)) w.

(** The test [len(refs) != 1 || refs[0].Kind != kind] on the owner
    references of [obj], and [refs[0].Name] when it passes. *)
Definition soleOwner (kind : string) (obj : Object) : option string :=
  match OwnerReferences obj with
  | [ref] => if String.eqb (OwnerKind ref) kind
             then Some (OwnerName ref)
             else None
  | _ => None
  end.

(** The map function of [enqueueForEndpointSlice]; [watches] is the
    counter [endpointWatchesReconciliationsTotal]. *)
Definition enqueueForEndpointSlice (obj : Object) (watches : Z) (w : World)
    : World * Z * list (string * string) :=
  match soleOwner "Service" obj with
  | None => (w, watches, [])
  | Some service =>
      match GetService (Namespace obj) service w with
      | (w, inl _) => (w, watches, [])
      | (w, inr svc) =>
          match soleOwner "ThanosReceive" svc with
          | None => (w, watches, [])
          | Some owner => (w, watches + 1, [(Namespace obj, owner)])
          end
      end
  end.

End Watch.

End ThanosReceiveReconciler.

(** ** Sample inputs *)

Module Sample.

(** The strictness labels as the spec names them, and builders that put
    one object per option. *)
Definition baseImports : Imports :=
  {| IsNamespacedResource := fun _ => true;
     ApplyDefaults := fun opts => opts;
     MergeLabels := fun base extra => extra ∪ base;
     RegularLabel := "regular";
     StrictLabel := "strict";
     GroupStrictLabel := "group-strict";
     GroupLabel := "group";
     BuildQuerier := fun _ => [];
     HashringConfigKey := "hashrings.json";
     BuildIngesters := fun _ => [];
     ParseQuantity := fun s => Some s |}.

Definition object (kind : string) (opts : manifests.Options)
    (manifest : string) : Object :=
  {| Kind := kind; Name := manifests.Name opts;
     Namespace := manifests.Namespace opts;
     Labels := manifests.Labels opts; OwnerReferences := [];
     UID := ""; Data := ∅; Manifest := manifest |}.

Definition imports : Imports :=
  {| IsNamespacedResource := IsNamespacedResource baseImports;
     ApplyDefaults := ApplyDefaults baseImports;
     MergeLabels := MergeLabels baseImports;
     RegularLabel := RegularLabel baseImports;
     StrictLabel := StrictLabel baseImports;
     GroupStrictLabel := GroupStrictLabel baseImports;
     GroupLabel := GroupLabel baseImports;
     BuildQuerier := fun opts =>
       [ object "Deployment" (manifestquery.Options opts)
           (synth.lines " "
              (ThanosQueryReconciler.endpointArgs baseImports
                 (manifestquery.Endpoints opts))) ];
     HashringConfigKey := HashringConfigKey baseImports;
     BuildIngesters :=
       map (fun opts => object "StatefulSet" (receive.IngesterMeta opts) "");
     ParseQuantity := ParseQuantity baseImports |}.

Definition noFaults : Faults := fun _ => None.

(** The platform refuses to create or update the object named
    [test-resource-a]. *)
Definition refuseFirst : Faults := fun c =>
  match c with
  | CreateOrUpdateCall obj =>
      if String.eqb (Name obj) "test-resource-a"
      then Some (Unavailable "conflict")
      else None
  | _ => None
  end.

(** The platform refuses to read any config map. *)
Definition refuseConfigMapRead : Faults := fun c =>
  match c with
  | GetCall ("ConfigMap", _, _) => Some (Unavailable "timeout")
  | _ => None
  end.

(** The platform refuses every listing. *)
Definition refuseLists : Faults := fun c =>
  match c with
  | ListCall _ _ _ => Some (Unavailable "timeout")
  | _ => None
  end.

Definition world (qs : list v1alpha1.ThanosQuery)
    (rs : list v1alpha1.ThanosReceive) (svcs : list corev1.Service)
    (slices : list discoveryv1.EndpointSlice) (objs : list Object)
    : World :=
  {| queries :=
       list_to_map
         (map (fun q => ((v1alpha1.QueryNamespace q, v1alpha1.QueryName q), q))
              qs);
     receives :=
       list_to_map
         (map (fun r => ((v1alpha1.ReceiveNamespace r,
                          v1alpha1.ReceiveName r), r)) rs);
     services := svcs; endpointSlices := slices;
     objects := list_to_map (map (fun o => (keyOf o, o)) objs);
     events := []; logs := []; reconciliationsTotal := 0;
     reconciliationsFailedTotal := 0; clientErrorsTotal := 0;
     hashringsConfigured := ∅; calls := [] |}.

(** *** The query tier *)

Definition query (deleted : option Z) : v1alpha1.ThanosQuery :=
  {| v1alpha1.QueryName := "test-resource";
     v1alpha1.QueryNamespace := "ns";
     v1alpha1.QueryLabels := ∅;
     v1alpha1.QueryDeletionTimestamp := deleted;
     v1alpha1.QuerySpec :=
       {| v1alpha1.QueryImage := None; v1alpha1.QueryLogLevel := None;
          v1alpha1.QueryLogFormat := None; v1alpha1.QueryReplicas := 3;
          v1alpha1.QuerierReplicaLabels := ["replica"];
          v1alpha1.StoreLabelSelector := {[ "store-api" := "true" ]} |} |}.

Definition service (name : string) (labels : gmap string string)
    (ports : list corev1.ServicePort) : corev1.Service :=
  {| corev1.Name := name; corev1.Namespace := "ns";
     corev1.Labels := <[ "store-api" := "true" ]> labels;
     corev1.Ports := ports |}.

Definition grpc : corev1.ServicePort :=
  {| corev1.PortName := "grpc"; corev1.Port := 10901 |}.

Definition http : corev1.ServicePort :=
  {| corev1.PortName := "http"; corev1.Port := 10902 |}.

(** The service of the spec: [my-store] in [ns], labelled [strict=true],
    with a [grpc] port 10901. *)
Definition myStore : corev1.Service :=
  service "my-store" {[ "strict" := "true" ]} [http; grpc].

(** *** The ingestion tier: the subject and the endpoint slice of the
    controller's test *)

Definition hashring (name : string) : v1alpha1.IngestorHashringSpec :=
  {| v1alpha1.Name := name; v1alpha1.Labels := ∅;
     v1alpha1.ExternalLabels := ∅; v1alpha1.Replicas := 3;
     v1alpha1.Retention := Some "2h"; v1alpha1.StorageSize := "100Mi";
     v1alpha1.Tenants := ["test-tenant"];
     v1alpha1.TenantMatcherType := "exact";
     v1alpha1.ObjectStorageConfig_ := None |}.

Definition receiver (deleted : option Z) (finalizers : list string)
    (hashrings : list v1alpha1.IngestorHashringSpec)
    : v1alpha1.ThanosReceive :=
  {| v1alpha1.ReceiveName := "test-resource";
     v1alpha1.ReceiveNamespace := "treceive";
     v1alpha1.ReceiveLabels := ∅;
     v1alpha1.DeletionTimestamp := deleted;
     v1alpha1.Finalizers := finalizers;
     v1alpha1.Spec :=
       {| v1alpha1.Image := None; v1alpha1.LogLevel := None;
          v1alpha1.LogFormat := None; v1alpha1.ReplicationFactor := 3;
          v1alpha1.DefaultObjectStorageConfig :=
            {| v1alpha1.SecretName := "test-secret";
               v1alpha1.Key := "test-key" |};
          v1alpha1.Hashrings := hashrings |} |}.

Definition testReceive : v1alpha1.ThanosReceive :=
  receiver None [] [hashring "test-hashring"].

Definition readyEndpoint (address hostname : string)
    : discoveryv1.Endpoint :=
  {| discoveryv1.Addresses := [address];
     discoveryv1.Hostname := Some hostname;
     discoveryv1.Conditions :=
       {| discoveryv1.Ready := Some true;
          discoveryv1.Serving := Some true;
          discoveryv1.Terminating := Some false |} |}.

Definition epSliceRelevant : discoveryv1.EndpointSlice :=
  {| discoveryv1.Name := "test-ep-slice-2";
     discoveryv1.Namespace := "treceive";
     discoveryv1.Labels :=
       {[ discoveryv1.LabelServiceName := "test-resource-test-hashring" ]};
     discoveryv1.Endpoints :=
       [ readyEndpoint "8.8.8.8" "some-hostname";
         readyEndpoint "1.1.1.1" "some-hostname-b";
         readyEndpoint "2.2.2.2" "some-hostname-c" ] |}.

Definition address (hostname : string) : receive.Endpoint :=
  {| receive.Address :=
       hostname +:+
       ".test-resource-test-hashring.treceive.svc.cluster.local:19291";
     receive.AZ := "" |}.

(** An existing config map whose table has one entry for
    [test-hashring]. *)
Definition previousConfigMap : Object :=
  synth.configMap
    {| manifests.Name := "test-resource"; manifests.Namespace := "treceive";
       manifests.Replicas := 0; manifests.Labels := ∅;
       manifests.Image := None; manifests.LogLevel := None;
       manifests.LogFormat := None |}
    "hashrings.json"
    [ {| receive.Hashring := "test-hashring";
         receive.Tenants := ["test-tenant"];
         receive.TenantMatcherType := "exact";
         receive.Endpoints := [address "gone-hostname"] |} ].

End Sample.

(** ** The vocabulary of the statements *)

(** The endpoint the loop leaves at the index of [svc]. *)
Definition endpointOf (I : Imports) (svc : corev1.Service) : manifestquery.Endpoint :=
  {| manifestquery.ServiceName := corev1.Name svc;
     manifestquery.Namespace := corev1.Namespace svc;
     manifestquery.Type_ := ThanosQueryReconciler.endpointTypeOf I svc;
     manifestquery.Port := 0 |}.

Section ApplyVocabulary.

Variable I : Imports.
Variable F : Faults.
Variable owner : string * string.
Variable ns : string.

(** The object as the loop hands it to [CreateOrUpdate]. *)
Definition prepared (obj : Object) : Object :=
  if IsNamespacedResource I obj
  then withControllerReference owner.1 owner.2 (SetNamespace ns obj)
  else obj.

(** The platform refuses [obj]: its owner reference, or its creation or
    update. *)
Definition refused (obj : Object) : Prop :=
  (IsNamespacedResource I obj = true /\
   is_Some (F (SetControllerReferenceCall (SetNamespace ns obj)))) \/
  is_Some (F (CreateOrUpdateCall (prepared obj))).

#[global] Instance refused_dec obj : Decision (refused obj).
Proof. unfold refused. apply _. Defined.

(** Among the calls [cs] there is the attempt on [obj]: the owner
    reference that failed, or the call of [CreateOrUpdate]. *)
Definition attempted (cs : list CallRecord) (obj : Object) : Prop :=
  (IsNamespacedResource I obj = true /\
   exists e, {| call := SetControllerReferenceCall (SetNamespace ns obj);
                failure := Some e |} ∈ cs) \/
  (exists r, {| call := CreateOrUpdateCall (prepared obj);
                failure := r |} ∈ cs).

(** The number of calls in [cs] that failed. *)
Definition failures (cs : list CallRecord) : nat :=
  length (filter (fun r => is_Some (failure r)) cs).

(** A best-effort application of [objs] between the worlds [before] and
    [after] that reports [reported]: every object is attempted, every
    refusal is a failed call and is counted in the report, and there is
    a report if and only if some object was refused. *)
Definition bestEffort (objs : list Object) (before after : World)
    (reported : option error) : Prop :=
  exists new,
    calls after = calls before ++ new /\
    (forall obj, obj ∈ objs -> attempted new obj) /\
    failures new = length (filter refused objs) /\
    (is_Some reported <-> exists obj, obj ∈ objs /\ refused obj) /\
    (forall e, reported = Some e ->
       exists msg, e = Errorf msg (Z.of_nat (failures new))).

End ApplyVocabulary.

(** What a pass leaves alone when it only applies objects: everything but
    [objects], [logs] and [calls]. *)
Definition outsideApply (w : World) :=
  (queries w, receives w, services w, endpointSlices w, events w,
   reconciliationsTotal w, reconciliationsFailedTotal w, clientErrorsTotal w,
   hashringsConfigured w).

(** A call that only reads the cluster. *)
Definition isRead (r : CallRecord) : Prop :=
  match call r with
  | GetCall _ | ListCall _ _ _ => True
  | _ => False
  end.

(** The world after the further calls [new], and nothing else. *)
Definition after (new : list CallRecord) : World -> World :=
  withCalls (fun cs => cs ++ new).

(** A pass between [w] and [w'] has no side effect: the objects of the
    cluster, the recorded events and the metrics are what they were. *)
Definition sideEffectFree (w w' : World) : Prop :=
  objects w' = objects w /\ events w' = events w /\
  reconciliationsTotal w' = reconciliationsTotal w /\
  reconciliationsFailedTotal w' = reconciliationsFailedTotal w /\
  clientErrorsTotal w' = clientErrorsTotal w /\
  hashringsConfigured w' = hashringsConfigured w.

(** What [buildHashringConfig] does to the world: it reads the cluster,
    and it may set the gauge. *)
Definition readsOnly (receiver : v1alpha1.ThanosReceive) (w w' : World)
    : Prop :=
  exists new,
    Forall isRead new /\
    (w' = after new w \/
     w' = withHashringsConfigured
            (insert (v1alpha1.ReceiveName receiver,
                     v1alpha1.ReceiveNamespace receiver)
                    (Z.of_nat (length (v1alpha1.Hashrings
                                         (v1alpha1.Spec receiver)))))
            (after new w)).

(** The text of the routing table an object holds under [key]. *)
Definition tableText (key : string) (obj : Object) : option string :=
  synth.marshalHashrings <$> (Data obj !! key).


Section SynthesizerVocabulary.

Variable I : Imports.
Variable F : Faults.
Variable receiver : v1alpha1.ThanosReceive.
Variable w : World.

(** The identity of the shard [hashring]: the name of its service. *)
Definition shardIdentity (hashring : v1alpha1.IngestorHashringSpec)
    : string :=
  synth.IngesterNameFromParent (v1alpha1.ReceiveName receiver)
    (v1alpha1.Name hashring).

(** The endpoint slices of the cluster that belong to the shard. *)
Definition shardSlices (hashring : v1alpha1.IngestorHashringSpec)
    : list discoveryv1.EndpointSlice :=
  filter (fun eps =>
            discoveryv1.Namespace eps = v1alpha1.ReceiveNamespace receiver /\
            {[ discoveryv1.LabelServiceName := shardIdentity hashring ]}
              ⊆ discoveryv1.Labels eps)
         (endpointSlices w).

(** The addresses the shard yields at reconcile time. *)
Definition shardAddresses (hashring : v1alpha1.IngestorHashringSpec)
    : list string :=
  synth.readyAddresses (shardIdentity hashring)
    (v1alpha1.ReceiveNamespace receiver) (shardSlices hashring).

(** The pass can read the existing config map: the platform has it or
    says it has none. *)
Definition readSucceeds : Prop :=
  F (GetCall ("ConfigMap", v1alpha1.ReceiveNamespace receiver,
              v1alpha1.ReceiveName receiver)) = None \/
  F (GetCall ("ConfigMap", v1alpha1.ReceiveNamespace receiver,
              v1alpha1.ReceiveName receiver)) = Some NotFound.

(** The pass can list the endpoint slices of every shard. *)
Definition listsSucceed : Prop :=
  forall hashring,
    hashring ∈ v1alpha1.Hashrings (v1alpha1.Spec receiver) ->
    F (ListCall "EndpointSlice" (v1alpha1.ReceiveNamespace receiver)
         {[ discoveryv1.LabelServiceName := shardIdentity hashring ]}) = None.

(** The routing table of the existing config map, empty when there is
    none. *)
Definition previousTable : receive.Hashrings :=
  match (GetConfigMap F (v1alpha1.ReceiveNamespace receiver)
           (v1alpha1.ReceiveName receiver) w).2 with
  | inr cm => default [] (Data cm !! HashringConfigKey I)
  | inl _ => []
  end.

(** The entry the existing table has for the shard: the first of that
    name. *)
Definition previousEntry (hashring : v1alpha1.IngestorHashringSpec)
    : option receive.HashringConfig :=
  List.find (fun e => String.eqb (receive.Hashring e) (v1alpha1.Name hashring))
            previousTable.

(** The entry of a declared shard: fresh when the shard has ready
    addresses, the previous one otherwise. *)
Definition entryOf (h : v1alpha1.IngestorHashringSpec)
    : option receive.HashringConfig :=
  match merge_sort synth.string_le (shardAddresses h) with
  | [] => previousEntry h
  | addresses =>
      Some {| receive.Hashring := v1alpha1.Name h;
              receive.Tenants := v1alpha1.Tenants h;
              receive.TenantMatcherType := v1alpha1.TenantMatcherType h;
              receive.Endpoints :=
                map (fun a => {| receive.Address := a; receive.AZ := "" |})
                    addresses |}
  end.

(** The routing table [buildHashringConfig] answers. *)
Definition newTable : option receive.Hashrings :=
  cm ← (ThanosReceiveReconciler.buildHashringConfig I F receiver w).2.1;
  Data cm !! HashringConfigKey I.

(** What the loop of [buildHashringConfig] leaves in
    [opts.HashringSettings] when every listing succeeds. *)
Fixpoint settingsFrom (totalHashrings i : Z)
    (hashrings : list v1alpha1.IngestorHashringSpec)
    (settings : gmap string receive.HashringMeta)
    : gmap string receive.HashringMeta :=
  match hashrings with
  | [] => settings
  | hashring :: hashrings =>
      settingsFrom totalHashrings (i + 1) hashrings
        (<[ shardIdentity hashring :=
              {| receive.DesiredReplicasReplicas := v1alpha1.Replicas hashring;
                 receive.OriginalName := v1alpha1.Name hashring;
                 receive.MetaTenants := v1alpha1.Tenants hashring;
                 receive.MetaTenantMatcherType :=
                   v1alpha1.TenantMatcherType hashring;
                 receive.AssociatedEndpointSlices := shardSlices hashring;
                 receive.Priority := totalHashrings - i |} ]> settings)
  end.

End SynthesizerVocabulary.

(** ** The vocabulary of the further properties *)

(** The objects handed to [CreateOrUpdate] among the calls [cs], in the
    order of the calls. *)
Definition applied (cs : list CallRecord) : list Object :=
  omap (fun r => match call r with
                 | CreateOrUpdateCall obj => Some obj
                 | _ => None
                 end) cs.

(** The platform refuses the owner reference of [obj]. *)
Definition ownerRefused (I : Imports) (F : Faults) (ns : string)
    (obj : Object) : Prop :=
  IsNamespacedResource I obj = true /\
  is_Some (F (SetControllerReferenceCall (SetNamespace ns obj))).

#[global] Instance ownerRefused_dec I F ns obj :
  Decision (ownerRefused I F ns obj).
Proof. unfold ownerRefused. apply _. Defined.

(** Every ThanosQuery of the cluster is stored under its namespace and
    name. *)
Definition wellKeyed (w : World) : Prop :=
  forall key query, queries w !! key = Some query ->
    key = (v1alpha1.QueryNamespace query, v1alpha1.QueryName query).

(** The record of the listing of the endpoint slices of a shard. *)
Definition listingOf (F : Faults) (receiver : v1alpha1.ThanosReceive)
    (h : v1alpha1.IngestorHashringSpec) : CallRecord :=
  {| call := ListCall "EndpointSlice" (v1alpha1.ReceiveNamespace receiver)
               {[ discoveryv1.LabelServiceName := shardIdentity receiver h ]};
     failure := F (ListCall "EndpointSlice"
                     (v1alpha1.ReceiveNamespace receiver)
                     {[ discoveryv1.LabelServiceName :=
                          shardIdentity receiver h ]}) |}.

(** ** Further sample inputs *)

Module Fixture.

Definition options (name : string) : manifests.Options :=
  {| manifests.Name := name; manifests.Namespace := "treceive";
     manifests.Replicas := 3; manifests.Labels := ∅;
     manifests.Image := None; manifests.LogLevel := None;
     manifests.LogFormat := None |}.

(** The stateful set and the service of the shard [test-hashring], as
    desired objects. *)
Definition ingester : Object :=
  Sample.object "StatefulSet" (options "test-resource-test-hashring") "".

Definition ingesterService : Object :=
  Sample.object "Service" (options "test-resource-test-hashring") "".

(** An endpoint slice of that service, as the watch sees it. *)
Definition slice : Object :=
  {| Kind := "EndpointSlice"; Name := "test-ep-slice-2";
     Namespace := "treceive";
     Labels :=
       {[ discoveryv1.LabelServiceName := "test-resource-test-hashring" ]};
     OwnerReferences :=
       [ {| OwnerKind := "Service";
            OwnerName := "test-resource-test-hashring";
            Controller := true |} ];
     UID := ""; Data := ∅; Manifest := "" |}.

(** The service [my-store], as the watch sees it. *)
Definition storeService : Object :=
  {| Kind := "Service"; Name := corev1.Name Sample.myStore;
     Namespace := corev1.Namespace Sample.myStore;
     Labels := corev1.Labels Sample.myStore;
     OwnerReferences := []; UID := ""; Data := ∅; Manifest := "" |}.

(** The platform refuses the read of any subject. *)
Definition refuseSubjectRead : Faults := fun c =>
  match c with
  | GetCall ("ThanosReceive", _, _) => Some (Unavailable "timeout")
  | GetCall ("ThanosQuery", _, _) => Some (Unavailable "timeout")
  | _ => None
  end.

(** The platform refuses the listing of the endpoint slices of the
    service [name]. *)
Definition refuseShard (name : string) : Faults := fun c =>
  match c with
  | ListCall _ _ selector =>
      if bool_decide (selector !! discoveryv1.LabelServiceName = Some name)
      then Some (Unavailable "timeout")
      else None
  | _ => None
  end.

(** A shard that declares no retention. *)
Definition unbounded : v1alpha1.IngestorHashringSpec :=
  {| v1alpha1.Name := "unbounded"; v1alpha1.Labels := ∅;
     v1alpha1.ExternalLabels := ∅; v1alpha1.Replicas := 3;
     v1alpha1.Retention := None; v1alpha1.StorageSize := "100Mi";
     v1alpha1.Tenants := []; v1alpha1.TenantMatcherType := "exact";
     v1alpha1.ObjectStorageConfig_ := None |}.

(** A second declaration of the shard [a], with five replicas. *)
Definition again : v1alpha1.IngestorHashringSpec :=
  {| v1alpha1.Name := "a"; v1alpha1.Labels := ∅;
     v1alpha1.ExternalLabels := ∅; v1alpha1.Replicas := 5;
     v1alpha1.Retention := Some "2h"; v1alpha1.StorageSize := "100Mi";
     v1alpha1.Tenants := ["other-tenant"];
     v1alpha1.TenantMatcherType := "exact";
     v1alpha1.ObjectStorageConfig_ := None |}.

End Fixture.

(** * Properties *)

(** ** The endpoint observer of the query tier *)

Section Observer.

Variable I : Imports.

Lemma insert_rangePorts ports i x endpoints :
  <[ i := x ]> (ThanosQueryReconciler.rangePorts ports i endpoints) =
  <[ i := x ]> endpoints.
Proof.
  induction ports as [|port ports IH]; simpl; [done|].
  destruct (String.eqb _ _); [|done].
  clear IH. revert i.
  induction endpoints as [|e endpoints IHe]; intros [|i]; simpl; try done.
  f_equal. apply IHe.
Qed.

Lemma rangeItems_app items :
  forall done_ : list manifestquery.Endpoint,
    ThanosQueryReconciler.rangeItems I items (length done_)
      (done_ ++ replicate (length items) ThanosQueryReconciler.zeroEndpoint) =
    done_ ++ map (endpointOf I) items.
Proof.
  induction items as [|svc items IH]; intros done_; simpl; [done|].
  rewrite insert_rangePorts.
  rewrite insert_app_r_alt by lia.
  rewrite Nat.sub_diag. simpl.
  specialize (IH (done_ ++ [endpointOf I svc])).
  rewrite length_app in IH. simpl in IH.
  rewrite Nat.add_1_r in IH. rewrite <- !app_assoc in IH. simpl in IH.
  exact IH.
Qed.

Lemma getStoreAPIServiceEndpoints_map F query w :
  (ThanosQueryReconciler.getStoreAPIServiceEndpoints I F query w).2 =
  match (ListServices F (v1alpha1.QueryNamespace query)
           (v1alpha1.StoreLabelSelector (v1alpha1.QuerySpec query)) w).2 with
  | inl _ => []
  | inr items => map (endpointOf I) items
  end.
Proof.
  unfold ThanosQueryReconciler.getStoreAPIServiceEndpoints.
  destruct (ListServices _ _ _ _) as [w' [err|items]]; simpl; [done|].
  destruct items as [|svc items]; [done|].
  change (length (svc :: items) =? 0)%nat with false. cbv iota.
  simpl fst; simpl snd.
  exact (rangeItems_app (svc :: items) []).
Qed.

End Observer.

(** The observer discards the port it has just read: every endpoint it
    returns has port 0, whatever the ports of the service. *)
Lemma getStoreAPIServiceEndpoints_Port_zero I F query w :
  Forall (fun e => manifestquery.Port e = 0)
    (ThanosQueryReconciler.getStoreAPIServiceEndpoints I F query w).2.
Proof.
  rewrite getStoreAPIServiceEndpoints_map.
  destruct (ListServices _ _ _ _).2 as [err|items]; [constructor|].
  induction items; simpl; constructor; auto.
Qed.

(** C5, at a failing input.  The query tier observes [my-store], whose
    port named [grpc] is 10901, and [no-grpc], which has no such port.
    Both services are in the returned sequence, and both with port 0: the
    port read from [my-store] is not on the returned endpoint. *)
Theorem C5_grpc_port_lost :
  (ThanosQueryReconciler.getStoreAPIServiceEndpoints Sample.imports
     Sample.noFaults (Sample.query None)
     (Sample.world [] [] [Sample.myStore; Sample.service "no-grpc" ∅ [Sample.http]]
        [] [])).2 =
  [ {| manifestquery.ServiceName := "my-store";
       manifestquery.Namespace := "ns";
       manifestquery.Type_ := "strict";
       manifestquery.Port := 0 |};
    {| manifestquery.ServiceName := "no-grpc";
       manifestquery.Namespace := "ns";
       manifestquery.Type_ := "regular";
       manifestquery.Port := 0 |} ].
Proof. vm_compute. reflexivity. Qed.

(** C6.  The strictness class of an observed service follows the presence
    of the labels in the order strict, group-strict, group, and is regular
    when it has none of them.  A service with the strict label is
    classified strict whatever its other labels, and the argument it
    contributes is the [--endpoint-strict] one; there is one argument per
    observed service. *)
Theorem C6_strictness_precedence I F query w items i svc :
  (ListServices F (v1alpha1.QueryNamespace query)
     (v1alpha1.StoreLabelSelector (v1alpha1.QuerySpec query)) w).2 = inr items ->
  items !! i = Some svc ->
  let endpoints :=
    (ThanosQueryReconciler.getStoreAPIServiceEndpoints I F query w).2 in
  let has := HasLabel (corev1.Labels svc) in
  exists e,
    endpoints !! i = Some e /\
    manifestquery.ServiceName e = corev1.Name svc /\
    manifestquery.Namespace e = corev1.Namespace svc /\
    (has (StrictLabel I) = true ->
       manifestquery.Type_ e = StrictLabel I /\
       ThanosQueryReconciler.endpointArgs I endpoints !! i =
         Some ("--endpoint-strict=dnssrv+_grpc._tcp." +:+ corev1.Name svc +:+
               "." +:+ corev1.Namespace svc +:+ ".svc.cluster.local")) /\
    (has (StrictLabel I) = false -> has (GroupStrictLabel I) = true ->
       manifestquery.Type_ e = GroupStrictLabel I) /\
    (has (StrictLabel I) = false -> has (GroupStrictLabel I) = false ->
     has (GroupLabel I) = true ->
       manifestquery.Type_ e = GroupLabel I) /\
    (has (StrictLabel I) = false -> has (GroupStrictLabel I) = false ->
     has (GroupLabel I) = false ->
       manifestquery.Type_ e = RegularLabel I) /\
    length (ThanosQueryReconciler.endpointArgs I endpoints) = length items.
Proof.
  intros Hlist Hsvc endpoints has. subst endpoints.
  rewrite getStoreAPIServiceEndpoints_map, Hlist.
  exists (endpointOf I svc).
  assert (Hi : map (endpointOf I) items !! i = Some (endpointOf I svc)).
  { change (map (endpointOf I) items) with (endpointOf I <$> items).
    by rewrite list_lookup_fmap, Hsvc. }
  split; [exact Hi|]. split; [done|]. split; [done|].
  unfold ThanosQueryReconciler.endpointArgs.
  simpl. unfold ThanosQueryReconciler.endpointTypeOf. fold has.
  split; [|split; [|split; [|split]]].
  - intros Hs. rewrite Hs. split; [done|].
    change (map ?f ?l) with (f <$> l). rewrite list_lookup_fmap.
    change (endpointOf I <$> items) with (map (endpointOf I) items).
    rewrite Hi. simpl.
    unfold ThanosQueryReconciler.endpointArg, ThanosQueryReconciler.endpointFlag.
    simpl. unfold ThanosQueryReconciler.endpointTypeOf. fold has. rewrite Hs.
    by rewrite String.eqb_refl.
  - by intros -> ->.
  - by intros -> -> ->.
  - by intros -> -> ->.
  - by rewrite !length_map.
Qed.

(** The service of the spec, and a second one that carries the strict, the
    group-strict and the group label at once. *)
Lemma C6_strictness_precedence_witness :
  let allLabels :=
    Sample.service "all-labels"
      {[ "strict" := "true"; "group-strict" := "true"; "group" := "true" ]}
      [Sample.grpc] in
  let w := Sample.world [] [] [Sample.myStore; allLabels] [] [] in
  let endpoints :=
    (ThanosQueryReconciler.getStoreAPIServiceEndpoints Sample.imports
       Sample.noFaults (Sample.query None) w).2 in
  ThanosQueryReconciler.endpointArgs Sample.imports endpoints !! 0%nat =
    Some "--endpoint-strict=dnssrv+_grpc._tcp.my-store.ns.svc.cluster.local" /\
  ThanosQueryReconciler.endpointArgs Sample.imports endpoints !! 1%nat =
    Some "--endpoint-strict=dnssrv+_grpc._tcp.all-labels.ns.svc.cluster.local" /\
  length (ThanosQueryReconciler.endpointArgs Sample.imports endpoints) = 2%nat.
Proof.
  intros allLabels w endpoints.
  destruct (C6_strictness_precedence Sample.imports Sample.noFaults
              (Sample.query None) w [Sample.myStore; allLabels] 0
              Sample.myStore)
    as (e0 & _ & _ & _ & Hstrict0 & _ & _ & _ & Hlen);
    [reflexivity|reflexivity|].
  destruct (C6_strictness_precedence Sample.imports Sample.noFaults
              (Sample.query None) w [Sample.myStore; allLabels] 1 allLabels)
    as (e1 & _ & _ & _ & Hstrict1 & _); [reflexivity|reflexivity|].
  split; [apply Hstrict0; reflexivity|].
  split; [apply Hstrict1; reflexivity|].
  exact Hlen.
Defined.

Lemma wrap32_range z : - 2 ^ 31 <= wrap32 z < 2 ^ 31.
Proof. unfold wrap32. pose proof (Z.mod_pos_bound (z + 2 ^ 31) (2 ^ 32)). lia. Qed.

Lemma wrap32_small z : - 2 ^ 31 <= z < 2 ^ 31 -> wrap32 z = z.
Proof. intros Hz. unfold wrap32. rewrite Z.mod_small; lia. Qed.

Lemma wrap32_add_l a b : wrap32 (wrap32 a + b) = wrap32 (a + b).
Proof.
  unfold wrap32.
  replace ((a + 2 ^ 31) mod 2 ^ 32 - 2 ^ 31 + b + 2 ^ 31)
    with ((a + 2 ^ 31) mod 2 ^ 32 + b) by lia.
  rewrite Zplus_mod_idemp_l. do 2 f_equal. lia.
Qed.

Section ApplyLoop.

Variable I : Imports.
Variable F : Faults.
Variable owner : string * string.
Variable ns : string.

Lemma failures_app cs1 cs2 :
  failures (cs1 ++ cs2) = (failures cs1 + failures cs2)%nat.
Proof. unfold failures. by rewrite filter_app, length_app. Qed.

Lemma createOrUpdateObject_calls obj errCount w :
  let r := createOrUpdateObject F obj errCount w in
  calls r.1 =
    calls w ++ [ {| call := CreateOrUpdateCall obj;
                    failure := F (CreateOrUpdateCall obj) |} ] /\
  r.2 = match F (CreateOrUpdateCall obj) with
        | Some _ => wrap32 (errCount + 1)
        | None => errCount
        end.
Proof.
  unfold createOrUpdateObject, CreateOrUpdate.
  destruct (F (CreateOrUpdateCall obj)) as [e|]; simpl; [done|].
  destruct (objects w !! keyOf obj) as [existing|]; simpl; [|done].
  destruct (decide _); simpl; done.
Qed.

(** One turn of the loop: the calls it adds, and the count it leaves. *)
Lemma applyObject_turn obj errCount w :
  let r := applyObject I F owner ns obj errCount w in
  exists new,
    calls r.1 = calls w ++ new /\
    attempted I owner ns new obj /\
    (refused I F owner ns obj -> failures new = 1%nat /\ r.2 = wrap32 (errCount + 1)) /\
    (~ refused I F owner ns obj -> failures new = 0%nat /\ r.2 = errCount).
Proof.
  unfold applyObject, refused, attempted, prepared.
  destruct (IsNamespacedResource I obj) eqn:Hns.
  - destruct (F (SetControllerReferenceCall (SetNamespace ns obj)))
      as [e|] eqn:Hown.
    + eexists. split; [reflexivity|]. split.
      { left. split; [done|]. exists e. apply list_elem_of_here. }
      split; [done|]. intros Hn. exfalso. apply Hn. left. eauto.
    + destruct (createOrUpdateObject_calls
                  (withControllerReference owner.1 owner.2 (SetNamespace ns obj))
                  errCount
                  (record (SetControllerReferenceCall (SetNamespace ns obj)) None w))
        as [Hc He].
      eexists. split.
      { rewrite Hc. simpl. rewrite <- app_assoc. reflexivity. }
      split.
      { right. eexists. apply list_elem_of_further, list_elem_of_here. }
      rewrite He. unfold failures.
      destruct (F (CreateOrUpdateCall _)) as [e|] eqn:Hcu.
      * split; [done|]. intros Hn. exfalso. apply Hn. right. eauto.
      * split; [|done].
        intros [[_ [? ?]]|[? ?]]; congruence.
  - destruct (createOrUpdateObject_calls obj errCount w) as [Hc He].
    eexists. split; [exact Hc|]. split.
    { right. eexists. apply list_elem_of_here. }
    rewrite He. unfold failures.
    destruct (F (CreateOrUpdateCall obj)) as [e|] eqn:Hcu.
    + split; [done|]. intros Hn. exfalso. apply Hn. right. eauto.
    + split; [|done]. intros [[? _]|[? ?]]; congruence.
Qed.

(** The whole loop: one attempt per object, and the count of the
    refusals, as an [int32]. *)
Lemma applyObjects_loop objs : forall errCount w,
  - 2 ^ 31 <= errCount < 2 ^ 31 ->
  let r := applyObjects I F owner ns objs errCount w in
  exists new,
    calls r.1 = calls w ++ new /\
    (forall obj, obj ∈ objs -> attempted I owner ns new obj) /\
    failures new = length (filter (refused I F owner ns) objs) /\
    r.2 = wrap32 (errCount + Z.of_nat (failures new)).
Proof.
  induction objs as [|obj objs IH]; intros errCount w Hrange; simpl.
  - exists []. rewrite app_nil_r. split; [done|]. split; [set_solver|].
    split; [done|]. simpl. rewrite Z.add_0_r. by rewrite wrap32_small.
  - destruct (applyObject_turn obj errCount w) as (new1 & Hc1 & Hat & Hyes & Hno).
    destruct (applyObject I F owner ns obj errCount w) as [w1 errCount1].
    simpl in *.
    assert (Hrange1 : - 2 ^ 31 <= errCount1 < 2 ^ 31).
    { destruct (decide (refused I F owner ns obj)) as [Hr|Hr].
      - destruct (Hyes Hr) as [_ ->]. apply wrap32_range.
      - destruct (Hno Hr) as [_ ->]. done. }
    destruct (IH errCount1 w1 Hrange1) as (new2 & Hc2 & Hat2 & Hf2 & He2).
    exists (new1 ++ new2). split.
    { rewrite Hc2, Hc1. by rewrite app_assoc. }
    split.
    { intros o Ho. apply elem_of_cons in Ho as [->|Ho].
      - destruct Hat as [[? [e He]]|[r Hr]]; [left|right].
        + split; [done|]. exists e. apply elem_of_app. by left.
        + exists r. apply elem_of_app. by left.
      - destruct (Hat2 o Ho) as [[? [e He]]|[r Hr]]; [left|right].
        + split; [done|]. exists e. apply elem_of_app. by right.
        + exists r. apply elem_of_app. by right. }
    rewrite failures_app, filter_cons.
    destruct (decide (refused I F owner ns obj)) as [Hr|Hr].
    + destruct (Hyes Hr) as [-> ->]. simpl. split; [by rewrite Hf2|].
      rewrite He2, wrap32_add_l. f_equal. lia.
    + destruct (Hno Hr) as [-> ->]. simpl. split; [done|]. done.
Qed.

End ApplyLoop.

Section BestEffort.

Variable I : Imports.
Variable F : Faults.
Variable owner : string * string.
Variable ns : string.

Lemma filter_length_le {A} (P : A -> Prop) `{forall x, Decision (P x)}
    (l : list A) : (length (filter P l) <= length l)%nat.
Proof.
  induction l as [|x l IH]; simpl; [done|].
  rewrite filter_cons. destruct (decide (P x)); simpl; lia.
Qed.

Lemma filter_length_pos {A} (P : A -> Prop) `{forall x, Decision (P x)}
    (l : list A) :
  (0 < length (filter P l))%nat <-> exists x, x ∈ l /\ P x.
Proof.
  split.
  - destruct (filter P l) as [|x l'] eqn:Hf; simpl; [lia|]. intros _.
    assert (Hx : x ∈ filter P l) by (rewrite Hf; apply list_elem_of_here).
    apply list_elem_of_filter in Hx as [? ?]. eauto.
  - intros (x & Hx & HP).
    assert (Hin : x ∈ filter P l) by (apply list_elem_of_filter; auto).
    destruct (filter P l); [by apply elem_of_nil in Hin|simpl; lia].
Qed.

(** The loop followed by the test [errCount > 0] is a best-effort
    application, as long as the objects are fewer than [2^31]. *)
Lemma applyObjects_bestEffort objs w msg :
  Z.of_nat (length objs) < 2 ^ 31 ->
  let r := applyObjects I F owner ns objs 0 w in
  let reported := if 0 <? r.2 then Some (Errorf msg r.2) else None in
  bestEffort I F owner ns objs w r.1 reported /\
  r.2 = Z.of_nat (length (filter (refused I F owner ns) objs)).
Proof.
  intros Hlen r reported.
  destruct (applyObjects_loop I F owner ns objs 0 w ltac:(lia))
    as (new & Hc & Hat & Hf & He).
  fold r in Hc, He.
  pose proof (filter_length_le (refused I F owner ns) objs) as Hle.
  assert (Hr2 : r.2 = Z.of_nat (failures new)).
  { rewrite He. simpl. rewrite wrap32_small; [done|]. rewrite Hf. lia. }
  split; [|by rewrite Hr2, Hf].
  exists new. split; [done|]. split; [done|]. split; [done|].
  subst reported. rewrite Hr2. split.
  - rewrite <- filter_length_pos, <- Hf.
    destruct (0 <? Z.of_nat (failures new)) eqn:Hpos.
    + apply Z.ltb_lt in Hpos. split; [lia|eauto].
    + apply Z.ltb_ge in Hpos. split; [by intros [? ?]|lia].
  - intros e. destruct (0 <? _); [|done]. intros [= <-]. eauto.
Qed.

End BestEffort.


Lemma after_after new1 new2 w :
  after new2 (after new1 w) = after (new1 ++ new2) w.
Proof. unfold after, withCalls. simpl. by rewrite app_assoc. Qed.

Lemma after_nil w : after [] w = w.
Proof. destruct w. unfold after, withCalls. simpl. by rewrite app_nil_r. Qed.

Lemma answer_after {A} F c (found : ApiError + A) w :
  (answer F c found w).1 =
  after [ {| call := c;
             failure := match (answer F c found w).2 with
                        | inl e => Some e
                        | inr _ => None
                        end |} ] w.
Proof. reflexivity. Qed.

Section Frames.

Variable I : Imports.
Variable F : Faults.

Lemma createOrUpdateObject_outside obj errCount w :
  outsideApply (createOrUpdateObject F obj errCount w).1 = outsideApply w.
Proof.
  unfold createOrUpdateObject, CreateOrUpdate.
  destruct (F _); [done|]. simpl.
  destruct (objects w !! keyOf obj); [|done].
  by destruct (decide _).
Qed.

Lemma applyObjects_outside owner ns objs : forall errCount w,
  outsideApply (applyObjects I F owner ns objs errCount w).1 = outsideApply w.
Proof.
  induction objs as [|obj objs IH]; intros errCount w; simpl; [done|].
  destruct (applyObject I F owner ns obj errCount w) as [w1 errCount1] eqn:Hone.
  rewrite IH. replace w1 with (applyObject I F owner ns obj errCount w).1
    by (by rewrite Hone).
  unfold applyObject. destruct (IsNamespacedResource I obj).
  - destruct (F _); [done|]. by rewrite createOrUpdateObject_outside.
  - apply createOrUpdateObject_outside.
Qed.

Lemma answer_read {A} c (found : ApiError + A) w :
  (match c with GetCall _ | ListCall _ _ _ => True | _ => False end) ->
  exists rec, (answer F c found w).1 = after [rec] w /\ isRead rec.
Proof. intros Hc. eexists. split; [apply answer_after|exact Hc]. Qed.

(** The loop of [buildHashringConfig] only lists. *)
Lemma rangeHashrings_after receiver total hashrings : forall i settings w,
  exists new,
    (ThanosReceiveReconciler.rangeHashrings F receiver total i hashrings
       settings w).1 = after new w /\
    Forall isRead new.
Proof.
  induction hashrings as [|h hashrings IH]; intros i settings w;
    cbn [ThanosReceiveReconciler.rangeHashrings].
  - exists []. by rewrite after_nil.
  - unfold ListEndpointSlices.
    match goal with
    | |- context [answer F ?c ?found w] =>
        destruct (answer_read c found w Logic.I) as (rec & Hw1 & Hrec);
        destruct (answer F c found w) as [w1 res]
    end.
    simpl in Hw1. subst w1.
    destruct res as [err|eps].
    + exists [rec]. split; [done|]. by constructor.
    + destruct (IH (i + 1) (<[ synth.IngesterNameFromParent
                                 (v1alpha1.ReceiveName receiver)
                                 (v1alpha1.Name h) :=
            {| receive.DesiredReplicasReplicas := v1alpha1.Replicas h;
               receive.OriginalName := v1alpha1.Name h;
               receive.MetaTenants := v1alpha1.Tenants h;
               receive.MetaTenantMatcherType := v1alpha1.TenantMatcherType h;
               receive.AssociatedEndpointSlices := eps;
               receive.Priority := total - i |} ]> settings) (after [rec] w))
        as (new & Hnew & Hread).
      exists (rec :: new). split.
      { rewrite Hnew. apply after_after. }
      by constructor.
Qed.

Lemma buildHashringConfigFrom_readsOnly receiver cm rec w :
  isRead rec ->
  readsOnly receiver w
    (ThanosReceiveReconciler.buildHashringConfigFrom I F receiver cm
       (after [rec] w)).1.
Proof.
  intros Hrec. unfold ThanosReceiveReconciler.buildHashringConfigFrom.
  destruct (rangeHashrings_after receiver
              (Z.of_nat (length (v1alpha1.Hashrings (v1alpha1.Spec receiver))))
              (v1alpha1.Hashrings (v1alpha1.Spec receiver)) 0 ∅ (after [rec] w))
    as (new & Hnew & Hread).
  destruct (ThanosReceiveReconciler.rangeHashrings _ _ _ _ _ _ _)
    as [w0 [err|settings]]; simpl in *; subst w0;
    exists (rec :: new); (split; [by constructor|]);
    rewrite after_after; simpl; auto.
Qed.

Lemma buildHashringConfig_readsOnly receiver w :
  readsOnly receiver w
    (ThanosReceiveReconciler.buildHashringConfig I F receiver w).1.
Proof.
  unfold ThanosReceiveReconciler.buildHashringConfig, GetConfigMap.
  match goal with
  | |- context [answer F ?c ?found w] =>
      destruct (answer_read c found w Logic.I) as (rec & Hw1 & Hrec);
      destruct (answer F c found w) as [w1 got]
  end.
  simpl in Hw1. subst w1.
  destruct got as [err|cm].
  - destruct (negb (IsNotFound (Api err))).
    + exists [rec]. split; [by constructor|]. by left.
    + by apply buildHashringConfigFrom_readsOnly.
  - by apply buildHashringConfigFrom_readsOnly.
Qed.

End Frames.
Lemma syncResources_query_bestEffort I F query w :
  let built := ThanosQueryReconciler.buildQuerier I F query w in
  let r := ThanosQueryReconciler.syncResources I F query w in
  Z.of_nat (length built.2) < 2 ^ 31 ->
  bestEffort I F ("ThanosQuery", v1alpha1.QueryName query)
    (v1alpha1.QueryNamespace query) built.2 built.1 r.1 r.2.
Proof.
  intros built r Hlen. subst r. unfold ThanosQueryReconciler.syncResources.
  fold built. destruct built as [w1 objs]. simpl in Hlen.
  destruct (applyObjects_bestEffort I F ("ThanosQuery", v1alpha1.QueryName query)
              (v1alpha1.QueryNamespace query) objs w1
              "failed to create or update %d resources for the querier" Hlen)
    as [Hbe _].
  destruct (applyObjects _ _ _ _ _ _ _) as [w2 errCount]. simpl in *.
  by destruct (0 <? errCount).
Qed.

Lemma applyAll_bestEffort I F receiver objs w :
  let r := ThanosReceiveReconciler.applyAll I F receiver objs w in
  Z.of_nat (length objs) < 2 ^ 31 ->
  exists reported,
    r.2 = Returned reported /\
    bestEffort I F ("ThanosReceive", v1alpha1.ReceiveName receiver)
      (v1alpha1.ReceiveNamespace receiver) objs w r.1 reported /\
    clientErrorsTotal r.1 =
      clientErrorsTotal w +
      Z.of_nat (length (filter (refused I F
                                  ("ThanosReceive", v1alpha1.ReceiveName receiver)
                                  (v1alpha1.ReceiveNamespace receiver)) objs)) /\
    objects r.1 =
      objects (applyObjects I F ("ThanosReceive", v1alpha1.ReceiveName receiver)
                 (v1alpha1.ReceiveNamespace receiver) objs 0 w).1.
Proof.
  intros r Hlen. subst r. unfold ThanosReceiveReconciler.applyAll.
  destruct (applyObjects_bestEffort I F
              ("ThanosReceive", v1alpha1.ReceiveName receiver)
              (v1alpha1.ReceiveNamespace receiver) objs w
              "failed to create or update %d resources for the hashrings" Hlen)
    as [Hbe Hcount].
  assert (Hkeep : clientErrorsTotal
            (applyObjects I F ("ThanosReceive", v1alpha1.ReceiveName receiver)
               (v1alpha1.ReceiveNamespace receiver) objs 0 w).1 =
          clientErrorsTotal w).
  { pose proof (applyObjects_outside I F
                  ("ThanosReceive", v1alpha1.ReceiveName receiver)
                  (v1alpha1.ReceiveNamespace receiver) objs 0 w) as Hout.
    unfold outsideApply in Hout. congruence. }
  destruct (applyObjects _ _ _ _ _ _ _) as [w2 errCount]. simpl in *.
  destruct (0 <? errCount) eqn:Hpos; eexists; (split; [reflexivity|]); simpl.
  - split; [exact Hbe|]. split; [|done]. rewrite Hkeep, Hcount. lia.
  - split; [exact Hbe|]. split; [|done]. apply Z.ltb_ge in Hpos.
    rewrite Hkeep. lia.
Qed.

Lemma syncResources_receive_bestEffort I F receiver w objs cm :
  ThanosReceiveReconciler.buildHashrings I receiver = Some objs ->
  let built := ThanosReceiveReconciler.buildHashringConfig I F receiver w in
  built.2.1 = Some cm ->
  (forall e, built.2.2 = Some e -> IsErrHashringsEmpty e = true) ->
  Z.of_nat (length (objs ++ [cm])) < 2 ^ 31 ->
  let r := ThanosReceiveReconciler.syncResources I F receiver w in
  r = ThanosReceiveReconciler.applyAll I F receiver (objs ++ [cm]) built.1 /\
  exists reported,
    r.2 = Returned reported /\
    bestEffort I F ("ThanosReceive", v1alpha1.ReceiveName receiver)
      (v1alpha1.ReceiveNamespace receiver) (objs ++ [cm]) built.1 r.1 reported /\
    clientErrorsTotal r.1 =
      clientErrorsTotal built.1 +
      Z.of_nat (length (filter (refused I F
                                  ("ThanosReceive", v1alpha1.ReceiveName receiver)
                                  (v1alpha1.ReceiveNamespace receiver))
                               (objs ++ [cm]))).
Proof.
  intros Hobjs built Hcm Herr Hlen r.
  assert (Hr : r = ThanosReceiveReconciler.applyAll I F receiver (objs ++ [cm])
                     built.1).
  { subst r. unfold ThanosReceiveReconciler.syncResources. rewrite Hobjs.
    fold built. destruct built as [w1 [conf [err|]]]; simpl in *; subst conf.
    - by rewrite (Herr err eq_refl).
    - done. }
  split; [exact Hr|]. rewrite Hr.
  destruct (applyAll_bestEffort I F receiver (objs ++ [cm]) built.1 Hlen)
    as (reported & Hout & Hbe & Hcount & _).
  eauto.
Qed.

(** C7.  Both tiers apply their objects best-effort: whatever the platform
    refuses, every object of the set is attempted, every refusal is a
    failed call that is counted, and the pass reports an error, which
    carries that count, if and only if some object was refused; the
    ingestion tier adds the count to its counter of client errors.  (The
    count is an [int32]; the sets are smaller than [2^31].) *)
Theorem C7_best_effort_apply I F :
  (forall query w,
     let built := ThanosQueryReconciler.buildQuerier I F query w in
     let r := ThanosQueryReconciler.syncResources I F query w in
     Z.of_nat (length built.2) < 2 ^ 31 ->
     bestEffort I F ("ThanosQuery", v1alpha1.QueryName query)
       (v1alpha1.QueryNamespace query) built.2 built.1 r.1 r.2) /\
  (forall receiver w objs cm,
     ThanosReceiveReconciler.buildHashrings I receiver = Some objs ->
     let built := ThanosReceiveReconciler.buildHashringConfig I F receiver w in
     built.2.1 = Some cm ->
     (forall e, built.2.2 = Some e -> IsErrHashringsEmpty e = true) ->
     Z.of_nat (length (objs ++ [cm])) < 2 ^ 31 ->
     let r := ThanosReceiveReconciler.syncResources I F receiver w in
     exists reported,
       r.2 = Returned reported /\
       bestEffort I F ("ThanosReceive", v1alpha1.ReceiveName receiver)
         (v1alpha1.ReceiveNamespace receiver) (objs ++ [cm]) built.1 r.1
         reported /\
       clientErrorsTotal r.1 =
         clientErrorsTotal built.1 +
         Z.of_nat
           (length (filter (refused I F
                              ("ThanosReceive", v1alpha1.ReceiveName receiver)
                              (v1alpha1.ReceiveNamespace receiver))
                           (objs ++ [cm])))).
Proof.
  split.
  - intros query w. apply syncResources_query_bestEffort.
  - intros receiver w objs cm Hobjs built Hcm Herr Hlen r.
    destruct (syncResources_receive_bestEffort I F receiver w objs cm
                Hobjs Hcm Herr Hlen) as (_ & reported & Hout & Hbe & Hcount).
    eauto.
Qed.

(** Two shards, and a platform that refuses the ingester of the first:
    the pass reports the failure, and the ingester of the second shard and
    the config map are attempted all the same. *)
Lemma C7_best_effort_apply_witness :
  let receiver :=
    Sample.receiver None [] [Sample.hashring "a"; Sample.hashring "b"] in
  let w := Sample.world [] [receiver] [] [] [] in
  let r := ThanosReceiveReconciler.syncResources Sample.imports
             Sample.refuseFirst receiver w in
  let q := ThanosQueryReconciler.syncResources Sample.imports
             Sample.noFaults (Sample.query None)
             (Sample.world [Sample.query None] [] [Sample.myStore] [] []) in
  (exists reported, r.2 = Returned reported /\ is_Some reported) /\
  is_Some (objects r.1 !! ("StatefulSet", "treceive", "test-resource-b")) /\
  is_Some (objects r.1 !! ("ConfigMap", "treceive", "test-resource")) /\
  q.2 = None.
Proof.
  intros receiver w r q.
  destruct (C7_best_effort_apply Sample.imports Sample.refuseFirst)
    as [_ Hreceive].
  destruct (C7_best_effort_apply Sample.imports Sample.noFaults)
    as [Hquery _].
  split; [|split; [|split]].
  - destruct (Hreceive receiver w
                [ Sample.object "StatefulSet"
                    {| manifests.Name := "test-resource-a";
                       manifests.Namespace := "treceive";
                       manifests.Replicas := 3; manifests.Labels := ∅;
                       manifests.Image := None; manifests.LogLevel := None;
                       manifests.LogFormat := None |} "";
                  Sample.object "StatefulSet"
                    {| manifests.Name := "test-resource-b";
                       manifests.Namespace := "treceive";
                       manifests.Replicas := 3; manifests.Labels := ∅;
                       manifests.Image := None; manifests.LogLevel := None;
                       manifests.LogFormat := None |} "" ]
                (synth.configMap
                   {| manifests.Name := "test-resource";
                      manifests.Namespace := "treceive";
                      manifests.Replicas := 0; manifests.Labels := ∅;
                      manifests.Image := None; manifests.LogLevel := None;
                      manifests.LogFormat := None |} "hashrings.json" []))
      as (reported & Hout & (new & _ & _ & _ & Hiff & _) & _).
    + reflexivity.
    + reflexivity.
    + intros e He. vm_compute in He. discriminate.
    + reflexivity.
    + exists reported. split; [exact Hout|]. apply Hiff.
      eexists. split; [apply list_elem_of_here|].
      right. vm_compute. eauto.
  - vm_compute. eauto.
  - vm_compute. eauto.
  - specialize (Hquery (Sample.query None)
                  (Sample.world [Sample.query None] [] [Sample.myStore] [] [])).
    destruct Hquery as (new & _ & _ & _ & Hiff & _).
    + reflexivity.
    + fold q in Hiff. destruct (q.2) as [e|] eqn:He; [|done].
      destruct Hiff as [Hsome _]. destruct Hsome as (obj & Hobj & Href); [eauto|].
      exfalso. destruct Href as [[_ [? Hx]]|[? Hx]]; discriminate Hx.
Defined.

(** ** The reconcile passes *)

Lemma after_fields new w :
  objects (after new w) = objects w /\ events (after new w) = events w /\
  logs (after new w) = logs w /\
  outsideApply (after new w) = outsideApply w /\
  calls (after new w) = calls w ++ new.
Proof. done. Qed.

(** C8, as amended.  When the subject of a reconcile key does not exist,
    the pass returns success; it creates, updates and deletes no object,
    records no event, counts no failed reconcile and makes no call but the
    read of the subject.  The query tier has no other effect; the ingestion
    tier counts the pass in its total of reconciliations. *)
Theorem C8_not_found_subject I F req w :
  ((GetThanosQuery F req w).2 = inl NotFound ->
   let r := ThanosQueryReconciler.Reconcile I F req w in
   r.2 = Returned None /\ sideEffectFree w r.1 /\
   calls r.1 = calls w ++ [ {| call := GetCall ("ThanosQuery", req.1, req.2);
                               failure := Some NotFound |} ]) /\
  ((GetThanosReceive F req w).2 = inl NotFound ->
   let r := ThanosReceiveReconciler.Reconcile I F req w in
   r.2 = Returned None /\
   objects r.1 = objects w /\ events r.1 = events w /\
   reconciliationsFailedTotal r.1 = reconciliationsFailedTotal w /\
   hashringsConfigured r.1 = hashringsConfigured w /\
   reconciliationsTotal r.1 = reconciliationsTotal w + 1 /\
   calls r.1 = calls w ++ [ {| call := GetCall ("ThanosReceive", req.1, req.2);
                               failure := Some NotFound |} ]).
Proof.
  split.
  - unfold ThanosQueryReconciler.Reconcile, GetThanosQuery.
    intros Hget.
    pose proof (answer_after F (GetCall ("ThanosQuery", req.1, req.2))
                  (lookupOr (queries w) req) w) as Hw.
    destruct (answer _ _ _ _) as [w1 got]. simpl in Hget, Hw. subst got w1.
    simpl. unfold sideEffectFree. simpl. done.
  - unfold ThanosReceiveReconciler.Reconcile, GetThanosReceive.
    intros Hget.
    change ((GetThanosReceive F req (withReconciliationsTotal (Z.add 1) w)).2 =
            inl NotFound) in Hget. unfold GetThanosReceive in Hget.
    pose proof (answer_after F (GetCall ("ThanosReceive", req.1, req.2))
                  (lookupOr (receives (withReconciliationsTotal (Z.add 1) w)) req)
                  (withReconciliationsTotal (Z.add 1) w)) as Hw.
    destruct (answer _ _ _ _) as [w1 got]. simpl in Hget, Hw. subst got w1.
    simpl. repeat split; lia.
Qed.

(** A key without subject, on either tier. *)
Lemma C8_not_found_subject_witness :
  let w := Sample.world [] [] [] [] [] in
  let req := ("treceive", "test-resource") in
  (ThanosQueryReconciler.Reconcile Sample.imports Sample.noFaults req w).2 =
    Returned None /\
  reconciliationsTotal
    (ThanosReceiveReconciler.Reconcile Sample.imports Sample.noFaults req w).1 =
    1.
Proof.
  intros w req.
  destruct (C8_not_found_subject Sample.imports Sample.noFaults req w)
    as [Hq Hr].
  split.
  - apply Hq. reflexivity.
  - destruct Hr as (_ & _ & _ & _ & _ & Htotal & _); [reflexivity|].
    exact Htotal.
Defined.

(** C8, as stated, fails on the ingestion tier: the pass on a key without
    subject returns success, yet it is not free of side effects, for it
    has moved the counter of reconciliations. *)
Lemma C8_counterexample :
  let w := Sample.world [] [] [] [] [] in
  let req := ("treceive", "test-resource") in
  let r := ThanosReceiveReconciler.Reconcile Sample.imports Sample.noFaults
             req w in
  receives w !! req = None /\
  r.2 = Returned None /\
  ~ sideEffectFree w r.1 /\
  reconciliationsTotal w = 0 /\ reconciliationsTotal r.1 = 1.
Proof.
  intros w req r. split; [reflexivity|]. split; [reflexivity|].
  split; [|split; reflexivity].
  intros (_ & _ & Htotal & _). vm_compute in Htotal. discriminate.
Qed.

(** C9, as amended.  On the ingestion tier, when the subject is present
    and its deletion timestamp is set, the pass returns success after the
    read of the subject and makes no other call: it builds nothing, applies
    nothing and cleans nothing up.  When the subject carries the finalizer
    it records the deletion notice, and no event otherwise. *)
Theorem C9_deleting_subject I F req w receiver :
  (GetThanosReceive F req w).2 = inr receiver ->
  ThanosReceiveReconciler.IsZero (v1alpha1.DeletionTimestamp receiver) = false ->
  let r := ThanosReceiveReconciler.Reconcile I F req w in
  r.2 = Returned None /\
  calls r.1 = calls w ++ [ {| call := GetCall ("ThanosReceive", req.1, req.2);
                              failure := None |} ] /\
  objects r.1 = objects w /\
  events r.1 =
    events w ++
    (if bool_decide (ThanosReceiveReconciler.receiveFinalizer ∈
                       v1alpha1.Finalizers receiver)
     then [ {| EventObject := v1alpha1.ReceiveName receiver;
               EventType := "Warning"; Reason := "Deleting";
               Message := "Custom Resource " +:+ v1alpha1.ReceiveName receiver +:+
                          " is being deleted from the namespace " +:+
                          v1alpha1.ReceiveNamespace receiver |} ]
     else []) /\
  reconciliationsFailedTotal r.1 = reconciliationsFailedTotal w /\
  clientErrorsTotal r.1 = clientErrorsTotal w /\
  hashringsConfigured r.1 = hashringsConfigured w.
Proof.
  intros Hget Hdel.
  change ((GetThanosReceive F req (withReconciliationsTotal (Z.add 1) w)).2 =
          inr receiver) in Hget.
  unfold ThanosReceiveReconciler.Reconcile, GetThanosReceive in *.
  pose proof (answer_after F (GetCall ("ThanosReceive", req.1, req.2))
                (lookupOr (receives (withReconciliationsTotal (Z.add 1) w)) req)
                (withReconciliationsTotal (Z.add 1) w)) as Hw.
  destruct (answer _ _ _ _) as [w1 got]. simpl in Hget, Hw. subst got w1.
  cbv zeta. rewrite Hdel. simpl negb. cbv iota.
  unfold ThanosReceiveReconciler.handleDeletionTimestamp.
  destruct (bool_decide _); simpl; rewrite ?app_nil_r; by repeat split.
Qed.

(** A subject that is being deleted and carries the finalizer. *)
Lemma C9_deleting_subject_witness :
  let receiver :=
    Sample.receiver (Some 1) [ThanosReceiveReconciler.receiveFinalizer]
      [Sample.hashring "test-hashring"] in
  let w := Sample.world [] [receiver] [] [Sample.epSliceRelevant] [] in
  let r := ThanosReceiveReconciler.Reconcile Sample.imports Sample.noFaults
             ("treceive", "test-resource") w in
  r.2 = Returned None /\ objects r.1 = ∅ /\ length (events r.1) = 1%nat.
Proof.
  intros receiver w r.
  destruct (C9_deleting_subject Sample.imports Sample.noFaults
              ("treceive", "test-resource") w receiver)
    as (Hout & _ & Hobjs & Hev & _); [reflexivity|reflexivity|].
  split; [exact Hout|]. split; [exact Hobjs|].
  fold r in Hev. rewrite Hev. reflexivity.
Defined.

(** C9, as stated, fails on the query tier: a query subject that is
    present with its deletion timestamp set is reconciled like any other;
    the pass builds the querier and creates it, and records no notice. *)
Lemma C9_counterexample :
  let query := Sample.query (Some 1) in
  let w := Sample.world [query] [] [] [] [] in
  let req := ("ns", "test-resource") in
  let r := ThanosQueryReconciler.Reconcile Sample.imports Sample.noFaults
             req w in
  queries w !! req = Some query /\
  v1alpha1.QueryDeletionTimestamp query = Some 1 /\
  r.2 = Returned None /\
  objects w !! ("Deployment", "ns", "test-resource") = None /\
  is_Some (objects r.1 !! ("Deployment", "ns", "test-resource")) /\
  events r.1 = [] /\
  existsb (fun c => match call c with
                    | CreateOrUpdateCall _ => true
                    | _ => false
                    end) (calls r.1) = true.
Proof.
  intros query w req r.
  repeat split; try (vm_compute; reflexivity).
  vm_compute. eauto.
Qed.

(** ** Failure of the hashring configuration *)

Lemma syncResources_build_failure I F receiver w objs err :
  ThanosReceiveReconciler.buildHashrings I receiver = Some objs ->
  (ThanosReceiveReconciler.buildHashringConfig I F receiver w).2.2 = Some err ->
  IsErrHashringsEmpty err = false ->
  let r := ThanosReceiveReconciler.syncResources I F receiver w in
  r.2 = Returned (Some (Wrapf "failed to build hashring configuration" err)) /\
  readsOnly receiver w r.1.
Proof.
  intros Hobjs Herr Hsentinel.
  unfold ThanosReceiveReconciler.syncResources. rewrite Hobjs.
  pose proof (buildHashringConfig_readsOnly I F receiver w) as Hreads.
  destruct (ThanosReceiveReconciler.buildHashringConfig I F receiver w)
    as [w1 [conf oerr]].
  simpl in Herr, Hreads. subst oerr. rewrite Hsentinel.
  by destruct conf.
Qed.

Lemma readsOnly_fields receiver w w' :
  readsOnly receiver w w' ->
  objects w' = objects w /\ events w' = events w /\
  reconciliationsFailedTotal w' = reconciliationsFailedTotal w /\
  exists new, calls w' = calls w ++ new /\ Forall isRead new.
Proof. intros (new & Hread & [-> | ->]); cbn; eauto 10. Qed.

(** C10.  When [buildHashringConfig] fails with an error that is not the
    [ErrHashringsEmpty] sentinel, [syncResources] returns that error,
    wrapped; the objects of the cluster are what they were, the ingesters
    built before included, and the pass has made no call but reads. *)
Theorem C10_build_failure_applies_nothing I F receiver w objs err :
  ThanosReceiveReconciler.buildHashrings I receiver = Some objs ->
  (ThanosReceiveReconciler.buildHashringConfig I F receiver w).2.2 = Some err ->
  IsErrHashringsEmpty err = false ->
  let r := ThanosReceiveReconciler.syncResources I F receiver w in
  r.2 = Returned (Some (Wrapf "failed to build hashring configuration" err)) /\
  objects r.1 = objects w /\
  events r.1 = events w /\
  exists new, calls r.1 = calls w ++ new /\ Forall isRead new.
Proof.
  intros Hobjs Herr Hsentinel r.
  destruct (syncResources_build_failure I F receiver w objs err
              Hobjs Herr Hsentinel) as [Hout Hreads].
  apply readsOnly_fields in Hreads as (Hobjects & Hevents & _ & Hcalls).
  by repeat split.
Qed.

(** The pass as a whole then returns that error and counts a failed
    reconcile. *)
Lemma Reconcile_build_failure I F req w receiver objs err :
  (GetThanosReceive F req w).2 = inr receiver ->
  ThanosReceiveReconciler.IsZero (v1alpha1.DeletionTimestamp receiver) = true ->
  ThanosReceiveReconciler.buildHashrings I receiver = Some objs ->
  (ThanosReceiveReconciler.buildHashringConfig I F receiver
     (GetThanosReceive F req (withReconciliationsTotal (Z.add 1) w)).1).2.2 =
    Some err ->
  IsErrHashringsEmpty err = false ->
  let r := ThanosReceiveReconciler.Reconcile I F req w in
  r.2 = Returned (Some (Wrapf "failed to build hashring configuration" err)) /\
  objects r.1 = objects w /\
  reconciliationsFailedTotal r.1 = reconciliationsFailedTotal w + 1.
Proof.
  intros Hget Hzero Hobjs Herr Hsentinel.
  pose proof (syncResources_build_failure I F receiver _ objs err
                Hobjs Herr Hsentinel) as [Hout Hreads].
  apply readsOnly_fields in Hreads as (Hobjects & _ & Hfailed & _).
  unfold ThanosReceiveReconciler.Reconcile.
  change ((GetThanosReceive F req (withReconciliationsTotal (Z.add 1) w)).2 =
          inr receiver) in Hget.
  pose proof (answer_after F (GetCall ("ThanosReceive", req.1, req.2))
                (lookupOr (receives (withReconciliationsTotal (Z.add 1) w)) req)
                (withReconciliationsTotal (Z.add 1) w)) as Hw1.
  fold (GetThanosReceive F req (withReconciliationsTotal (Z.add 1) w)) in Hw1.
  destruct (GetThanosReceive F req (withReconciliationsTotal (Z.add 1) w))
    as [w1 got]. simpl in Hget, Hout, Hobjects, Hfailed, Hw1. subst got.
  rewrite Hzero. simpl negb. cbv iota.
  destruct (ThanosReceiveReconciler.syncResources I F receiver w1)
    as [w2 out]. simpl in Hout, Hobjects, Hfailed. subst out. simpl.
  split; [done|]. rewrite Hobjects, Hfailed, Hw1. simpl. split; [done|lia].
Qed.

(** The platform refuses the read of the existing config map. *)
Lemma C10_build_failure_applies_nothing_witness :
  let F := Sample.refuseConfigMapRead in
  let w := Sample.world [] [Sample.testReceive] [] [Sample.epSliceRelevant] [] in
  let r := ThanosReceiveReconciler.syncResources Sample.imports F
             Sample.testReceive w in
  r.2 = Returned
          (Some (Wrapf "failed to build hashring configuration"
                   (Wrapf "failed to get config map for resource %s"
                      (Api (Unavailable "timeout"))))) /\
  objects r.1 = ∅.
Proof.
  intros F w r.
  destruct (C10_build_failure_applies_nothing Sample.imports F
              Sample.testReceive w
              [Sample.object "StatefulSet"
                 {| manifests.Name := "test-resource-test-hashring";
                    manifests.Namespace := "treceive";
                    manifests.Replicas := 3; manifests.Labels := ∅;
                    manifests.Image := None; manifests.LogLevel := None;
                    manifests.LogFormat := None |} ""]
              (Wrapf "failed to get config map for resource %s"
                 (Api (Unavailable "timeout"))))
    as (Hout & Hobjs & _); [reflexivity|reflexivity|reflexivity|].
  split; [exact Hout|exact Hobjs].
Defined.

(** The same when the platform refuses the listing of the endpoint slices
    of a shard. *)
Example syncResources_list_failure :
  let F := Sample.refuseLists in
  let w := Sample.world [] [Sample.testReceive] [] [Sample.epSliceRelevant] [] in
  let r := ThanosReceiveReconciler.syncResources Sample.imports F
             Sample.testReceive w in
  r.2 = Returned
          (Some (Wrapf "failed to build hashring configuration"
                   (Wrapf "failed to list endpoint slices for resource %s"
                      (Api (Unavailable "timeout"))))) /\
  objects r.1 = ∅.
Proof. split; reflexivity. Qed.

(** ** Publication of the routing table *)

Section Published.

Variable I : Imports.
Variable F : Faults.
Variable owner : string * string.
Variable ns : string.

Lemma applyObjects_app objs1 objs2 : forall errCount w,
  applyObjects I F owner ns (objs1 ++ objs2) errCount w =
  applyObjects I F owner ns objs2
    (applyObjects I F owner ns objs1 errCount w).2
    (applyObjects I F owner ns objs1 errCount w).1.
Proof.
  induction objs1 as [|obj objs1 IH]; intros errCount w; simpl; [done|].
  destruct (applyObject I F owner ns obj errCount w) as [w1 errCount1].
  apply IH.
Qed.

Lemma createOrUpdateObject_published obj errCount w :
  F (CreateOrUpdateCall obj) = None ->
  exists o,
    objects (createOrUpdateObject F obj errCount w).1 !! keyOf obj = Some o /\
    Data o = Data obj.
Proof.
  intros Hok. unfold createOrUpdateObject, CreateOrUpdate. rewrite Hok.
  simpl. destruct (objects w !! keyOf obj) as [existing|] eqn:Hex; simpl.
  - destruct (decide (MutateFuncFor existing obj = existing)) as [Heq|Hne];
      simpl.
    + exists existing. split; [done|]. by rewrite <- Heq.
    + eexists. split; [apply lookup_insert_eq|done].
  - eexists. split; [apply lookup_insert_eq|done].
Qed.

(** An object the platform does not refuse is on the platform after its
    turn of the loop, with the data it was built with. *)
Lemma applyObject_published obj errCount w :
  ~ refused I F owner ns obj ->
  exists o,
    objects (applyObject I F owner ns obj errCount w).1
      !! keyOf (prepared I owner ns obj) = Some o /\
    Data o = Data obj.
Proof.
  unfold refused, prepared, applyObject. intros Hok.
  destruct (IsNamespacedResource I obj).
  - destruct (F (SetControllerReferenceCall _)) as [e|] eqn:Hown.
    { exfalso. apply Hok. left. eauto. }
    destruct (createOrUpdateObject_published
                (withControllerReference owner.1 owner.2 (SetNamespace ns obj))
                errCount
                (record (SetControllerReferenceCall (SetNamespace ns obj))
                   None w)) as (o & Ho & Hdata); [|by eauto].
    destruct (F (CreateOrUpdateCall _)) as [e|] eqn:Hcu; [|done].
    exfalso. apply Hok. right. eauto.
  - apply createOrUpdateObject_published.
    destruct (F (CreateOrUpdateCall _)) as [e|] eqn:Hcu; [|done].
    exfalso. apply Hok. right. eauto.
Qed.

End Published.

Lemma buildHashringConfigFrom_empty I F receiver cm w :
  v1alpha1.Hashrings (v1alpha1.Spec receiver) = [] ->
  (ThanosReceiveReconciler.buildHashringConfigFrom I F receiver cm w).2 =
  (Some (synth.configMap
           (receive.Options (ThanosReceiveReconciler.hashringOptions receiver ∅))
           (HashringConfigKey I) []),
   Some ErrHashringsEmpty).
Proof.
  intros Hempty. unfold ThanosReceiveReconciler.buildHashringConfigFrom.
  rewrite Hempty. simpl. unfold synth.BuildHashrings. simpl.
  by destruct (decide _).
Qed.

(** C4.  When the shard list of a subject is empty and the read of the
    existing config map does not fail, [buildHashringConfig] answers the
    config map with an empty routing table together with the
    [ErrHashringsEmpty] sentinel.  [syncResources] does not return that
    error: it goes on to apply its objects, the config map among them, and
    reports nothing but the count of refused objects.  Unless the platform
    refuses the config map, the cluster then holds it, and the text of its
    routing table is [[]]. *)
Theorem C4_empty_shard_list_publishes_empty_table I F receiver w :
  let name := v1alpha1.ReceiveName receiver in
  let ns := v1alpha1.ReceiveNamespace receiver in
  let cm :=
    synth.configMap
      (receive.Options (ThanosReceiveReconciler.hashringOptions receiver ∅))
      (HashringConfigKey I) [] in
  let built := ThanosReceiveReconciler.buildHashringConfig I F receiver w in
  let r := ThanosReceiveReconciler.syncResources I F receiver w in
  v1alpha1.Hashrings (v1alpha1.Spec receiver) = [] ->
  F (GetCall ("ConfigMap", ns, name)) = None \/
  F (GetCall ("ConfigMap", ns, name)) = Some NotFound ->
  built.2 = (Some cm, Some ErrHashringsEmpty) /\
  tableText (HashringConfigKey I) cm = Some "[]" /\
  (exists reported new,
     r.2 = Returned reported /\
     (forall e, reported = Some e -> exists msg n, e = Errorf msg n) /\
     calls r.1 = calls built.1 ++ new /\
     attempted I ("ThanosReceive", name) ns new cm) /\
  (~ refused I F ("ThanosReceive", name) ns cm ->
   exists o,
     objects r.1 !! ("ConfigMap", ns, name) = Some o /\
     tableText (HashringConfigKey I) o = Some "[]").
Proof.
  intros name ns cm built r Hempty Hget.
  assert (Hbuilt : built.2 = (Some cm, Some ErrHashringsEmpty)).
  { subst built. unfold ThanosReceiveReconciler.buildHashringConfig, GetConfigMap,
      answer. fold name ns.
    destruct Hget as [-> | ->]; simpl.
    - destruct (lookupOr _ _) as [[|msg]|existing] eqn:Hlook; simpl;
        try by apply buildHashringConfigFrom_empty.
      unfold lookupOr in Hlook. by destruct (_ !! _).
    - by apply buildHashringConfigFrom_empty. }
  assert (Htext : tableText (HashringConfigKey I) cm = Some "[]").
  { unfold tableText, cm, synth.configMap. simpl.
    by rewrite lookup_singleton_eq. }
  assert (Hr : r = ThanosReceiveReconciler.applyAll I F receiver
                     (BuildIngesters I [] ++ [cm]) built.1).
  { subst r. unfold ThanosReceiveReconciler.syncResources,
      ThanosReceiveReconciler.buildHashrings. rewrite Hempty. simpl.
    fold built. destruct built as [w1 res]. simpl in Hbuilt. by subst res. }
  split; [exact Hbuilt|]. split; [exact Htext|].
  set (owner := ("ThanosReceive", name)) in *.
  pose proof (applyObjects_loop I F owner ns (BuildIngesters I [] ++ [cm]) 0
                built.1 ltac:(lia)) as (new & Hcalls & Hat & _ & _).
  pose proof (applyObjects_app I F owner ns (BuildIngesters I []) [cm] 0
                built.1) as Happ.
  unfold ThanosReceiveReconciler.applyAll in Hr. fold name ns owner in Hr.
  destruct (applyObjects I F owner ns (BuildIngesters I [] ++ [cm]) 0 built.1)
    as [w2 errCount] eqn:Hloop.
  simpl in Hcalls.
  assert (Hobjs : objects r.1 = objects w2)
    by (rewrite Hr; by destruct (0 <? errCount)).
  split.
  - exists (if 0 <? errCount
            then Some (Errorf "failed to create or update %d resources for the hashrings"
                              errCount)
            else None), new.
    rewrite Hr. destruct (0 <? errCount); simpl.
    + split; [done|]. split; [intros e [= <-]; eauto|]. split; [done|].
      apply Hat, elem_of_app. right. apply list_elem_of_here.
    + split; [done|]. split; [done|]. split; [done|].
      apply Hat, elem_of_app. right. apply list_elem_of_here.
  - intros Hok. rewrite Hobjs.
    simpl in Happ.
    destruct (applyObject_published I F owner ns cm
                (applyObjects I F owner ns (BuildIngesters I []) 0 built.1).2
                (applyObjects I F owner ns (BuildIngesters I []) 0 built.1).1 Hok)
      as (o & Ho & Hdata).
    destruct (applyObject I F owner ns cm _ _) as [w3 errCount3].
    injection Happ as <- _. simpl in Ho.
    exists o. split.
    + replace ("ConfigMap", ns, name) with (keyOf (prepared I owner ns cm));
        [exact Ho|].
      unfold prepared. by destruct (IsNamespacedResource I cm).
    + unfold tableText. rewrite Hdata. exact Htext.
Qed.

(** A subject without shards, on a cluster that already holds a routing
    table for it. *)
Lemma C4_empty_shard_list_publishes_empty_table_witness :
  let receiver := Sample.receiver None [] [] in
  let w := Sample.world [] [receiver] [] [] [Sample.previousConfigMap] in
  let r := ThanosReceiveReconciler.syncResources Sample.imports
             Sample.noFaults receiver w in
  tableText "hashrings.json" Sample.previousConfigMap <> Some "[]" /\
  exists o,
    objects r.1 !! ("ConfigMap", "treceive", "test-resource") = Some o /\
    tableText "hashrings.json" o = Some "[]".
Proof.
  intros receiver w r. split; [vm_compute; discriminate|].
  destruct (C4_empty_shard_list_publishes_empty_table Sample.imports
              Sample.noFaults receiver w) as (_ & _ & _ & Hpub).
  - reflexivity.
  - left. reflexivity.
  - apply Hpub. intros [[_ [? Hx]]|[? Hx]]; discriminate Hx.
Defined.

(** ** The order of names and addresses *)

Lemma ascii_compare_refl a : Ascii.compare a a = Eq.
Proof. unfold Ascii.compare. apply N.compare_refl. Qed.

Lemma ascii_compare_lt_trans a b c :
  Ascii.compare a b = Lt -> Ascii.compare b c = Lt -> Ascii.compare a c = Lt.
Proof.
  unfold Ascii.compare. rewrite !N.compare_lt_iff. apply N.lt_trans.
Qed.

Lemma string_compare_lt_trans a : forall b c,
  String.compare a b = Lt -> String.compare b c = Lt ->
  String.compare a c = Lt.
Proof.
  induction a as [|x a IH]; intros [|y b] [|z c]; simpl; try done.
  destruct (Ascii.compare x y) eqn:Hxy; try done;
    destruct (Ascii.compare y z) eqn:Hyz; try done.
  - apply Ascii.compare_eq_iff in Hxy, Hyz. subst.
    rewrite ascii_compare_refl. apply IH.
  - apply Ascii.compare_eq_iff in Hxy. subst. by rewrite Hyz.
  - apply Ascii.compare_eq_iff in Hyz. subst. by rewrite Hxy.
  - by rewrite (ascii_compare_lt_trans x y z).
Qed.

Lemma string_compare_refl a : String.compare a a = Eq.
Proof.
  induction a as [|x a IH]; simpl; [done|]. by rewrite ascii_compare_refl.
Qed.

#[global] Instance string_le_total : Total synth.string_le.
Proof. intros a b. apply String.leb_total. Qed.

#[global] Instance string_le_trans : Transitive synth.string_le.
Proof.
  intros a b c. unfold synth.string_le, String.leb.
  destruct (String.compare a b) eqn:Hab; try done;
    destruct (String.compare b c) eqn:Hbc; try done; intros _ _.
  - apply String.compare_eq_iff in Hab, Hbc. subst.
    by rewrite string_compare_refl.
  - apply String.compare_eq_iff in Hab. subst. by rewrite Hbc.
  - apply String.compare_eq_iff in Hbc. subst. by rewrite Hab.
  - by rewrite (string_compare_lt_trans a b c).
Qed.

#[global] Instance hashring_le_total : Total synth.hashring_le.
Proof. intros a b. apply string_le_total. Qed.

#[global] Instance hashring_le_trans : Transitive synth.hashring_le.
Proof. intros a b c. apply string_le_trans. Qed.

Lemma append_inj_r prefix : forall a b : string,
  prefix +:+ a = prefix +:+ b -> a = b.
Proof.
  induction prefix as [|x prefix IH]; intros a b; simpl; [done|].
  intros [= H]. by apply IH.
Qed.

Lemma IngesterNameFromParent_inj parent a b :
  synth.IngesterNameFromParent parent a = synth.IngesterNameFromParent parent b ->
  a = b.
Proof.
  unfold synth.IngesterNameFromParent. intros H.
  apply append_inj_r in H. by apply (append_inj_r "-") in H.
Qed.

(** ** The hash-ring configuration *)

Section Synthesizer.

Variable I : Imports.
Variable F : Faults.
Variable receiver : v1alpha1.ThanosReceive.

Let ns := v1alpha1.ReceiveNamespace receiver.
Let name := v1alpha1.ReceiveName receiver.

Lemma rangeHashrings_settings w0 total hashrings : forall i settings new,
  (forall h, h ∈ hashrings ->
     F (ListCall "EndpointSlice" ns
          {[ discoveryv1.LabelServiceName := shardIdentity receiver h ]}) = None) ->
  (ThanosReceiveReconciler.rangeHashrings F receiver total i hashrings
     settings (after new w0)).2 =
  inr (settingsFrom receiver w0 total i hashrings settings).
Proof.
  induction hashrings as [|h hashrings IH]; intros i settings new Hok;
    cbn [ThanosReceiveReconciler.rangeHashrings settingsFrom]; [done|].
  unfold ListEndpointSlices, answer. fold ns.
  change (synth.IngesterNameFromParent (v1alpha1.ReceiveName receiver)
            (v1alpha1.Name h)) with (shardIdentity receiver h).
  rewrite (Hok h) by apply list_elem_of_here.
  change (record ?c ?e (after new w0)) with (after [ {| call := c; failure := e |} ] (after new w0)).
  rewrite after_after.
  rewrite IH; [done|].
  intros h' Hh'. apply Hok. by apply list_elem_of_further.
Qed.

(** Every entry of the settings is that of a declared shard. *)
Lemma settingsFrom_lookup w0 total hashrings : forall i settings k meta,
  settingsFrom receiver w0 total i hashrings settings !! k = Some meta ->
  settings !! k = Some meta \/
  exists h, h ∈ hashrings /\ k = shardIdentity receiver h /\
            receive.OriginalName meta = v1alpha1.Name h /\
            receive.MetaTenants meta = v1alpha1.Tenants h /\
            receive.MetaTenantMatcherType meta = v1alpha1.TenantMatcherType h /\
            receive.AssociatedEndpointSlices meta = shardSlices receiver w0 h.
Proof.
  induction hashrings as [|h hashrings IH]; intros i settings k meta; simpl;
    [auto|].
  intros Hlook. apply IH in Hlook as [Hlook|(h' & Hh' & Hrest)].
  - destruct (decide (shardIdentity receiver h = k)) as [<-|Hne].
    + rewrite lookup_insert_eq in Hlook. injection Hlook as <-.
      right. exists h. split; [apply list_elem_of_here|]. done.
    + rewrite lookup_insert_ne in Hlook by done. by left.
  - right. exists h'. split; [by apply list_elem_of_further|done].
Qed.

Lemma shardSlices_identity w0 h h' :
  shardIdentity receiver h = shardIdentity receiver h' ->
  v1alpha1.Name h = v1alpha1.Name h' /\
  shardSlices receiver w0 h = shardSlices receiver w0 h'.
Proof.
  intros Hid. split; [by apply IngesterNameFromParent_inj in Hid|].
  unfold shardSlices. by rewrite Hid.
Qed.

(** Every declared shard has its entry in the settings. *)
Lemma settingsFrom_keeps w0 total hashrings : forall i settings h,
  (exists meta, settings !! shardIdentity receiver h = Some meta /\
                receive.OriginalName meta = v1alpha1.Name h /\
                receive.AssociatedEndpointSlices meta =
                  shardSlices receiver w0 h) \/
  h ∈ hashrings ->
  exists meta,
    settingsFrom receiver w0 total i hashrings settings
      !! shardIdentity receiver h = Some meta /\
    receive.OriginalName meta = v1alpha1.Name h /\
    receive.AssociatedEndpointSlices meta = shardSlices receiver w0 h.
Proof.
  induction hashrings as [|h0 hashrings IH]; intros i settings h Hh; simpl.
  - destruct Hh as [Hh|Hh]; [done|by apply elem_of_nil in Hh].
  - apply IH.
    destruct (decide (shardIdentity receiver h0 = shardIdentity receiver h))
      as [Hid|Hne].
    + left. rewrite Hid, lookup_insert_eq. eexists. split; [done|]. simpl.
      by apply shardSlices_identity.
    + destruct Hh as [(meta & Hmeta & HP)|Hh].
      * left. exists meta. by rewrite lookup_insert_ne.
      * apply elem_of_cons in Hh as [->|Hh]; [done|by right].
Qed.

Lemma settingsFrom_declared w0 total hashrings h :
  h ∈ hashrings ->
  exists meta,
    settingsFrom receiver w0 total 0 hashrings ∅
      !! shardIdentity receiver h = Some meta /\
    receive.OriginalName meta = v1alpha1.Name h /\
    receive.AssociatedEndpointSlices meta = shardSlices receiver w0 h.
Proof. intros Hh. apply settingsFrom_keeps. by right. Qed.

End Synthesizer.

Section Table.

Variable I : Imports.
Variable F : Faults.
Variable receiver : v1alpha1.ThanosReceive.
Variable w : World.

Let ns := v1alpha1.ReceiveNamespace receiver.
Let name := v1alpha1.ReceiveName receiver.
Let hashrings := v1alpha1.Hashrings (v1alpha1.Spec receiver).
Let settings :=
  settingsFrom receiver w (Z.of_nat (length hashrings)) 0 hashrings ∅.
Let previous := previousTable I F receiver w.

Lemma hashringTable_empty previous' :
  synth.hashringTable ns previous' ∅ = [].
Proof. unfold synth.hashringTable. by rewrite map_to_list_empty. Qed.

Lemma buildHashringConfigFrom_table cm rec :
  listsSucceed F receiver ->
  (cm' ← (ThanosReceiveReconciler.buildHashringConfigFrom I F receiver cm
            (after [rec] w)).2.1;
   Data cm' !! HashringConfigKey I) =
  Some (synth.hashringTable ns (default [] (Data cm !! HashringConfigKey I))
          settings).
Proof.
  intros Hlists. unfold ThanosReceiveReconciler.buildHashringConfigFrom.
  pose proof (rangeHashrings_settings F receiver w
                (Z.of_nat (length hashrings)) hashrings 0 ∅ [rec] Hlists)
    as Hrange.
  fold hashrings.
  destruct (ThanosReceiveReconciler.rangeHashrings _ _ _ _ _ _ _)
    as [w1 res]. simpl in Hrange. subst res. fold settings. simpl.
  unfold synth.BuildHashrings. simpl.
  destruct (decide (settings = ∅)) as [->|Hne]; simpl;
    rewrite lookup_singleton_eq; [|done].
  by rewrite hashringTable_empty.
Qed.

(** When its reads succeed, [buildHashringConfig] answers a config map,
    whose table is the synthesized one. *)
Lemma buildHashringConfig_newTable :
  readSucceeds F receiver -> listsSucceed F receiver ->
  newTable I F receiver w = Some (synth.hashringTable ns previous settings).
Proof.
  intros Hread Hlists. unfold newTable, previous, previousTable,
    ThanosReceiveReconciler.buildHashringConfig, GetConfigMap, answer.
  fold ns name.
  change (record ?c ?e w) with (after [ {| call := c; failure := e |} ] w).
  destruct Hread as [Hread|Hread]; unfold ns, name in *; rewrite Hread.
  - destruct (lookupOr _ _) as [err|cm] eqn:Hlook; simpl.
    + unfold lookupOr in Hlook. destruct (_ !! _); [done|].
      injection Hlook as <-. simpl.
      by rewrite buildHashringConfigFrom_table.
    + by rewrite buildHashringConfigFrom_table.
  - simpl. by rewrite buildHashringConfigFrom_table.
Qed.

Lemma entryOf_name h e : entryOf I F receiver w h = Some e -> receive.Hashring e = v1alpha1.Name h.
Proof.
  unfold entryOf. destruct (merge_sort _ _).
  - unfold previousEntry. intros Hfind. apply find_some in Hfind as [_ Heq].
    by apply String.eqb_eq in Heq.
  - by intros [= <-].
Qed.

(** The entries the table is sorted from are those of declared
    shards. *)
Lemma settings_entries e :
  e ∈ omap (fun km => synth.hashringEntry ns previous km.1 km.2)
           (map_to_list settings) ->
  exists h, h ∈ hashrings /\ entryOf I F receiver w h = Some e.
Proof.
  rewrite list_elem_of_omap.
  intros ([k meta] & Hkm & Hentry). simpl in Hentry.
  apply elem_of_map_to_list in Hkm.
  apply settingsFrom_lookup in Hkm
    as [Hkm|(h & Hh & -> & Hname & Hten & Hmatch & Hslices)];
    [by rewrite lookup_empty in Hkm|].
  exists h. split; [done|]. rewrite <- Hentry.
  unfold entryOf, synth.hashringEntry, shardAddresses, previousEntry.
  fold ns previous. by rewrite Hslices, Hname, Hten, Hmatch.
Qed.

(** Every declared shard that has an entry has it among them: the
    previous entry as it is, a fresh one with its name and endpoints. *)
Lemma declared_entries h e :
  h ∈ hashrings -> entryOf I F receiver w h = Some e ->
  exists e',
    e' ∈ omap (fun km => synth.hashringEntry ns previous km.1 km.2)
              (map_to_list settings) /\
    receive.Hashring e' = receive.Hashring e /\
    receive.Endpoints e' = receive.Endpoints e /\
    (shardAddresses receiver w h = [] -> e' = e).
Proof.
  intros Hh Hentry.
  destruct (settingsFrom_keeps receiver w (Z.of_nat (length hashrings))
              hashrings 0 ∅ h (or_intror Hh))
    as (meta & Hmeta & Hname & Hslices).
  fold settings in Hmeta.
  assert (Hkm : (shardIdentity receiver h, meta) ∈ map_to_list settings)
    by (by apply elem_of_map_to_list).
  revert Hentry. unfold entryOf, shardAddresses. fold ns.
  destruct (merge_sort synth.string_le
              (synth.readyAddresses (shardIdentity receiver h) ns
                 (shardSlices receiver w h))) as [|a addresses] eqn:Hsort.
  - intros Hprev. exists e. split; [|done].
    apply list_elem_of_omap. eexists. split; [exact Hkm|]. simpl.
    unfold synth.hashringEntry. rewrite Hslices, Hsort, Hname. exact Hprev.
  - intros [= <-]. eexists. split.
    + apply list_elem_of_omap. eexists. split; [exact Hkm|]. simpl.
      unfold synth.hashringEntry. rewrite Hslices, Hsort. reflexivity.
    + simpl. split; [done|]. split; [done|]. intros Hnil.
      rewrite Hnil in Hsort. discriminate Hsort.
Qed.

End Table.

(** C3.  When the reads of [buildHashringConfig] succeed, a declared shard
    that yields no ready address and has an entry in the table of the
    existing config map keeps that entry, its endpoint list included, in
    the new table. *)
Theorem C3_previous_entry_preserved I F receiver w hashring entry :
  readSucceeds F receiver ->
  listsSucceed F receiver ->
  hashring ∈ v1alpha1.Hashrings (v1alpha1.Spec receiver) ->
  shardAddresses receiver w hashring = [] ->
  previousEntry I F receiver w hashring = Some entry ->
  exists table,
    newTable I F receiver w = Some table /\
    entry ∈ table /\
    receive.Hashring entry = v1alpha1.Name hashring.
Proof.
  intros Hread Hlists Hh Haddr Hprev.
  eexists. split; [by apply buildHashringConfig_newTable|].
  assert (Hentry : entryOf I F receiver w hashring = Some entry).
  { unfold entryOf. by rewrite Haddr. }
  split; [|by apply (entryOf_name I F receiver w)].
  unfold synth.hashringTable. rewrite merge_sort_Permutation.
  destruct (declared_entries I F receiver w hashring entry Hh Hentry)
    as (e' & He' & _ & _ & Hsame).
  by rewrite <- (Hsame Haddr).
Qed.

(** The shard of the test without endpoint slice, on a cluster whose
    config map has an entry for it. *)
Lemma C3_previous_entry_preserved_witness :
  let w := Sample.world [] [Sample.testReceive] [] []
             [Sample.previousConfigMap] in
  exists table,
    newTable Sample.imports Sample.noFaults Sample.testReceive w = Some table /\
    {| receive.Hashring := "test-hashring";
       receive.Tenants := ["test-tenant"];
       receive.TenantMatcherType := "exact";
       receive.Endpoints := [Sample.address "gone-hostname"] |} ∈ table.
Proof.
  intros w.
  destruct (C3_previous_entry_preserved Sample.imports Sample.noFaults
              Sample.testReceive w (Sample.hashring "test-hashring")
              {| receive.Hashring := "test-hashring";
                 receive.Tenants := ["test-tenant"];
                 receive.TenantMatcherType := "exact";
                 receive.Endpoints := [Sample.address "gone-hostname"] |})
    as (table & Htable & Hin & _).
  - left. reflexivity.
  - intros h Hh. reflexivity.
  - apply list_elem_of_here.
  - reflexivity.
  - reflexivity.
  - exists table. split; [exact Htable|exact Hin].
Defined.

Lemma NoDup_omap_fmap {A B C K : Type} (f : A -> option B) (g : B -> C)
    (key : A -> K) (l : list A) :
  (forall x y e e', x ∈ l -> y ∈ l -> f x = Some e -> f y = Some e' ->
                    g e = g e' -> key x = key y) ->
  NoDup (map key l) -> NoDup (map g (omap f l)).
Proof.
  induction l as [|x l IH]; intros Hkey Hnd; simpl; [constructor|].
  apply NoDup_cons in Hnd as [Hx Hnd].
  assert (IH' : NoDup (map g (omap f l))).
  { apply IH; [|done]. intros y z e e' Hy Hz. apply Hkey; by right. }
  destruct (f x) as [e|] eqn:Hfx; simpl; [|done].
  apply NoDup_cons. split; [|done].
  intros Hin. apply Hx.
  change (map g (omap f l)) with (g <$> omap f l) in Hin.
  apply list_elem_of_fmap in Hin as (e' & Hg & He').
  apply list_elem_of_omap in He' as (y & Hy & Hfy).
  change (map key l) with (key <$> l). apply list_elem_of_fmap.
  exists y. split; [|done].
  apply (Hkey x y e e'); [apply list_elem_of_here|by right|done|done|done].
Qed.

Lemma NoDup_fmap_filter {A B : Type} (f : A -> B) (P : A -> Prop)
    `{forall x, Decision (P x)} (l : list A) :
  NoDup (map f l) -> NoDup (map f (filter P l)).
Proof.
  induction l as [|x l IH]; simpl; [done|].
  intros Hnd. apply NoDup_cons in Hnd as [Hx Hnd].
  rewrite filter_cons. destruct (decide (P x)); simpl; [|by apply IH].
  apply NoDup_cons. split; [|by apply IH].
  intros Hin. apply Hx.
  change (map f (filter P l)) with (f <$> filter P l) in Hin.
  apply list_elem_of_fmap in Hin as (y & -> & Hy).
  apply list_elem_of_filter in Hy as [_ Hy].
  change (map f l) with (f <$> l). apply list_elem_of_fmap. eauto.
Qed.

Lemma merge_sort_nil {A} (R : relation A) `{forall x y, Decision (R x y)}
    (l : list A) : merge_sort R l = [] <-> l = [].
Proof.
  split; [|by intros ->].
  intros Hnil. pose proof (merge_sort_Permutation R l) as Hperm.
  rewrite Hnil in Hperm. by apply Permutation_nil_l in Hperm.
Qed.

Section TableNames.

Variable I : Imports.
Variable F : Faults.
Variable receiver : v1alpha1.ThanosReceive.
Variable w : World.

Let ns := v1alpha1.ReceiveNamespace receiver.
Let hashrings := v1alpha1.Hashrings (v1alpha1.Spec receiver).
Let settings :=
  settingsFrom receiver w (Z.of_nat (length hashrings)) 0 hashrings ∅.
Let previous := previousTable I F receiver w.
Let table := synth.hashringTable ns previous settings.

Lemma entryOf_is_Some h :
  is_Some (entryOf I F receiver w h) <->
  shardAddresses receiver w h <> [] \/
  is_Some (previousEntry I F receiver w h).
Proof.
  unfold entryOf.
  destruct (merge_sort synth.string_le (shardAddresses receiver w h))
    as [|a l] eqn:Hsort.
  - apply merge_sort_nil in Hsort. rewrite Hsort.
    split; [by right|]. by intros [Hne|Hprev].
  - split; [|eauto]. intros _. left. intros Hnil.
    rewrite Hnil in Hsort. discriminate Hsort.
Qed.

(** No two entries of the table have the same name. *)
Lemma table_names_NoDup : NoDup (map receive.Hashring table).
Proof.
  unfold table, synth.hashringTable.
  change (map ?f ?l) with (f <$> l). rewrite merge_sort_Permutation.
  apply (NoDup_omap_fmap _ _ fst); [|apply NoDup_fst_map_to_list].
  intros [k meta] [k' meta'] e e' Hx Hy Hfx Hfy Hname. simpl in *.
  apply elem_of_map_to_list in Hx, Hy.
  apply settingsFrom_lookup in Hx
    as [Hx|(h & Hh & -> & Hn & Ht & Hm & Hs)];
    [by rewrite lookup_empty in Hx|].
  apply settingsFrom_lookup in Hy
    as [Hy|(h' & Hh' & -> & Hn' & Ht' & Hm' & Hs')];
    [by rewrite lookup_empty in Hy|].
  assert (He : receive.Hashring e = receive.OriginalName meta).
  { revert Hfx. unfold synth.hashringEntry. destruct (merge_sort _ _).
    - intros Hfind. apply find_some in Hfind as [_ Heq].
      by apply String.eqb_eq in Heq.
    - by intros [= <-]. }
  assert (He' : receive.Hashring e' = receive.OriginalName meta').
  { revert Hfy. unfold synth.hashringEntry. destruct (merge_sort _ _).
    - intros Hfind. apply find_some in Hfind as [_ Heq].
      by apply String.eqb_eq in Heq.
    - by intros [= <-]. }
  unfold shardIdentity. congruence.
Qed.

(** The names of the table are those of the declared shards that have
    ready addresses or a previous entry. *)
Lemma table_names n :
  n ∈ map receive.Hashring table <->
  exists h, h ∈ hashrings /\ v1alpha1.Name h = n /\
            (shardAddresses receiver w h <> [] \/
             is_Some (previousEntry I F receiver w h)).
Proof.
  unfold table, synth.hashringTable.
  change (map ?f ?l) with (f <$> l). rewrite merge_sort_Permutation.
  rewrite list_elem_of_fmap. split.
  - intros (e & -> & He).
    apply (settings_entries I F receiver w) in He as (h & Hh & Hentry).
    exists h. split; [done|]. split.
    + symmetry. by apply (entryOf_name I F receiver w).
    + apply entryOf_is_Some. eauto.
  - intros (h & Hh & <- & Hlive).
    apply entryOf_is_Some in Hlive as [e Hentry].
    destruct (declared_entries I F receiver w h e Hh Hentry)
      as (e' & He' & Hname & _).
    exists e'. split; [|done].
    rewrite Hname. symmetry. by apply (entryOf_name I F receiver w).
Qed.

End TableNames.

(** C1, as amended.  When the shard names of a subject are unique and the
    reads of [buildHashringConfig] succeed, the routing table it answers
    is sorted by shard name and holds exactly one entry for every declared
    shard that yields a ready address or has an entry in the existing
    table, and no other entry. *)
Theorem C1_one_entry_per_live_shard I F receiver w :
  let hashrings := v1alpha1.Hashrings (v1alpha1.Spec receiver) in
  NoDup (map v1alpha1.Name hashrings) ->
  readSucceeds F receiver ->
  listsSucceed F receiver ->
  exists table,
    newTable I F receiver w = Some table /\
    StronglySorted
      (fun a b => String.leb (receive.Hashring a) (receive.Hashring b) = true)
      table /\
    map receive.Hashring table ≡ₚ
      map v1alpha1.Name
        (filter (fun h => shardAddresses receiver w h <> [] \/
                          is_Some (previousEntry I F receiver w h))
                hashrings).
Proof.
  intros hashrings Hnd Hread Hlists.
  eexists. split; [by apply buildHashringConfig_newTable|]. split.
  - apply (StronglySorted_merge_sort synth.hashring_le).
  - apply NoDup_Permutation.
    + apply table_names_NoDup.
    + by apply NoDup_fmap_filter.
    + intros n. rewrite table_names.
      change (map ?f ?l) with (f <$> l). rewrite list_elem_of_fmap.
      split.
      * intros (h & Hh & <- & Hlive). exists h. split; [done|].
        by apply list_elem_of_filter.
      * intros (h & -> & Hh). apply list_elem_of_filter in Hh as [Hlive Hh].
        eauto.
Qed.

(** The subject of the controller's test with its endpoint slice, and a
    second shard that has neither endpoints nor a previous entry. *)
Lemma C1_one_entry_per_live_shard_witness :
  let receiver :=
    Sample.receiver None []
      [Sample.hashring "test-hashring"; Sample.hashring "idle"] in
  let w := Sample.world [] [receiver] [] [Sample.epSliceRelevant] [] in
  exists table,
    newTable Sample.imports Sample.noFaults receiver w = Some table /\
    map receive.Hashring table ≡ₚ ["test-hashring"].
Proof.
  intros receiver w.
  destruct (C1_one_entry_per_live_shard Sample.imports Sample.noFaults
              receiver w) as (table & Htable & _ & Hnames).
  - apply (bool_decide_unpack _). vm_compute. exact Logic.I.
  - left. reflexivity.
  - intros h Hh. reflexivity.
  - exists table. split; [exact Htable|]. exact Hnames.
Defined.

(** C1, as stated, fails on the subject of the controller's test before any
    endpoint slice exists: the shard names are unique, the reads succeed,
    and the table is empty, so that the declared shard has no entry. *)
Lemma C1_counterexample :
  let receiver := Sample.testReceive in
  let w := Sample.world [] [receiver] [] [] [] in
  let hashrings := v1alpha1.Hashrings (v1alpha1.Spec receiver) in
  NoDup (map v1alpha1.Name hashrings) /\
  readSucceeds Sample.noFaults receiver /\
  listsSucceed Sample.noFaults receiver /\
  newTable Sample.imports Sample.noFaults receiver w = Some [] /\
  ~ (map receive.Hashring [] ≡ₚ map v1alpha1.Name hashrings).
Proof.
  intros receiver w hashrings. split; [|split; [|split; [|split]]].
  - apply (bool_decide_unpack _). vm_compute. exact Logic.I.
  - left. reflexivity.
  - intros h Hh. reflexivity.
  - vm_compute. reflexivity.
  - intros Hperm. by apply Permutation_nil_l in Hperm.
Qed.

(** The text of the table of the controller's test, line by line as the
    test expects it. *)
Example marshalHashrings_test :
  synth.marshalHashrings
    [ {| receive.Hashring := "test-hashring";
         receive.Tenants := ["test-tenant"];
         receive.TenantMatcherType := "exact";
         receive.Endpoints :=
           [ Sample.address "some-hostname-b";
             Sample.address "some-hostname-c";
             Sample.address "some-hostname" ] |} ] =
  synth.lines synth.newline
    [ "[";
      "    {";
      "        " +:+ synth.quoted "hashring" +:+ ": " +:+
        synth.quoted "test-hashring" +:+ ",";
      "        " +:+ synth.quoted "tenants" +:+ ": [";
      "            " +:+ synth.quoted "test-tenant";
      "        ],";
      "        " +:+ synth.quoted "tenant_matcher_type" +:+ ": " +:+
        synth.quoted "exact" +:+ ",";
      "        " +:+ synth.quoted "endpoints" +:+ ": [";
      "            {";
      "                " +:+ synth.quoted "address" +:+ ": " +:+
        synth.quoted "some-hostname-b.test-resource-test-hashring.treceive.svc.cluster.local:19291" +:+ ",";
      "                " +:+ synth.quoted "az" +:+ ": " +:+ synth.quoted "";
      "            },";
      "            {";
      "                " +:+ synth.quoted "address" +:+ ": " +:+
        synth.quoted "some-hostname-c.test-resource-test-hashring.treceive.svc.cluster.local:19291" +:+ ",";
      "                " +:+ synth.quoted "az" +:+ ": " +:+ synth.quoted "";
      "            },";
      "            {";
      "                " +:+ synth.quoted "address" +:+ ": " +:+
        synth.quoted "some-hostname.test-resource-test-hashring.treceive.svc.cluster.local:19291" +:+ ",";
      "                " +:+ synth.quoted "az" +:+ ": " +:+ synth.quoted "";
      "            }";
      "        ]";
      "    }";
      "]" ].
Proof. vm_compute. reflexivity. Qed.

Lemma isReady_spec ep :
  synth.isReady ep = true <->
  discoveryv1.Ready (discoveryv1.Conditions ep) = Some true /\
  discoveryv1.Serving (discoveryv1.Conditions ep) = Some true /\
  discoveryv1.Terminating (discoveryv1.Conditions ep) <> Some true.
Proof.
  unfold synth.isReady.
  rewrite !andb_true_iff, negb_true_iff, !bool_decide_eq_true,
    bool_decide_eq_false. tauto.
Qed.

(** The addresses a shard yields are the qualified addresses of its ready
    endpoints that have a hostname. *)
Lemma readyAddresses_spec identity ns slices a :
  a ∈ synth.readyAddresses identity ns slices <->
  exists eps ep hostname,
    eps ∈ slices /\ ep ∈ discoveryv1.Endpoints eps /\
    synth.isReady ep = true /\
    discoveryv1.Hostname ep = Some hostname /\
    a = synth.qualifiedAddress identity ns hostname.
Proof.
  unfold synth.readyAddresses.
  rewrite list_elem_of_In, in_flat_map. split.
  - intros (eps & Heps & Ha). apply in_flat_map in Ha as (ep & Hep & Ha).
    unfold synth.endpointAddresses in Ha.
    destruct (synth.isReady ep) eqn:Hready; [|done].
    destruct (discoveryv1.Hostname ep) as [hostname|] eqn:Hhost; [|done].
    destruct Ha as [<-|[]].
    exists eps, ep, hostname. by rewrite !list_elem_of_In.
  - intros (eps & ep & hostname & Heps & Hep & Hready & Hhost & ->).
    exists eps. split; [by apply list_elem_of_In|].
    apply in_flat_map. exists ep. split; [by apply list_elem_of_In|].
    unfold synth.endpointAddresses. rewrite Hready, Hhost. by left.
Qed.

Lemma NoDup_fmap_eq {A B} (f : A -> B) (l : list A) x y :
  NoDup (map f l) -> x ∈ l -> y ∈ l -> f x = f y -> x = y.
Proof.
  induction l as [|z l IH]; simpl; intros Hnd Hx Hy Hf;
    [by apply elem_of_nil in Hx|].
  apply NoDup_cons in Hnd as [Hz Hnd].
  apply elem_of_cons in Hx as [->|Hx]; apply elem_of_cons in Hy as [->|Hy];
    try done.
  - exfalso. apply Hz. rewrite Hf. change (map f l) with (f <$> l).
    apply list_elem_of_fmap. eauto.
  - exfalso. apply Hz. rewrite <- Hf. change (map f l) with (f <$> l).
    apply list_elem_of_fmap. eauto.
  - by apply IH.
Qed.

(** C2, as amended.  When the reads of [buildHashringConfig] succeed, a
    declared shard that yields a ready address has one entry in the new
    table.  The addresses of that entry are sorted, and they are the
    addresses
    [<hostname>.<subject>-<shard-name>.<namespace>.svc.cluster.local:19291]
    of the endpoints in the endpoint slices of the shard that are flagged
    ready and serving and are not flagged terminating.  In particular the
    three endpoints of the controller's test give the list of the test, in
    its order. *)
Theorem C2_endpoints_of_live_shard :
  (forall I F receiver w hashring,
     readSucceeds F receiver ->
     listsSucceed F receiver ->
     hashring ∈ v1alpha1.Hashrings (v1alpha1.Spec receiver) ->
     shardAddresses receiver w hashring <> [] ->
     exists table entry,
       newTable I F receiver w = Some table /\
       entry ∈ table /\
       receive.Hashring entry = v1alpha1.Name hashring /\
       (forall other, other ∈ table ->
          receive.Hashring other = v1alpha1.Name hashring -> other = entry) /\
       StronglySorted (fun a b => String.leb a b = true)
         (map receive.Address (receive.Endpoints entry)) /\
       (forall a,
          a ∈ map receive.Address (receive.Endpoints entry) <->
          exists eps ep hostname,
            eps ∈ shardSlices receiver w hashring /\
            ep ∈ discoveryv1.Endpoints eps /\
            discoveryv1.Ready (discoveryv1.Conditions ep) = Some true /\
            discoveryv1.Serving (discoveryv1.Conditions ep) = Some true /\
            discoveryv1.Terminating (discoveryv1.Conditions ep) <> Some true /\
            discoveryv1.Hostname ep = Some hostname /\
            a = hostname +:+ "." +:+
                (v1alpha1.ReceiveName receiver +:+ "-" +:+
                 v1alpha1.Name hashring) +:+ "." +:+
                v1alpha1.ReceiveNamespace receiver +:+
                ".svc.cluster.local:19291")) /\
  newTable Sample.imports Sample.noFaults Sample.testReceive
    (Sample.world [] [Sample.testReceive] [] [Sample.epSliceRelevant] []) =
  Some [ {| receive.Hashring := "test-hashring";
            receive.Tenants := ["test-tenant"];
            receive.TenantMatcherType := "exact";
            receive.Endpoints :=
              [ {| receive.Address :=
                     "some-hostname-b.test-resource-test-hashring.treceive.svc.cluster.local:19291";
                   receive.AZ := "" |};
                {| receive.Address :=
                     "some-hostname-c.test-resource-test-hashring.treceive.svc.cluster.local:19291";
                   receive.AZ := "" |};
                {| receive.Address :=
                     "some-hostname.test-resource-test-hashring.treceive.svc.cluster.local:19291";
                   receive.AZ := "" |} ] |} ].
Proof.
  split; [|vm_compute; reflexivity].
  intros I F receiver w hashring Hread Hlists Hh Haddr.
  destruct (merge_sort synth.string_le (shardAddresses receiver w hashring))
    as [|a0 sorted] eqn:Hsort.
  { by apply merge_sort_nil in Hsort. }
  assert (Hentry : entryOf I F receiver w hashring =
            Some {| receive.Hashring := v1alpha1.Name hashring;
                    receive.Tenants := v1alpha1.Tenants hashring;
                    receive.TenantMatcherType :=
                      v1alpha1.TenantMatcherType hashring;
                    receive.Endpoints :=
                      map (fun a => {| receive.Address := a;
                                       receive.AZ := "" |})
                          (a0 :: sorted) |}).
  { unfold entryOf. by rewrite Hsort. }
  destruct (declared_entries I F receiver w hashring _ Hh Hentry)
    as (entry & Hin & Hname & Hends & _).
  simpl in Hname, Hends.
  assert (Haddrs : map receive.Address (receive.Endpoints entry) =
                   merge_sort synth.string_le
                     (shardAddresses receiver w hashring)).
  { rewrite Hends, Hsort. simpl. f_equal. rewrite List.map_map. apply List.map_id. }
  eexists. exists entry.
  split; [by apply buildHashringConfig_newTable|].
  assert (Htable : entry ∈ synth.hashringTable
                     (v1alpha1.ReceiveNamespace receiver)
                     (previousTable I F receiver w)
                     (settingsFrom receiver w
                        (Z.of_nat (length (v1alpha1.Hashrings
                                             (v1alpha1.Spec receiver)))) 0
                        (v1alpha1.Hashrings (v1alpha1.Spec receiver)) ∅)).
  { unfold synth.hashringTable. by rewrite merge_sort_Permutation. }
  split; [exact Htable|]. split; [exact Hname|]. split.
  { intros other Hother Hsame.
    apply (NoDup_fmap_eq receive.Hashring _ other entry
             (table_names_NoDup I F receiver w) Hother Htable).
    congruence. }
  rewrite Haddrs. split.
  { apply (StronglySorted_merge_sort synth.string_le). }
  intros a. rewrite merge_sort_Permutation.
  unfold shardAddresses. rewrite readyAddresses_spec.
  split.
  - intros (eps & ep & hostname & Heps & Hep & Hready & Hhost & ->).
    apply isReady_spec in Hready as (? & ? & ?).
    exists eps, ep, hostname. by repeat split.
  - intros (eps & ep & hostname & Heps & Hep & ? & ? & ? & Hhost & ->).
    exists eps, ep, hostname. repeat split; try done.
    by apply isReady_spec.
Qed.

(** The shard of the controller's test, with its three ready endpoints. *)
Lemma C2_endpoints_of_live_shard_witness :
  let w := Sample.world [] [Sample.testReceive] [] [Sample.epSliceRelevant] [] in
  exists table entry,
    newTable Sample.imports Sample.noFaults Sample.testReceive w = Some table /\
    entry ∈ table /\
    receive.Hashring entry = "test-hashring" /\
    StronglySorted (fun a b => String.leb a b = true)
      (map receive.Address (receive.Endpoints entry)).
Proof.
  intros w.
  destruct (proj1 C2_endpoints_of_live_shard Sample.imports Sample.noFaults
              Sample.testReceive w (Sample.hashring "test-hashring"))
    as (table & entry & Htable & Hin & Hname & _ & Hsorted & _).
  - left. reflexivity.
  - intros h Hh. reflexivity.
  - apply list_elem_of_here.
  - vm_compute. discriminate.
  - exists table, entry. by repeat split.
Defined.

(** C2, as stated, fails for a shard that keeps its previous entry: the
    shard of the controller's test has no endpoint slice, hence no
    endpoint that is ready, and its entry in the new table lists the
    address the existing config map had for it. *)
Lemma C2_counterexample :
  let w := Sample.world [] [Sample.testReceive] [] []
             [Sample.previousConfigMap] in
  let hashring := Sample.hashring "test-hashring" in
  let entry :=
    {| receive.Hashring := "test-hashring";
       receive.Tenants := ["test-tenant"];
       receive.TenantMatcherType := "exact";
       receive.Endpoints := [Sample.address "gone-hostname"] |} in
  hashring ∈ v1alpha1.Hashrings (v1alpha1.Spec Sample.testReceive) /\
  newTable Sample.imports Sample.noFaults Sample.testReceive w =
    Some [entry] /\
  receive.Hashring entry = v1alpha1.Name hashring /\
  shardSlices Sample.testReceive w hashring = [] /\
  "gone-hostname.test-resource-test-hashring.treceive.svc.cluster.local:19291"
    ∈ map receive.Address (receive.Endpoints entry) /\
  ~ (forall a,
       a ∈ map receive.Address (receive.Endpoints entry) ->
       exists eps ep,
         eps ∈ shardSlices Sample.testReceive w hashring /\
         ep ∈ discoveryv1.Endpoints eps /\
         discoveryv1.Ready (discoveryv1.Conditions ep) = Some true).
Proof.
  intros w hashring entry.
  split; [apply list_elem_of_here|].
  split; [vm_compute; reflexivity|].
  split; [reflexivity|].
  split; [reflexivity|].
  split; [apply list_elem_of_here|].
  intros Hall.
  destruct (Hall _ (list_elem_of_here _ _)) as (eps & ep & Heps & _).
  change (shardSlices Sample.testReceive w hashring) with
    (@nil discoveryv1.EndpointSlice) in Heps.
  by apply elem_of_nil in Heps.
Qed.

(** * Further properties *)

(** ** Further properties of the apply loop *)

Section ApplyMore.

Variable I : Imports.
Variable F : Faults.
Variable owner : string * string.
Variable ns : string.

Lemma applied_app cs1 cs2 : applied (cs1 ++ cs2) = applied cs1 ++ applied cs2.
Proof. unfold applied. apply omap_app. Qed.

Lemma applyObject_applied obj errCount w :
  exists new,
    calls (applyObject I F owner ns obj errCount w).1 = calls w ++ new /\
    applied new =
      if decide (ownerRefused I F ns obj) then []
      else [prepared I owner ns obj].
Proof.
  destruct (decide (ownerRefused I F ns obj)) as [[Hns [e He]]|Hn].
  - unfold applyObject. rewrite Hns, He. eexists. split; reflexivity.
  - unfold applyObject, prepared.
    destruct (IsNamespacedResource I obj) eqn:Hns.
    + destruct (F (SetControllerReferenceCall (SetNamespace ns obj)))
        as [e|] eqn:Hown.
      { exfalso. apply Hn. split; [done|]. rewrite Hown. eauto. }
      destruct (createOrUpdateObject_calls F
                  (withControllerReference owner.1 owner.2 (SetNamespace ns obj))
                  errCount
                  (record (SetControllerReferenceCall (SetNamespace ns obj))
                     None w)) as [Hc _].
      eexists. split.
      { rewrite Hc. simpl. rewrite <- app_assoc. reflexivity. }
      reflexivity.
    + destruct (createOrUpdateObject_calls F obj errCount w) as [Hc _].
      eexists. split; [exact Hc|]. reflexivity.
Qed.

(** X1.  The loop hands the objects to [CreateOrUpdate] in their order, each
    one prepared, and skips exactly those whose owner reference the
    platform refuses. *)
Theorem applyObjects_applied objs : forall errCount w,
  exists new,
    calls (applyObjects I F owner ns objs errCount w).1 = calls w ++ new /\
    applied new =
      map (prepared I owner ns)
          (filter (fun obj => ~ ownerRefused I F ns obj) objs).
Proof.
  induction objs as [|obj objs IH]; intros errCount w; simpl.
  - exists []. by rewrite app_nil_r.
  - destruct (applyObject_applied obj errCount w) as (new1 & Hc1 & Ha1).
    destruct (applyObject I F owner ns obj errCount w) as [w1 errCount1].
    simpl in Hc1.
    destruct (IH errCount1 w1) as (new2 & Hc2 & Ha2).
    exists (new1 ++ new2). split.
    { rewrite Hc2, Hc1. by rewrite app_assoc. }
    rewrite applied_app, Ha1, Ha2, filter_cons.
    destruct (decide (ownerRefused I F ns obj)) as [Hr|Hr];
      destruct (decide (~ ownerRefused I F ns obj)); done.
Qed.

(** What [prepared] puts on a namespaced object. *)
Lemma prepared_namespaced obj :
  IsNamespacedResource I obj = true ->
  Namespace (prepared I owner ns obj) = ns /\
  OwnerReferences (prepared I owner ns obj) =
    OwnerReferences obj ++
    [ {| OwnerKind := owner.1; OwnerName := owner.2; Controller := true |} ].
Proof. unfold prepared. by intros ->. Qed.

Lemma createOrUpdateObject_objects obj errCount w k :
  keyOf obj <> k ->
  objects (createOrUpdateObject F obj errCount w).1 !! k = objects w !! k.
Proof.
  intros Hne. unfold createOrUpdateObject, CreateOrUpdate.
  destruct (F _); [done|]. simpl.
  destruct (objects w !! keyOf obj); simpl.
  - destruct (decide _); simpl; [done|]. by rewrite lookup_insert_ne.
  - by rewrite lookup_insert_ne.
Qed.

Lemma createOrUpdateObject_keeps obj errCount w k :
  is_Some (objects w !! k) ->
  is_Some (objects (createOrUpdateObject F obj errCount w).1 !! k).
Proof.
  intros Hk. destruct (decide (keyOf obj = k)) as [<-|Hne];
    [|by rewrite createOrUpdateObject_objects].
  unfold createOrUpdateObject, CreateOrUpdate.
  destruct (F _); [done|]. simpl.
  destruct (objects w !! keyOf obj) eqn:Hex; simpl.
  - destruct (decide _); simpl; [by rewrite Hex|].
    rewrite lookup_insert_eq. eauto.
  - rewrite lookup_insert_eq. eauto.
Qed.

Lemma applyObject_objects obj errCount w k :
  keyOf (prepared I owner ns obj) <> k ->
  objects (applyObject I F owner ns obj errCount w).1 !! k = objects w !! k.
Proof.
  unfold applyObject, prepared. intros Hne.
  destruct (IsNamespacedResource I obj).
  - destruct (F _); [done|]. by rewrite createOrUpdateObject_objects.
  - by rewrite createOrUpdateObject_objects.
Qed.

Lemma applyObject_keeps obj errCount w k :
  is_Some (objects w !! k) ->
  is_Some (objects (applyObject I F owner ns obj errCount w).1 !! k).
Proof.
  unfold applyObject. intros Hk.
  destruct (IsNamespacedResource I obj).
  - destruct (F _); [done|]. by apply createOrUpdateObject_keeps.
  - by apply createOrUpdateObject_keeps.
Qed.

Lemma applyObjects_objects objs : forall errCount w k,
  (is_Some (objects w !! k) ->
   is_Some (objects (applyObjects I F owner ns objs errCount w).1 !! k)) /\
  ((forall obj, obj ∈ objs -> keyOf (prepared I owner ns obj) <> k) ->
   objects (applyObjects I F owner ns objs errCount w).1 !! k =
   objects w !! k).
Proof.
  induction objs as [|obj objs IH]; intros errCount w k; simpl; [done|].
  pose proof (applyObject_keeps obj errCount w k) as Hkeep.
  pose proof (applyObject_objects obj errCount w k) as Hsame.
  destruct (applyObject I F owner ns obj errCount w) as [w1 errCount1].
  simpl in *. destruct (IH errCount1 w1 k) as [IHkeep IHsame]. split.
  - auto.
  - intros Hk. rewrite IHsame.
    + apply Hsame, Hk, list_elem_of_here.
    + intros o Ho. by apply Hk, list_elem_of_further.
Qed.

(** X2.  The loop deletes nothing, and it leaves alone every object whose key
    is not that of an object it applies. *)
Theorem applyObjects_frame objs errCount w k :
  (is_Some (objects w !! k) ->
   is_Some (objects (applyObjects I F owner ns objs errCount w).1 !! k)) /\
  ((forall obj, obj ∈ objs -> keyOf (prepared I owner ns obj) <> k) ->
   objects (applyObjects I F owner ns objs errCount w).1 !! k =
   objects w !! k).
Proof. apply applyObjects_objects. Qed.

Lemma createOrUpdateObject_stored obj errCount w :
  F (CreateOrUpdateCall obj) = None ->
  (createOrUpdateObject F obj errCount w).2 = errCount /\
  exists o,
    objects (createOrUpdateObject F obj errCount w).1 !! keyOf obj = Some o /\
    Data o = Data obj /\ Manifest o = Manifest obj /\
    OwnerReferences o = OwnerReferences obj /\
    (forall old, objects w !! keyOf obj = Some old -> UID o = UID old).
Proof.
  intros Hok. unfold createOrUpdateObject, CreateOrUpdate. rewrite Hok.
  simpl. destruct (objects w !! keyOf obj) as [existing|] eqn:Hex; simpl.
  - destruct (decide (MutateFuncFor existing obj = existing)) as [Heq|Hne];
      simpl; (split; [done|]).
    + exists existing. split; [done|]. rewrite <- Heq at 1 2 3. simpl.
      repeat split. by intros old [= <-].
    + eexists. split; [apply lookup_insert_eq|]. simpl.
      repeat split. by intros old [= <-].
  - split; [done|]. eexists. split; [apply lookup_insert_eq|]. done.
Qed.

Lemma applyObject_stored obj errCount w :
  ~ refused I F owner ns obj ->
  (applyObject I F owner ns obj errCount w).2 = errCount /\
  exists o,
    objects (applyObject I F owner ns obj errCount w).1
      !! keyOf (prepared I owner ns obj) = Some o /\
    Data o = Data obj /\ Manifest o = Manifest obj /\
    OwnerReferences o = OwnerReferences (prepared I owner ns obj) /\
    (forall old, objects w !! keyOf (prepared I owner ns obj) = Some old ->
                 UID o = UID old).
Proof.
  unfold refused, prepared, applyObject. intros Hok.
  destruct (IsNamespacedResource I obj).
  - destruct (F (SetControllerReferenceCall _)) as [e|] eqn:Hown.
    { exfalso. apply Hok. left. eauto. }
    apply (createOrUpdateObject_stored
             (withControllerReference owner.1 owner.2 (SetNamespace ns obj))
             errCount
             (record (SetControllerReferenceCall (SetNamespace ns obj)) None w)).
    destruct (F (CreateOrUpdateCall _)) as [e|] eqn:Hcu; [|done].
    exfalso. apply Hok. right. eauto.
  - apply createOrUpdateObject_stored.
    destruct (F (CreateOrUpdateCall _)) as [e|] eqn:Hcu; [|done].
    exfalso. apply Hok. right. eauto.
Qed.

Lemma applyObjects_stores objs : forall errCount w,
  (forall obj, obj ∈ objs -> ~ refused I F owner ns obj) ->
  NoDup (map (fun obj => keyOf (prepared I owner ns obj)) objs) ->
  let r := applyObjects I F owner ns objs errCount w in
  r.2 = errCount /\
  forall obj, obj ∈ objs ->
    exists o,
      objects r.1 !! keyOf (prepared I owner ns obj) = Some o /\
      Data o = Data obj /\ Manifest o = Manifest obj /\
      OwnerReferences o = OwnerReferences (prepared I owner ns obj) /\
      (forall old, objects w !! keyOf (prepared I owner ns obj) = Some old ->
                   UID o = UID old).
Proof.
  induction objs as [|obj objs IH]; intros errCount w Hok Hnd; simpl.
  { split; [done|]. intros obj Hobj. by apply elem_of_nil in Hobj. }
  apply NoDup_cons in Hnd as [Hfresh Hnd].
  destruct (applyObject_stored obj errCount w) as (Hcount & o & Ho & Hfields).
  { apply Hok, list_elem_of_here. }
  pose proof (fun k => applyObject_objects obj errCount w k) as Hother.
  destruct (applyObject I F owner ns obj errCount w) as [w1 errCount1].
  simpl in Hcount, Ho, Hother. subst errCount1.
  destruct (IH errCount w1) as [IHcount IHobjs]; [|done|].
  { intros o' Ho'. by apply Hok, list_elem_of_further. }
  split; [done|]. intros obj' Hobj'.
  apply elem_of_cons in Hobj' as [->|Hobj'].
  - exists o. split; [|done].
    destruct (applyObjects_objects objs errCount w1
                (keyOf (prepared I owner ns obj))) as [_ Hsame].
    rewrite Hsame; [done|].
    intros o' Ho' Heq. apply Hfresh.
    change (map ?f ?l) with (f <$> l). apply list_elem_of_fmap. eauto.
  - destruct (IHobjs obj' Hobj') as (o' & Ho' & Hd & Hm & Hr & Huid).
    exists o'. split; [done|]. split; [done|]. split; [done|]. split; [done|].
    intros old Hold. apply Huid. rewrite Hother; [done|].
    intros Heq. apply Hfresh. rewrite Heq.
    change (map ?f ?l) with (f <$> l). apply list_elem_of_fmap. eauto.
Qed.

(** X3.  When the platform refuses none of the objects and their keys are
    distinct, the loop counts no error, and afterwards the cluster holds
    every object under its key: with the data, the manifest and the owner
    references it was applied with, and with the identifier the platform
    gave it if it was there before. *)
Theorem applyObjects_stored objs errCount w :
  (forall obj, obj ∈ objs -> ~ refused I F owner ns obj) ->
  NoDup (map (fun obj => keyOf (prepared I owner ns obj)) objs) ->
  let r := applyObjects I F owner ns objs errCount w in
  r.2 = errCount /\
  forall obj, obj ∈ objs ->
    exists o,
      objects r.1 !! keyOf (prepared I owner ns obj) = Some o /\
      Data o = Data obj /\ Manifest o = Manifest obj /\
      OwnerReferences o = OwnerReferences (prepared I owner ns obj) /\
      (forall old, objects w !! keyOf (prepared I owner ns obj) = Some old ->
                   UID o = UID old).
Proof. apply applyObjects_stores. Qed.

End ApplyMore.

(** ** Further properties of the ingestion tier *)

Section BuildHashrings.

Variable I : Imports.

Lemma ingesterOptions_None receiver h :
  ThanosReceiveReconciler.ingesterOptions I receiver h = None <->
  v1alpha1.Retention h = None \/
  ParseQuantity I (v1alpha1.StorageSize h) = None.
Proof.
  unfold ThanosReceiveReconciler.ingesterOptions.
  destruct (v1alpha1.Retention h) as [retention|]; simpl;
    [|by split; [left|]].
  destruct (ParseQuantity I (v1alpha1.StorageSize h)) as [size|]; simpl.
  - split; [done|]. by intros [|].
  - split; [by right|done].
Qed.

Lemma ingesterOptions_Some receiver h opts :
  ThanosReceiveReconciler.ingesterOptions I receiver h = Some opts ->
  v1alpha1.Retention h = Some (receive.Retention opts) /\
  ParseQuantity I (v1alpha1.StorageSize h) = Some (receive.StorageSize opts) /\
  receive.ExternalLabels opts = v1alpha1.ExternalLabels h /\
  receive.ObjStoreSecret opts =
    v1alpha1.ToSecretKeySelector
      (default (v1alpha1.DefaultObjectStorageConfig (v1alpha1.Spec receiver))
               (v1alpha1.ObjectStorageConfig_ h)).
Proof.
  unfold ThanosReceiveReconciler.ingesterOptions.
  destruct (v1alpha1.Retention h) as [retention|]; simpl; [|done].
  destruct (ParseQuantity I (v1alpha1.StorageSize h)) as [size|]; simpl;
    [|done].
  intros [= <-]. simpl. by destruct (v1alpha1.ObjectStorageConfig_ h).
Qed.

(** X4.  [buildHashrings] panics exactly when some shard has no retention or a
    storage size that does not parse, and then [syncResources] panics
    before it makes any call.  Otherwise [receive.BuildIngesters] gets one
    option per shard, in the order of the shards, with the retention and
    the parsed size of the shard, and with the object-storage secret of the
    shard if it has one, of the subject if not. *)
Theorem buildHashrings_panic_or_options F receiver w :
  let hashrings := v1alpha1.Hashrings (v1alpha1.Spec receiver) in
  (ThanosReceiveReconciler.buildHashrings I receiver = None <->
   exists h, h ∈ hashrings /\
             (v1alpha1.Retention h = None \/
              ParseQuantity I (v1alpha1.StorageSize h) = None)) /\
  (ThanosReceiveReconciler.buildHashrings I receiver = None ->
   ThanosReceiveReconciler.syncResources I F receiver w = (w, Panicked)) /\
  (forall objs,
     ThanosReceiveReconciler.buildHashrings I receiver = Some objs ->
     exists opts,
       objs = BuildIngesters I opts /\
       length opts = length hashrings /\
       forall i h, hashrings !! i = Some h ->
         exists o,
           opts !! i = Some o /\
           v1alpha1.Retention h = Some (receive.Retention o) /\
           ParseQuantity I (v1alpha1.StorageSize h) =
             Some (receive.StorageSize o) /\
           receive.ObjStoreSecret o =
             v1alpha1.ToSecretKeySelector
               (default (v1alpha1.DefaultObjectStorageConfig
                           (v1alpha1.Spec receiver))
                        (v1alpha1.ObjectStorageConfig_ h))).
Proof.
  intros hashrings. unfold ThanosReceiveReconciler.buildHashrings.
  fold hashrings.
  destruct (mapM (ThanosReceiveReconciler.ingesterOptions I receiver) hashrings)
    as [opts|] eqn:Hopts; simpl.
  - split; [split; [done|]|split; [done|]].
    + intros (h & Hh & Hbad). apply mapM_Some in Hopts.
      apply list_elem_of_lookup in Hh as [i Hi].
      destruct (Forall2_lookup_l _ _ _ _ _ Hopts Hi) as (o & _ & Ho).
      apply (ingesterOptions_None receiver) in Hbad. congruence.
    + intros objs [= <-]. exists opts. split; [done|].
      pose proof (length_mapM _ _ _ Hopts) as Hlen. split; [done|].
      intros i h Hi. apply mapM_Some in Hopts.
      destruct (Forall2_lookup_l _ _ _ _ _ Hopts Hi) as (o & Hoi & Ho).
      apply ingesterOptions_Some in Ho as (? & ? & _ & ?). eauto.
  - split; [split; [intros _|done]|split; [|done]].
    + apply mapM_None in Hopts. apply Exists_exists in Hopts as (h & Hh & Hbad).
      exists h. split; [done|]. by apply (ingesterOptions_None receiver).
    + intros _. unfold ThanosReceiveReconciler.syncResources,
        ThanosReceiveReconciler.buildHashrings. fold hashrings.
      by rewrite Hopts.
Qed.

End BuildHashrings.

Section Settings.

Variable F : Faults.
Variable receiver : v1alpha1.ThanosReceive.
Variable w : World.

Let ns := v1alpha1.ReceiveNamespace receiver.

(** The settings of one shard, as the loop writes them at index [i]. *)
Lemma settingsFrom_app total l1 : forall i l2 settings,
  settingsFrom receiver w total i (l1 ++ l2) settings =
  settingsFrom receiver w total (i + Z.of_nat (length l1)) l2
    (settingsFrom receiver w total i l1 settings).
Proof.
  induction l1 as [|h l1 IH]; intros i l2 settings; simpl.
  - by rewrite Z.add_0_r.
  - rewrite IH. f_equal. lia.
Qed.

Lemma settingsFrom_other total l : forall i settings k,
  (forall h, h ∈ l -> shardIdentity receiver h <> k) ->
  settingsFrom receiver w total i l settings !! k = settings !! k.
Proof.
  induction l as [|h l IH]; intros i settings k Hk; simpl; [done|].
  rewrite IH.
  - apply lookup_insert_ne, Hk, list_elem_of_here.
  - intros h' Hh'. by apply Hk, list_elem_of_further.
Qed.

Lemma rangeHashrings_inr total hashrings :
  (forall h, h ∈ hashrings ->
     F (ListCall "EndpointSlice" ns
          {[ discoveryv1.LabelServiceName := shardIdentity receiver h ]}) = None) ->
  (ThanosReceiveReconciler.rangeHashrings F receiver total 0 hashrings ∅ w).2 =
  inr (settingsFrom receiver w total 0 hashrings ∅).
Proof.
  intros Hok. rewrite <- (after_nil w) at 1.
  by apply rangeHashrings_settings.
Qed.

Lemma settingsFrom_last_wins total prefix h suffix :
  (forall h', h' ∈ suffix -> v1alpha1.Name h' <> v1alpha1.Name h) ->
  settingsFrom receiver w total 0 (prefix ++ h :: suffix) ∅
    !! shardIdentity receiver h =
  Some {| receive.DesiredReplicasReplicas := v1alpha1.Replicas h;
          receive.OriginalName := v1alpha1.Name h;
          receive.MetaTenants := v1alpha1.Tenants h;
          receive.MetaTenantMatcherType := v1alpha1.TenantMatcherType h;
          receive.AssociatedEndpointSlices := shardSlices receiver w h;
          receive.Priority := total - Z.of_nat (length prefix) |}.
Proof.
  intros Hlater. rewrite settingsFrom_app. simpl.
  rewrite settingsFrom_other.
  - by rewrite lookup_insert_eq.
  - intros h' Hh' Hid. apply IngesterNameFromParent_inj in Hid.
    by apply (Hlater h').
Qed.

Lemma settingsFrom_size total l : forall i settings,
  NoDup (map v1alpha1.Name l) ->
  (forall h, h ∈ l -> settings !! shardIdentity receiver h = None) ->
  size (settingsFrom receiver w total i l settings) =
  (size settings + length l)%nat.
Proof.
  induction l as [|h l IH]; intros i settings Hnd Hfresh; simpl; [lia|].
  apply NoDup_cons in Hnd as [Hh Hnd].
  rewrite IH; [|done|].
  - rewrite map_size_insert_None; [lia|]. apply Hfresh, list_elem_of_here.
  - intros h' Hh'. rewrite lookup_insert_ne.
    + by apply Hfresh, list_elem_of_further.
    + intros Hid. apply IngesterNameFromParent_inj in Hid. apply Hh.
      rewrite Hid. change (map ?f ?l) with (f <$> l).
      apply list_elem_of_fmap. eauto.
Qed.

End Settings.

(** X5.  When every listing succeeds, the loop of [buildHashringConfig] fills
    the settings with the shards, under their identities.  Of the shards
    that share a name the last one stays; its priority is the number of
    shards minus its index, its endpoint slices are those the cluster has
    for its identity. *)
Theorem rangeHashrings_last_wins F receiver w prefix h suffix :
  let hashrings := prefix ++ h :: suffix in
  let total := Z.of_nat (length hashrings) in
  listsSucceed F receiver ->
  v1alpha1.Hashrings (v1alpha1.Spec receiver) = hashrings ->
  (forall h', h' ∈ suffix -> v1alpha1.Name h' <> v1alpha1.Name h) ->
  exists settings,
    (ThanosReceiveReconciler.rangeHashrings F receiver total 0 hashrings ∅ w).2
      = inr settings /\
    settings !! synth.IngesterNameFromParent (v1alpha1.ReceiveName receiver)
                  (v1alpha1.Name h) =
    Some {| receive.DesiredReplicasReplicas := v1alpha1.Replicas h;
            receive.OriginalName := v1alpha1.Name h;
            receive.MetaTenants := v1alpha1.Tenants h;
            receive.MetaTenantMatcherType := v1alpha1.TenantMatcherType h;
            receive.AssociatedEndpointSlices := shardSlices receiver w h;
            receive.Priority := total - Z.of_nat (length prefix) |} /\
    1 <= total - Z.of_nat (length prefix) <= total.
Proof.
  intros hashrings total Hlists Hspec Hlater.
  eexists. split.
  { apply rangeHashrings_inr. intros h' Hh'. apply Hlists.
    by rewrite Hspec. }
  split; [by apply settingsFrom_last_wins|].
  subst total hashrings. rewrite length_app. simpl. lia.
Qed.

(** X6.  When every listing succeeds, the keys of the settings are the
    identities of the declared shards, and with unique shard names there
    are as many settings as shards. *)
Theorem rangeHashrings_domain F receiver w :
  let hashrings := v1alpha1.Hashrings (v1alpha1.Spec receiver) in
  let total := Z.of_nat (length hashrings) in
  listsSucceed F receiver ->
  exists settings,
    (ThanosReceiveReconciler.rangeHashrings F receiver total 0 hashrings ∅ w).2
      = inr settings /\
    (forall k, is_Some (settings !! k) <->
               exists h, h ∈ hashrings /\
                         k = synth.IngesterNameFromParent
                               (v1alpha1.ReceiveName receiver)
                               (v1alpha1.Name h)) /\
    (NoDup (map v1alpha1.Name hashrings) -> size settings = length hashrings).
Proof.
  intros hashrings total Hlists.
  eexists. split; [by apply rangeHashrings_inr|]. split.
  - intros k. split.
    + intros [meta Hmeta].
      apply settingsFrom_lookup in Hmeta as [Hmeta|(h & Hh & -> & _)];
        [by rewrite lookup_empty in Hmeta|]. eauto.
    + intros (h & Hh & ->).
      destruct (settingsFrom_declared receiver w total hashrings h Hh)
        as (meta & Hmeta & _). eauto.
  - intros Hnd. rewrite settingsFrom_size; [by rewrite map_size_empty| done |].
    intros h _. apply lookup_empty.
Qed.

Section ListFailure.

Variable F : Faults.
Variable receiver : v1alpha1.ThanosReceive.

Lemma rangeHashrings_stops total prefix : forall i settings w h suffix e,
  (forall h', h' ∈ prefix -> failure (listingOf F receiver h') = None) ->
  failure (listingOf F receiver h) = Some e ->
  let r := ThanosReceiveReconciler.rangeHashrings F receiver total i
             (prefix ++ h :: suffix) settings w in
  r.2 = inl (Wrapf "failed to list endpoint slices for resource %s" (Api e)) /\
  r.1 = after (map (listingOf F receiver) prefix ++ [listingOf F receiver h]) w.
Proof.
  induction prefix as [|h0 prefix IH]; intros i settings w h suffix e Hok Hfail;
    cbn [app ThanosReceiveReconciler.rangeHashrings map].
  - unfold ListEndpointSlices, answer. unfold listingOf in *. simpl in Hfail.
    change (synth.IngesterNameFromParent (v1alpha1.ReceiveName receiver)
              (v1alpha1.Name h)) with (shardIdentity receiver h).
    rewrite Hfail. done.
  - pose proof (Hok h0 (list_elem_of_here _ _)) as Hh0.
    unfold ListEndpointSlices, answer. unfold listingOf in Hh0 |- *.
    simpl in Hh0.
    change (synth.IngesterNameFromParent (v1alpha1.ReceiveName receiver)
              (v1alpha1.Name h0)) with (shardIdentity receiver h0).
    rewrite Hh0.
    change (record ?c ?e w) with (after [ {| call := c; failure := e |} ] w).
    cbv zeta.
    match goal with
    | |- context [ThanosReceiveReconciler.rangeHashrings F receiver total ?j
                    (prefix ++ h :: suffix) ?s ?w1] =>
        destruct (IH j s w1 h suffix e) as [Hres Hworld];
          [intros h' Hh'; by apply Hok, list_elem_of_further|done|]
    end.
    split; [exact Hres|].
    rewrite Hworld, after_after. reflexivity.
Qed.

End ListFailure.

(** X7.  The loop of [buildHashringConfig] stops at the first listing the
    platform refuses: it answers that error, wrapped, after it has listed
    the shards before and this one, and it has listed none of the shards
    after. *)
Theorem rangeHashrings_stops_at_first_failure F receiver total settings w
    prefix h suffix e :
  (forall h', h' ∈ prefix -> failure (listingOf F receiver h') = None) ->
  failure (listingOf F receiver h) = Some e ->
  let r := ThanosReceiveReconciler.rangeHashrings F receiver total 0
             (prefix ++ h :: suffix) settings w in
  r.2 = inl (Wrapf "failed to list endpoint slices for resource %s" (Api e)) /\
  calls r.1 =
    calls w ++ map (listingOf F receiver) prefix ++ [listingOf F receiver h] /\
  objects r.1 = objects w /\
  hashringsConfigured r.1 = hashringsConfigured w.
Proof.
  intros Hok Hfail r.
  destruct (rangeHashrings_stops F receiver total prefix 0 settings w h suffix
              e Hok Hfail) as [Hres Hworld].
  fold r in Hres, Hworld. by rewrite Hworld.
Qed.

Lemma first_failure {A} (P : A -> Prop) `{forall x, Decision (P x)}
    (l : list A) :
  (exists x, x ∈ l /\ P x) ->
  exists prefix x suffix,
    l = prefix ++ x :: suffix /\ P x /\ forall y, y ∈ prefix -> ~ P y.
Proof.
  induction l as [|a l IH]; intros (x & Hx & HP);
    [by apply elem_of_nil in Hx|].
  destruct (decide (P a)) as [Ha|Ha].
  - exists [], a, l. split; [done|]. split; [done|].
    intros y Hy. by apply elem_of_nil in Hy.
  - destruct IH as (prefix & x' & suffix & -> & HP' & Hprefix).
    { apply elem_of_cons in Hx as [->|Hx]; [done|eauto]. }
    exists (a :: prefix), x', suffix. split; [done|]. split; [done|].
    intros y Hy. apply elem_of_cons in Hy as [->|Hy]; auto.
Qed.

(** X8.  [buildHashringConfig] sets the gauge of configured hashrings, under
    the name and the namespace of the subject, to the number of declared
    shards once its reads have succeeded.  When the read of the config map
    fails otherwise than with not-found, or a listing fails, it answers no
    object and an error that is not the sentinel, and the gauge is what it
    was. *)
Theorem buildHashringConfig_gauge I F receiver w :
  let r := ThanosReceiveReconciler.buildHashringConfig I F receiver w in
  let hashrings := v1alpha1.Hashrings (v1alpha1.Spec receiver) in
  (readSucceeds F receiver -> listsSucceed F receiver ->
   hashringsConfigured r.1 =
     <[ (v1alpha1.ReceiveName receiver, v1alpha1.ReceiveNamespace receiver) :=
          Z.of_nat (length hashrings) ]> (hashringsConfigured w) /\
   is_Some r.2.1) /\
  ((exists msg,
      F (GetCall ("ConfigMap", v1alpha1.ReceiveNamespace receiver,
                  v1alpha1.ReceiveName receiver)) = Some (Unavailable msg)) \/
   (readSucceeds F receiver /\
    exists h, h ∈ hashrings /\ is_Some (failure (listingOf F receiver h))) ->
   hashringsConfigured r.1 = hashringsConfigured w /\
   r.2.1 = None /\
   exists err, r.2.2 = Some err /\ IsErrHashringsEmpty err = false).
Proof.
  intros r hashrings.
  assert (Hfrom_ok : forall cm rec,
    listsSucceed F receiver ->
    let r' := ThanosReceiveReconciler.buildHashringConfigFrom I F receiver cm
                (after [rec] w) in
    hashringsConfigured r'.1 =
      <[ (v1alpha1.ReceiveName receiver, v1alpha1.ReceiveNamespace receiver) :=
           Z.of_nat (length hashrings) ]> (hashringsConfigured w) /\
    is_Some r'.2.1).
  { intros cm rec Hlists.
    unfold ThanosReceiveReconciler.buildHashringConfigFrom. fold hashrings.
    pose proof (rangeHashrings_settings F receiver w
                  (Z.of_nat (length hashrings)) hashrings 0 ∅ [rec] Hlists)
      as Hres.
    destruct (rangeHashrings_after F receiver
                (Z.of_nat (length hashrings)) hashrings 0 ∅ (after [rec] w))
      as (new & Hworld & _).
    destruct (ThanosReceiveReconciler.rangeHashrings _ _ _ _ _ _ _)
      as [w1 res]. simpl in Hres, Hworld. subst res w1. simpl.
    split; [done|]. unfold synth.BuildHashrings.
    destruct (decide _); simpl; eauto. }
  assert (Hfrom_fail : forall cm rec,
    (exists h, h ∈ hashrings /\ is_Some (failure (listingOf F receiver h))) ->
    let r' := ThanosReceiveReconciler.buildHashringConfigFrom I F receiver cm
                (after [rec] w) in
    hashringsConfigured r'.1 = hashringsConfigured w /\
    r'.2.1 = None /\
    exists err, r'.2.2 = Some err /\ IsErrHashringsEmpty err = false).
  { intros cm rec Hfail.
    apply (first_failure (fun h => is_Some (failure (listingOf F receiver h))))
      in Hfail as (prefix & h & suffix & Hsplit & [e He] & Hprefix).
    unfold ThanosReceiveReconciler.buildHashringConfigFrom. fold hashrings.
    rewrite Hsplit.
    destruct (rangeHashrings_stops F receiver
                (Z.of_nat (length (prefix ++ h :: suffix))) prefix 0 ∅
                (after [rec] w) h suffix e) as [Hres Hworld].
    { intros h' Hh'. specialize (Hprefix h' Hh').
      destruct (failure (listingOf F receiver h')); [|done].
      exfalso. apply Hprefix. eauto. }
    { done. }
    destruct (ThanosReceiveReconciler.rangeHashrings _ _ _ _ _ _ _)
      as [w1 res]. simpl in Hres, Hworld. subst res w1. simpl. eauto. }
  subst r. unfold ThanosReceiveReconciler.buildHashringConfig, GetConfigMap,
    answer, readSucceeds.
  change (record ?c ?e w) with (after [ {| call := c; failure := e |} ] w).
  split.
  - intros [Hread|Hread] Hlists; rewrite Hread.
    + destruct (lookupOr _ _) as [err|cm] eqn:Hlook; simpl.
      * unfold lookupOr in Hlook. destruct (_ !! _); [done|].
        injection Hlook as <-. simpl. by apply Hfrom_ok.
      * by apply Hfrom_ok.
    + simpl. by apply Hfrom_ok.
  - intros [[msg Hget]|[[Hread|Hread] Hfail]]; rewrite ?Hget, ?Hread.
    + simpl. eauto.
    + destruct (lookupOr _ _) as [err|cm] eqn:Hlook; simpl.
      * unfold lookupOr in Hlook. destruct (_ !! _); [done|].
        injection Hlook as <-. simpl. by apply Hfrom_fail.
      * by apply Hfrom_fail.
    + simpl. by apply Hfrom_fail.
Qed.

(** ** The counters of the ingestion tier *)

Lemma readsOnly_counters receiver w w' :
  readsOnly receiver w w' ->
  reconciliationsTotal w' = reconciliationsTotal w /\
  reconciliationsFailedTotal w' = reconciliationsFailedTotal w /\
  clientErrorsTotal w' = clientErrorsTotal w.
Proof. by intros (new & _ & [-> | ->]). Qed.

Lemma applyAll_counters I F receiver objs w :
  let r := ThanosReceiveReconciler.applyAll I F receiver objs w in
  reconciliationsTotal r.1 = reconciliationsTotal w /\
  reconciliationsFailedTotal r.1 = reconciliationsFailedTotal w /\
  exists reported, r.2 = Returned reported.
Proof.
  unfold ThanosReceiveReconciler.applyAll.
  pose proof (applyObjects_outside I F
                ("ThanosReceive", v1alpha1.ReceiveName receiver)
                (v1alpha1.ReceiveNamespace receiver) objs 0 w) as Hout.
  destruct (applyObjects _ _ _ _ _ _ _) as [w1 errCount].
  unfold outsideApply in Hout. simpl in Hout.
  injection Hout as _ _ _ _ _ Htotal Hfailed _ _.
  destruct (0 <? errCount); simpl; eauto.
Qed.

Lemma syncResources_counters I F receiver w :
  let r := ThanosReceiveReconciler.syncResources I F receiver w in
  reconciliationsTotal r.1 = reconciliationsTotal w /\
  reconciliationsFailedTotal r.1 = reconciliationsFailedTotal w.
Proof.
  unfold ThanosReceiveReconciler.syncResources.
  destruct (ThanosReceiveReconciler.buildHashrings I receiver) as [objs|];
    [|done].
  pose proof (buildHashringConfig_readsOnly I F receiver w) as Hreads.
  apply readsOnly_counters in Hreads as (Htotal & Hfailed & _).
  destruct (ThanosReceiveReconciler.buildHashringConfig I F receiver w)
    as [w1 [conf oerr]]. simpl in Htotal, Hfailed.
  assert (Happly : forall cm,
    let r := ThanosReceiveReconciler.applyAll I F receiver (objs ++ [cm]) w1 in
    reconciliationsTotal r.1 = reconciliationsTotal w /\
    reconciliationsFailedTotal r.1 = reconciliationsFailedTotal w).
  { intros cm.
    destruct (applyAll_counters I F receiver (objs ++ [cm]) w1)
      as (Ht & Hf & _). simpl. by rewrite Ht, Hf. }
  destruct oerr as [err|], conf as [cm|]; simpl;
    try destruct (negb (IsErrHashringsEmpty err)); simpl; auto.
Qed.

(** X9.  Every pass of the ingestion tier counts one reconciliation, and it
    counts one failed reconciliation exactly when it returns an error. *)
Theorem Reconcile_counts_passes_and_failures I F req w :
  let r := ThanosReceiveReconciler.Reconcile I F req w in
  reconciliationsTotal r.1 = reconciliationsTotal w + 1 /\
  reconciliationsFailedTotal r.1 =
    reconciliationsFailedTotal w +
    match r.2 with
    | Returned (Some _) => 1
    | _ => 0
    end.
Proof.
  unfold ThanosReceiveReconciler.Reconcile, GetThanosReceive.
  pose proof (answer_after F (GetCall ("ThanosReceive", req.1, req.2))
                (lookupOr (receives (withReconciliationsTotal (Z.add 1) w)) req)
                (withReconciliationsTotal (Z.add 1) w)) as Hw1.
  destruct (answer _ _ _ _) as [w1 [err|receiver]]; simpl in Hw1; subst w1.
  - destruct (IsNotFound (Api err)); simpl; lia.
  - destruct (negb _).
    + unfold ThanosReceiveReconciler.handleDeletionTimestamp.
      destruct (bool_decide _); simpl; lia.
    + match goal with
      | |- context [ThanosReceiveReconciler.syncResources I F receiver ?w1] =>
          destruct (syncResources_counters I F receiver w1) as [Ht Hf];
          destruct (ThanosReceiveReconciler.syncResources I F receiver w1)
            as [w2 out]
      end.
      simpl in Ht, Hf.
      destruct out as [[err|]|]; simpl; rewrite ?Ht, ?Hf; lia.
Qed.

(** X10.  When the read of the subject fails otherwise than with not-found, the
    ingestion tier returns that error after this one call; it counts the
    client error and the failed reconciliation, and leaves the cluster and
    the recorder alone. *)
Theorem Reconcile_receive_get_failure I F req w msg :
  F (GetCall ("ThanosReceive", req.1, req.2)) = Some (Unavailable msg) ->
  let r := ThanosReceiveReconciler.Reconcile I F req w in
  r.2 = Returned (Some (Api (Unavailable msg))) /\
  calls r.1 = calls w ++ [ {| call := GetCall ("ThanosReceive", req.1, req.2);
                              failure := Some (Unavailable msg) |} ] /\
  objects r.1 = objects w /\ events r.1 = events w /\
  hashringsConfigured r.1 = hashringsConfigured w /\
  clientErrorsTotal r.1 = clientErrorsTotal w + 1 /\
  reconciliationsFailedTotal r.1 = reconciliationsFailedTotal w + 1.
Proof.
  intros Hget.
  unfold ThanosReceiveReconciler.Reconcile, GetThanosReceive, answer.
  rewrite Hget. simpl. repeat split; lia.
Qed.

(** X11.  The same on the query tier, which has no counters: the error is
    returned after the one call, and nothing is built or applied. *)
Theorem Reconcile_query_get_failure I F req w msg :
  F (GetCall ("ThanosQuery", req.1, req.2)) = Some (Unavailable msg) ->
  let r := ThanosQueryReconciler.Reconcile I F req w in
  r.2 = Returned (Some (Api (Unavailable msg))) /\
  calls r.1 = calls w ++ [ {| call := GetCall ("ThanosQuery", req.1, req.2);
                              failure := Some (Unavailable msg) |} ] /\
  sideEffectFree w r.1.
Proof.
  intros Hget.
  unfold ThanosQueryReconciler.Reconcile, GetThanosQuery, answer.
  rewrite Hget. simpl. by repeat split.
Qed.

(** X12.  A failed build of the hashring configuration is counted as a failed
    reconciliation, and not as a client error: the counter of client
    errors, the gauge apart, is what it was. *)
Theorem Reconcile_build_failure_counters I F req w receiver objs err :
  (GetThanosReceive F req w).2 = inr receiver ->
  ThanosReceiveReconciler.IsZero (v1alpha1.DeletionTimestamp receiver) = true ->
  ThanosReceiveReconciler.buildHashrings I receiver = Some objs ->
  (ThanosReceiveReconciler.buildHashringConfig I F receiver
     (GetThanosReceive F req (withReconciliationsTotal (Z.add 1) w)).1).2.2 =
    Some err ->
  IsErrHashringsEmpty err = false ->
  let r := ThanosReceiveReconciler.Reconcile I F req w in
  r.2 = Returned (Some (Wrapf "failed to build hashring configuration" err)) /\
  clientErrorsTotal r.1 = clientErrorsTotal w /\
  reconciliationsFailedTotal r.1 = reconciliationsFailedTotal w + 1.
Proof.
  intros Hget Hzero Hobjs Herr Hsentinel.
  pose proof (syncResources_build_failure I F receiver _ objs err
                Hobjs Herr Hsentinel) as [Hout Hreads].
  apply readsOnly_counters in Hreads as (_ & Hfailed & Hclient).
  unfold ThanosReceiveReconciler.Reconcile.
  change ((GetThanosReceive F req (withReconciliationsTotal (Z.add 1) w)).2 =
          inr receiver) in Hget.
  pose proof (answer_after F (GetCall ("ThanosReceive", req.1, req.2))
                (lookupOr (receives (withReconciliationsTotal (Z.add 1) w)) req)
                (withReconciliationsTotal (Z.add 1) w)) as Hw1.
  fold (GetThanosReceive F req (withReconciliationsTotal (Z.add 1) w)) in Hw1.
  destruct (GetThanosReceive F req (withReconciliationsTotal (Z.add 1) w))
    as [w1 got]. simpl in Hget, Hout, Hfailed, Hclient, Hw1. subst got.
  rewrite Hzero. simpl negb. cbv iota.
  destruct (ThanosReceiveReconciler.syncResources I F receiver w1)
    as [w2 out]. simpl in Hout, Hfailed, Hclient. subst out. simpl.
  split; [done|]. rewrite Hfailed, Hclient, Hw1. simpl. split; [done|lia].
Qed.

(** ** The query tier when the listing of the services fails *)

(** X13.  A failed listing of the services is not reported: the querier is
    built as if no service had been observed, and the pass succeeds when
    the platform refuses none of its objects. *)
Theorem syncResources_swallows_list_failure I F query w e :
  let spec := v1alpha1.QuerySpec query in
  let objs :=
    BuildQuerier I
      {| manifestquery.Options :=
           ApplyDefaults I
             {| manifests.Name := v1alpha1.QueryName query;
                manifests.Namespace := v1alpha1.QueryNamespace query;
                manifests.Replicas := v1alpha1.QueryReplicas spec;
                manifests.Labels := v1alpha1.QueryLabels query;
                manifests.Image := v1alpha1.QueryImage spec;
                manifests.LogLevel := v1alpha1.QueryLogLevel spec;
                manifests.LogFormat := v1alpha1.QueryLogFormat spec |};
         manifestquery.ReplicaLabels := v1alpha1.QuerierReplicaLabels spec;
         manifestquery.Timeout := "15m";
         manifestquery.LookbackDelta := "5m";
         manifestquery.MaxConcurrent := 20;
         manifestquery.Endpoints := [] |} in
  F (ListCall "Service" (v1alpha1.QueryNamespace query)
       (v1alpha1.StoreLabelSelector spec)) = Some e ->
  (ThanosQueryReconciler.getStoreAPIServiceEndpoints I F query w).2 = [] /\
  (ThanosQueryReconciler.buildQuerier I F query w).2 = objs /\
  (Z.of_nat (length objs) < 2 ^ 31 ->
   (forall obj, obj ∈ objs ->
      ~ refused I F ("ThanosQuery", v1alpha1.QueryName query)
          (v1alpha1.QueryNamespace query) obj) ->
   (ThanosQueryReconciler.syncResources I F query w).2 = None).
Proof.
  intros spec objs Hlist.
  assert (Hends : (ThanosQueryReconciler.getStoreAPIServiceEndpoints I F
                     query w).2 = []).
  { unfold ThanosQueryReconciler.getStoreAPIServiceEndpoints, ListServices,
      answer. fold spec. by rewrite Hlist. }
  assert (Hbuilt : (ThanosQueryReconciler.buildQuerier I F query w).2 = objs).
  { unfold ThanosQueryReconciler.buildQuerier.
    destruct (ThanosQueryReconciler.getStoreAPIServiceEndpoints I F query w)
      as [w1 endpoints]. simpl in Hends. by subst endpoints. }
  split; [done|]. split; [done|]. intros Hlen Hok.
  pose proof (syncResources_query_bestEffort I F query w) as Hbe.
  simpl in Hbe. rewrite Hbuilt in Hbe.
  destruct (Hbe Hlen) as (new & _ & _ & _ & Hiff & _).
  destruct (ThanosQueryReconciler.syncResources I F query w).2 as [err|] eqn:Hr;
    [|done].
  destruct Hiff as [Hsome _]. destruct Hsome as (obj & Hobj & Href); [eauto|].
  by destruct (Hok obj Hobj).
Qed.

(** ** The watch on the services *)

Section EnqueueForService.

Variable F : Faults.
Variable DefaultStoreAPILabel : string.
Variable DefaultStoreAPIValue : string.

Lemma rangeQueriers_elem labels items key :
  key ∈ ThanosQueryReconciler.rangeQueriers labels items <->
  exists query, query ∈ items /\
    v1alpha1.StoreLabelSelector (v1alpha1.QuerySpec query) ⊆ labels /\
    key = (v1alpha1.QueryNamespace query, v1alpha1.QueryName query).
Proof.
  induction items as [|query items IH]; simpl.
  - split; [by intros ?%elem_of_nil|].
    by intros (? & ?%elem_of_nil & _).
  - destruct (bool_decide_reflect
                (v1alpha1.StoreLabelSelector (v1alpha1.QuerySpec query)
                   ⊆ labels)) as [Hsub|Hsub].
    + rewrite elem_of_cons, IH. split.
      * intros [->|(q & Hq & Hs & ->)].
        { exists query. split; [apply list_elem_of_here|done]. }
        exists q. split; [by apply list_elem_of_further|done].
      * intros (q & [->|Hq]%elem_of_cons & Hs & ->); [by left|].
        right. by exists q.
    + rewrite IH. split.
      * intros (q & Hq & Hs & ->).
        exists q. split; [by apply list_elem_of_further|done].
      * intros (q & [->|Hq]%elem_of_cons & Hs & ->); [done|].
        by exists q.
Qed.

Lemma ListThanosQueries_elem ns w items query :
  (ThanosQueryReconciler.ListThanosQueries F ns w).2 = inr items ->
  query ∈ items <->
  v1alpha1.QueryNamespace query = ns /\
  exists key, queries w !! key = Some query.
Proof.
  unfold ThanosQueryReconciler.ListThanosQueries, answer.
  destruct (F _); simpl; [done|]. intros [= <-].
  rewrite list_elem_of_filter.
  change (map snd (map_to_list (queries w)))
    with (snd <$> map_to_list (queries w)).
  rewrite list_elem_of_fmap. split.
  - intros [Hns ([key q] & -> & Hin%elem_of_map_to_list)]. eauto.
  - intros [Hns [key Hkey]]. split; [done|].
    exists (key, query). split; [done|]. by apply elem_of_map_to_list.
Qed.

Lemma enqueueForService_elem obj w key :
  key ∈ (ThanosQueryReconciler.enqueueForService F DefaultStoreAPILabel
           DefaultStoreAPIValue obj w).2 <->
  default "" (Labels obj !! DefaultStoreAPILabel) = DefaultStoreAPIValue /\
  F (ListCall "ThanosQuery" (Namespace obj) ∅) = None /\
  exists stored query,
    queries w !! stored = Some query /\
    v1alpha1.QueryNamespace query = Namespace obj /\
    v1alpha1.StoreLabelSelector (v1alpha1.QuerySpec query) ⊆ Labels obj /\
    key = (v1alpha1.QueryNamespace query, v1alpha1.QueryName query).
Proof.
  unfold ThanosQueryReconciler.enqueueForService.
  destruct (String.eqb_spec (default "" (Labels obj !! DefaultStoreAPILabel))
              DefaultStoreAPIValue) as [Hlabel|Hlabel]; cbn [negb].
  2: { split; [by intros ?%elem_of_nil|]. by intros [? _]. }
  pose proof (ListThanosQueries_elem (Namespace obj) w) as Hitems.
  assert (Hfault : forall e,
    (ThanosQueryReconciler.ListThanosQueries F (Namespace obj) w).2 = inl e ->
    F (ListCall "ThanosQuery" (Namespace obj) ∅) = Some e).
  { unfold ThanosQueryReconciler.ListThanosQueries, answer.
    destruct (F _); simpl; [by intros e [= ->]|done]. }
  assert (Hfine : forall items,
    (ThanosQueryReconciler.ListThanosQueries F (Namespace obj) w).2 =
      inr items ->
    F (ListCall "ThanosQuery" (Namespace obj) ∅) = None).
  { unfold ThanosQueryReconciler.ListThanosQueries, answer.
    destruct (F _); simpl; done. }
  destruct (ThanosQueryReconciler.ListThanosQueries F (Namespace obj) w)
    as [w1 [e|items]]; cbn [fst snd] in *.
  - rewrite (Hfault e eq_refl). split; [by intros ?%elem_of_nil|].
    by intros (_ & ? & _).
  - rewrite rangeQueriers_elem. split.
    + intros (query & Hq & Hsub & ->).
      apply (Hitems items query eq_refl) in Hq as [Hns [stored Hstored]].
      split; [done|]. split; [by apply (Hfine items)|].
      by exists stored, query.
    + intros (_ & _ & stored & query & Hstored & Hns & Hsub & ->).
      exists query. split; [|done].
      apply (Hitems items query eq_refl). eauto.
Qed.


(** X15.  The map function only reads: it makes at most the one listing, and
    the cluster, the events and the metrics are what they were. *)
Theorem enqueueForService_reads_only obj w :
  let r := ThanosQueryReconciler.enqueueForService F DefaultStoreAPILabel
             DefaultStoreAPIValue obj w in
  sideEffectFree w r.1 /\ queries r.1 = queries w /\
  (calls r.1 = calls w \/
   calls r.1 =
     calls w ++ [ {| call := ListCall "ThanosQuery" (Namespace obj) ∅;
                     failure := F (ListCall "ThanosQuery" (Namespace obj) ∅)
                  |} ]).
Proof.
  unfold ThanosQueryReconciler.enqueueForService,
    ThanosQueryReconciler.ListThanosQueries, answer.
  destruct (negb _); simpl; [by repeat split; auto|].
  destruct (F _); simpl; by repeat split; auto.
Qed.

(** X16.  Under a well-keyed store every request the watch enqueues is the key
    of a ThanosQuery of the namespace of the service: the pass it
    triggers finds its subject unless the read itself fails. *)
Theorem enqueueForService_existing_subject I obj w key :
  wellKeyed w ->
  key ∈ (ThanosQueryReconciler.enqueueForService F DefaultStoreAPILabel
           DefaultStoreAPIValue obj w).2 ->
  key.1 = Namespace obj /\
  exists query,
    queries w !! key = Some query /\
    (F (GetCall ("ThanosQuery", key.1, key.2)) = None ->
     (GetThanosQuery F key w).2 = inr query /\
     (ThanosQueryReconciler.Reconcile I F key w).2 =
       Returned
         (ThanosQueryReconciler.syncResources I F query
            (GetThanosQuery F key w).1).2).
Proof.
  intros Hkeyed (_ & _ & stored & query & Hstored & Hns & _ & ->)
    %enqueueForService_elem.
  split; [done|]. exists query.
  rewrite (Hkeyed _ _ Hstored) in Hstored. split; [done|].
  intros Hget. unfold ThanosQueryReconciler.Reconcile, GetThanosQuery, answer,
    lookupOr. simpl in *. rewrite Hget, Hstored. simpl. split; [done|].
  by destruct (ThanosQueryReconciler.syncResources _ _ _ _) as [w2 [err|]].
Qed.


End EnqueueForService.

(** ** The watch on the endpoint slices *)

Section EnqueueForEndpointSlice.

Variable F : Faults.

(** X18.  The watch enqueues at most one request, in the namespace of the
    slice; its counter counts exactly the requests it enqueues; and it
    only reads: the cluster, the events and the metrics of the passes are
    what they were. *)
Theorem enqueueForEndpointSlice_counts_requests obj watches w :
  let r := ThanosReceiveReconciler.enqueueForEndpointSlice F obj watches w in
  r.1.2 = watches + Z.of_nat (length r.2) /\
  (r.2 = [] \/ exists owner, r.2 = [(Namespace obj, owner)]) /\
  sideEffectFree w r.1.1 /\
  (r.2 <> [] -> exists service,
     calls r.1.1 =
       calls w ++ [ {| call := GetCall ("Service", Namespace obj, service);
                       failure := None |} ]).
Proof.
  unfold ThanosReceiveReconciler.enqueueForEndpointSlice,
    ThanosReceiveReconciler.GetService, answer.
  destruct (ThanosReceiveReconciler.soleOwner "Service" obj) as [service|];
    simpl.
  2: { split; [lia|]. by repeat split; auto. }
  destruct (F _); simpl.
  { split; [lia|]. by repeat split; auto. }
  destruct (lookupOr _ _) as [e|svc]; simpl.
  { split; [lia|]. by repeat split; auto. }
  destruct (ThanosReceiveReconciler.soleOwner "ThanosReceive" svc)
    as [owner|]; simpl.
  2: { split; [lia|]. by repeat split; auto. }
  split; [lia|]. split; [eauto|]. split; [by repeat split|]. eauto.
Qed.

Variable I : Imports.
Variable subject : string.
Variable ns : string.

(** X19.  The watch finds its way back to the subject of the pass: after a pass
    that the platform did not refuse has applied a service, an endpoint
    slice of the namespace owned by that service enqueues the subject. *)
Theorem applied_service_maps_slice_to_subject
    objs errCount w svc slice controller watches :
  (forall obj, obj ∈ objs ->
     ~ refused I F ("ThanosReceive", subject) ns obj) ->
  NoDup (map (fun obj =>
                keyOf (prepared I ("ThanosReceive", subject) ns obj)) objs) ->
  svc ∈ objs ->
  Kind svc = "Service" ->
  IsNamespacedResource I svc = true ->
  OwnerReferences svc = [] ->
  Namespace slice = ns ->
  OwnerReferences slice =
    [ {| OwnerKind := "Service"; OwnerName := Name svc;
         Controller := controller |} ] ->
  F (GetCall ("Service", ns, Name svc)) = None ->
  let w' := (applyObjects I F ("ThanosReceive", subject) ns objs errCount w).1 in
  let r := ThanosReceiveReconciler.enqueueForEndpointSlice F slice watches w' in
  r.2 = [(ns, subject)] /\ r.1.2 = watches + 1.
Proof.
  intros Hok Hnd Hsvc Hkind Hnamespaced Hrefs Hns Hslice Hget.
  destruct (applyObjects_stores I F ("ThanosReceive", subject) ns objs
              errCount w Hok Hnd) as [_ Hstored].
  destruct (Hstored svc Hsvc) as (o & Ho & _ & _ & Ho_refs & _).
  destruct (prepared_namespaced I ("ThanosReceive", subject) ns svc
              Hnamespaced) as [Hpns Hprefs].
  assert (Hkey : keyOf (prepared I ("ThanosReceive", subject) ns svc) =
                 ("Service", ns, Name svc)).
  { unfold keyOf. rewrite Hpns. unfold prepared. rewrite Hnamespaced.
    simpl. by rewrite Hkind. }
  rewrite Hkey in Ho. rewrite Hprefs, Hrefs in Ho_refs. simpl in Ho_refs.
  intros w' r.
  assert (Hr : r = (record (GetCall ("Service", ns, Name svc)) None w',
                    watches + 1, [(ns, subject)])); [|by rewrite Hr].
  subst r. unfold ThanosReceiveReconciler.enqueueForEndpointSlice,
    ThanosReceiveReconciler.soleOwner.
  rewrite Hslice. simpl.
  unfold ThanosReceiveReconciler.GetService, answer, lookupOr.
  rewrite Hns, Hget. subst w'. rewrite Ho. simpl. by rewrite Ho_refs.
Qed.

End EnqueueForEndpointSlice.

(** ** What the passes leave alone *)



Lemma applyObjects_keeps I F owner ns objs errCount w k :
  is_Some (objects w !! k) ->
  is_Some (objects (applyObjects I F owner ns objs errCount w).1 !! k).
Proof. apply applyObjects_objects. Qed.


Lemma applyAll_keeps I F receiver objs w k :
  is_Some (objects w !! k) ->
  is_Some (objects (ThanosReceiveReconciler.applyAll I F receiver objs w).1
             !! k).
Proof.
  intros Hk. unfold ThanosReceiveReconciler.applyAll.
  pose proof (applyObjects_keeps I F
                ("ThanosReceive", v1alpha1.ReceiveName receiver)
                (v1alpha1.ReceiveNamespace receiver) objs 0 w k Hk) as Hkeep.
  destruct (applyObjects _ _ _ _ _ _ _) as [w1 errCount].
  by destruct (0 <? errCount).
Qed.

Lemma applyAll_events I F receiver objs w :
  events (ThanosReceiveReconciler.applyAll I F receiver objs w).1 = events w.
Proof.
  unfold ThanosReceiveReconciler.applyAll.
  pose proof (applyObjects_outside I F
                ("ThanosReceive", v1alpha1.ReceiveName receiver)
                (v1alpha1.ReceiveNamespace receiver) objs 0 w) as Hout.
  destruct (applyObjects _ _ _ _ _ _ _) as [w1 errCount].
  unfold outsideApply in Hout. simpl in Hout.
  injection Hout as _ _ _ _ Hevents _ _ _ _.
  by destruct (0 <? errCount).
Qed.

Lemma syncResources_keeps I F receiver w :
  let r := ThanosReceiveReconciler.syncResources I F receiver w in
  events r.1 = events w /\
  forall k, is_Some (objects w !! k) -> is_Some (objects r.1 !! k).
Proof.
  unfold ThanosReceiveReconciler.syncResources.
  destruct (ThanosReceiveReconciler.buildHashrings I receiver) as [objs|];
    [|done].
  pose proof (buildHashringConfig_readsOnly I F receiver w) as Hreads.
  apply readsOnly_fields in Hreads as (Hobjects & Hevents & _).
  destruct (ThanosReceiveReconciler.buildHashringConfig I F receiver w)
    as [w1 [conf oerr]]. simpl in Hobjects, Hevents.
  assert (Happly : forall cm,
    let r := ThanosReceiveReconciler.applyAll I F receiver (objs ++ [cm]) w1 in
    events r.1 = events w /\
    forall k, is_Some (objects w !! k) -> is_Some (objects r.1 !! k)).
  { intros cm. simpl. rewrite applyAll_events. split; [done|].
    intros k Hk. apply applyAll_keeps. by rewrite Hobjects. }
  assert (Hstay : events w1 = events w /\
    forall k, is_Some (objects w !! k) -> is_Some (objects w1 !! k)).
  { split; [done|]. intros k Hk. by rewrite Hobjects. }
  destruct oerr as [err|], conf as [cm|]; simpl;
    try destruct (negb (IsErrHashringsEmpty err)); simpl; auto.
Qed.

(** X22.  The ingestion tier never deletes an object, and it records an event
    only for a subject that is being deleted and carries the
    finalizer. *)
Theorem Reconcile_receive_frame I F req w :
  let r := ThanosReceiveReconciler.Reconcile I F req w in
  (forall k, is_Some (objects w !! k) -> is_Some (objects r.1 !! k)) /\
  (events r.1 = events w \/
   exists receiver,
     receives w !! req = Some receiver /\
     ThanosReceiveReconciler.IsZero (v1alpha1.DeletionTimestamp receiver) =
       false /\
     ThanosReceiveReconciler.receiveFinalizer ∈ v1alpha1.Finalizers receiver /\
     r.2 = Returned None /\ objects r.1 = objects w).
Proof.
  unfold ThanosReceiveReconciler.Reconcile, GetThanosReceive, answer.
  destruct (F _) as [e|]; simpl.
  { destruct e; simpl; (split; [done|by left]). }
  unfold lookupOr. simpl.
  destruct (receives w !! req) as [receiver|] eqn:Hreceiver; simpl;
    [|split; [done|by left]].
  destruct (ThanosReceiveReconciler.IsZero
              (v1alpha1.DeletionTimestamp receiver)) eqn:Hzero; simpl.
  - match goal with
    | |- context [ThanosReceiveReconciler.syncResources I F receiver ?w1] =>
        destruct (syncResources_keeps I F receiver w1) as [Hevents Hkeep];
        destruct (ThanosReceiveReconciler.syncResources I F receiver w1)
          as [w2 out]
    end.
    simpl in Hevents, Hkeep.
    destruct out as [[err|]|]; simpl; (split; [done|by left]).
  - unfold ThanosReceiveReconciler.handleDeletionTimestamp.
    destruct (bool_decide_reflect
                (ThanosReceiveReconciler.receiveFinalizer
                   ∈ v1alpha1.Finalizers receiver)) as [Hfin|Hfin]; simpl.
    + split; [done|]. right. by exists receiver.
    + split; [done|by left].
Qed.

(** ** The further properties on the sample inputs *)

(** The apply of the stateful set of a shard leaves the config map of the
    subject where it was. *)
Lemma applyObjects_frame_witness :
  let w := Sample.world [] [] [] [] [Sample.previousConfigMap] in
  objects (applyObjects Sample.imports Sample.noFaults
             ("ThanosReceive", "test-resource") "treceive"
             [Fixture.ingester] 0 w).1
    !! ("ConfigMap", "treceive", "test-resource") =
  Some Sample.previousConfigMap.
Proof.
  intros w.
  destruct (applyObjects_frame Sample.imports Sample.noFaults
              ("ThanosReceive", "test-resource") "treceive"
              [Fixture.ingester] 0 w
              ("ConfigMap", "treceive", "test-resource")) as [_ Hsame].
  etransitivity; [apply Hsame|reflexivity].
  intros obj Hobj. apply list_elem_of_singleton in Hobj. subst obj.
  vm_compute. discriminate.
Defined.

(** The stateful set of a shard is on the cluster after its apply, owned
    by the subject. *)
Lemma applyObjects_stored_witness :
  let w := Sample.world [] [] [] [] [] in
  exists o,
    objects (applyObjects Sample.imports Sample.noFaults
               ("ThanosReceive", "test-resource") "treceive"
               [Fixture.ingester] 0 w).1
      !! ("StatefulSet", "treceive", "test-resource-test-hashring") = Some o /\
    OwnerReferences o =
      [ {| OwnerKind := "ThanosReceive"; OwnerName := "test-resource";
           Controller := true |} ].
Proof.
  intros w.
  destruct (applyObjects_stored Sample.imports Sample.noFaults
              ("ThanosReceive", "test-resource") "treceive"
              [Fixture.ingester] 0 w) as [_ Hstored].
  - intros obj Hobj. apply list_elem_of_singleton in Hobj. subst obj.
    intros [[_ [e He]]|[e He]]; vm_compute in He; discriminate.
  - apply (bool_decide_unpack _). vm_compute. exact Logic.I.
  - destruct (Hstored Fixture.ingester (list_elem_of_here _ _))
      as (o & Ho & _ & _ & Hrefs & _).
    exists o. split; [exact Ho|exact Hrefs].
Defined.

(** A subject with a shard that declares no retention makes the pass
    panic. *)
Lemma buildHashrings_panic_or_options_witness :
  let receiver := Sample.receiver None [] [Fixture.unbounded] in
  let w := Sample.world [] [receiver] [] [] [] in
  ThanosReceiveReconciler.syncResources Sample.imports Sample.noFaults
    receiver w = (w, Panicked).
Proof.
  intros receiver w.
  destruct (buildHashrings_panic_or_options Sample.imports Sample.noFaults
              receiver w) as ([_ Hnone] & Hpanic & _).
  apply Hpanic, Hnone. exists Fixture.unbounded.
  split; [apply list_elem_of_here|]. left. reflexivity.
Defined.

(** Of two declarations of the shard [a], the second one is in the
    settings, with priority 1 of 2. *)
Lemma rangeHashrings_last_wins_witness :
  let receiver :=
    Sample.receiver None [] [Sample.hashring "a"; Fixture.again] in
  let w := Sample.world [] [receiver] [] [] [] in
  exists settings meta,
    (ThanosReceiveReconciler.rangeHashrings Sample.noFaults receiver 2 0
       [Sample.hashring "a"; Fixture.again] ∅ w).2 = inr settings /\
    settings !! "test-resource-a" = Some meta /\
    receive.DesiredReplicasReplicas meta = 5 /\ receive.Priority meta = 1.
Proof.
  intros receiver w.
  destruct (rangeHashrings_last_wins Sample.noFaults receiver w
              [Sample.hashring "a"] Fixture.again [])
    as (settings & Hres & Hmeta & _).
  - intros h Hh. reflexivity.
  - reflexivity.
  - intros h Hh. by apply elem_of_nil in Hh.
  - exists settings. eexists. split; [exact Hres|].
    split; [exact Hmeta|]. split; reflexivity.
Defined.

(** The subject of the controller's test has one setting. *)
Lemma rangeHashrings_domain_witness :
  let w := Sample.world [] [Sample.testReceive] [] [Sample.epSliceRelevant] [] in
  exists settings,
    (ThanosReceiveReconciler.rangeHashrings Sample.noFaults Sample.testReceive
       1 0 [Sample.hashring "test-hashring"] ∅ w).2 = inr settings /\
    size settings = 1%nat.
Proof.
  intros w.
  destruct (rangeHashrings_domain Sample.noFaults Sample.testReceive w)
    as (settings & Hres & _ & Hsize).
  - intros h Hh. reflexivity.
  - exists settings. split; [exact Hres|]. apply Hsize.
    apply (bool_decide_unpack _). vm_compute. exact Logic.I.
Defined.

(** With the listing of the second of three shards refused, the loop
    makes two listings. *)
Lemma rangeHashrings_stops_at_first_failure_witness :
  let F := Fixture.refuseShard "test-resource-b" in
  let receiver :=
    Sample.receiver None []
      [Sample.hashring "a"; Sample.hashring "b"; Sample.hashring "c"] in
  let w := Sample.world [] [receiver] [] [] [] in
  let r := ThanosReceiveReconciler.rangeHashrings F receiver 3 0
             [Sample.hashring "a"; Sample.hashring "b"; Sample.hashring "c"]
             ∅ w in
  r.2 = inl (Wrapf "failed to list endpoint slices for resource %s"
               (Api (Unavailable "timeout"))) /\
  length (calls r.1) = 2%nat.
Proof.
  intros F receiver w r.
  destruct (rangeHashrings_stops_at_first_failure F receiver 3 ∅ w
              [Sample.hashring "a"] (Sample.hashring "b")
              [Sample.hashring "c"] (Unavailable "timeout"))
    as (Hres & Hcalls & _).
  - intros h Hh. apply list_elem_of_singleton in Hh. subst h. reflexivity.
  - reflexivity.
  - split; [exact Hres|].
    exact (eq_trans (f_equal length Hcalls) eq_refl).
Defined.

(** The gauge of the subject of the controller's test is set to 1. *)
Lemma buildHashringConfig_gauge_witness :
  let w := Sample.world [] [Sample.testReceive] [] [Sample.epSliceRelevant] [] in
  hashringsConfigured
    (ThanosReceiveReconciler.buildHashringConfig Sample.imports
       Sample.noFaults Sample.testReceive w).1
    !! ("test-resource", "treceive") = Some 1.
Proof.
  intros w.
  destruct (buildHashringConfig_gauge Sample.imports Sample.noFaults
              Sample.testReceive w) as [Hset _].
  destruct Hset as [Hgauge _].
  - left. reflexivity.
  - intros h Hh. reflexivity.
  - rewrite Hgauge. reflexivity.
Defined.

(** A refused read of the subject is one client error and one failed
    reconciliation. *)
Lemma Reconcile_receive_get_failure_witness :
  let w := Sample.world [] [Sample.testReceive] [] [] [] in
  let r := ThanosReceiveReconciler.Reconcile Sample.imports
             Fixture.refuseSubjectRead ("treceive", "test-resource") w in
  r.2 = Returned (Some (Api (Unavailable "timeout"))) /\
  clientErrorsTotal r.1 = 1 /\ reconciliationsFailedTotal r.1 = 1.
Proof.
  intros w r.
  destruct (Reconcile_receive_get_failure Sample.imports
              Fixture.refuseSubjectRead ("treceive", "test-resource") w
              "timeout") as (Hout & _ & _ & _ & _ & Hclient & Hfailed).
  - reflexivity.
  - split; [exact Hout|]. split; [exact Hclient|exact Hfailed].
Defined.

Lemma Reconcile_query_get_failure_witness :
  let w := Sample.world [Sample.query None] [] [Sample.myStore] [] [] in
  let r := ThanosQueryReconciler.Reconcile Sample.imports
             Fixture.refuseSubjectRead ("ns", "test-resource") w in
  r.2 = Returned (Some (Api (Unavailable "timeout"))) /\
  objects r.1 = ∅.
Proof.
  intros w r.
  destruct (Reconcile_query_get_failure Sample.imports
              Fixture.refuseSubjectRead ("ns", "test-resource") w
              "timeout") as (Hout & _ & Hobjects & _).
  - reflexivity.
  - split; [exact Hout|exact Hobjects].
Defined.

(** The refused read of the config map is no client error. *)
Lemma Reconcile_build_failure_counters_witness :
  let w := Sample.world [] [Sample.testReceive] [] [Sample.epSliceRelevant] [] in
  let r := ThanosReceiveReconciler.Reconcile Sample.imports
             Sample.refuseConfigMapRead ("treceive", "test-resource") w in
  clientErrorsTotal r.1 = 0 /\ reconciliationsFailedTotal r.1 = 1.
Proof.
  intros w r.
  destruct (Reconcile_build_failure_counters Sample.imports
              Sample.refuseConfigMapRead ("treceive", "test-resource") w
              Sample.testReceive [Fixture.ingester]
              (Wrapf "failed to get config map for resource %s"
                 (Api (Unavailable "timeout"))))
    as (_ & Hclient & Hfailed);
    [reflexivity|reflexivity|reflexivity|reflexivity|reflexivity|].
  split; [exact Hclient|exact Hfailed].
Defined.

(** With every listing refused, the pass of the query tier succeeds. *)
Lemma syncResources_swallows_list_failure_witness :
  let w := Sample.world [Sample.query None] [] [Sample.myStore] [] [] in
  (ThanosQueryReconciler.syncResources Sample.imports Sample.refuseLists
     (Sample.query None) w).2 = None.
Proof.
  intros w.
  destruct (syncResources_swallows_list_failure Sample.imports
              Sample.refuseLists (Sample.query None) w (Unavailable "timeout"))
    as (_ & _ & Hnone); [reflexivity|].
  apply Hnone; [reflexivity|].
  intros obj Hobj. apply list_elem_of_singleton in Hobj. subst obj.
  intros [[_ [e He]]|[e He]]; vm_compute in He; discriminate.
Defined.


Lemma enqueueForService_existing_subject_witness :
  let w := Sample.world [Sample.query None] [] [Sample.myStore] [] [] in
  exists query, queries w !! ("ns", "test-resource") = Some query.
Proof.
  intros w.
  destruct (enqueueForService_existing_subject Sample.noFaults "store-api"
              "true" Sample.imports Fixture.storeService w
              ("ns", "test-resource")) as (_ & query & Hquery & _).
  - intros key query Hquery.
    change (<[("ns", "test-resource") := Sample.query None]>
              (∅ : gmap (string * string) v1alpha1.ThanosQuery) !! key =
            Some query) in Hquery.
    apply lookup_insert_Some in Hquery as [[<- <-]|[_ Hquery]];
      [reflexivity|by rewrite lookup_empty in Hquery].
  - apply enqueueForService_elem.
    split; [reflexivity|]. split; [reflexivity|].
    exists ("ns", "test-resource"), (Sample.query None).
    split; [reflexivity|]. split; [reflexivity|]. split; [|reflexivity].
    apply (bool_decide_unpack _). vm_compute. exact Logic.I.
  - exists query. exact Hquery.
Defined.


(** The slice of a service that the subject owns is counted and enqueues
    the subject after one read. *)
Lemma enqueueForEndpointSlice_counts_requests_witness :
  let svc :=
    withControllerReference "ThanosReceive" "test-resource"
      Fixture.ingesterService in
  let w := Sample.world [] [Sample.testReceive] [] [] [svc] in
  let r := ThanosReceiveReconciler.enqueueForEndpointSlice Sample.noFaults
             Fixture.slice 0 w in
  r.1.2 = 1 /\ exists service,
    calls r.1.1 = [ {| call := GetCall ("Service", "treceive", service);
                       failure := None |} ].
Proof.
  intros svc w r.
  destruct (enqueueForEndpointSlice_counts_requests Sample.noFaults
              Fixture.slice 0 w) as (Hcount & _ & _ & Hcalls).
  split; [exact Hcount|].
  destruct Hcalls as [service Hservice]; [discriminate|].
  exists service. exact Hservice.
Defined.

Lemma applied_service_maps_slice_to_subject_witness :
  let w := Sample.world [] [Sample.testReceive] [] [] [] in
  let w' := (applyObjects Sample.imports Sample.noFaults
               ("ThanosReceive", "test-resource") "treceive"
               [Fixture.ingester; Fixture.ingesterService] 0 w).1 in
  (ThanosReceiveReconciler.enqueueForEndpointSlice Sample.noFaults
     Fixture.slice 0 w').2 = [("treceive", "test-resource")].
Proof.
  intros w w'.
  destruct (applied_service_maps_slice_to_subject Sample.noFaults
              Sample.imports "test-resource" "treceive"
              [Fixture.ingester; Fixture.ingesterService] 0 w
              Fixture.ingesterService Fixture.slice true 0)
    as [Hreq _].
  - intros obj Hobj [[_ [e He]]|[e He]]; vm_compute in He; discriminate.
  - apply (bool_decide_unpack _). vm_compute. exact Logic.I.
  - apply list_elem_of_further, list_elem_of_here.
  - reflexivity.
  - reflexivity.
  - reflexivity.
  - reflexivity.
  - reflexivity.
  - reflexivity.
  - exact Hreq.
Defined.



Lemma Reconcile_receive_frame_witness :
  let w := Sample.world [] [Sample.testReceive] [] [Sample.epSliceRelevant]
             [Sample.previousConfigMap] in
  is_Some (objects (ThanosReceiveReconciler.Reconcile Sample.imports
                      Sample.noFaults ("treceive", "test-resource") w).1
             !! ("ConfigMap", "treceive", "test-resource")).
Proof.
  intros w.
  destruct (Reconcile_receive_frame Sample.imports Sample.noFaults
              ("treceive", "test-resource") w) as [Hkeep _].
  apply Hkeep. eexists. reflexivity.
Defined.
